(** * AWS-Data-Lake: the Sparkify ETL job (etl.py)

    A shallow embedding of [etl.py] and of the parts of PySpark, configparser
    and datetime that the script calls, followed by the properties of the
    pipeline that its specification states. *)

From Stdlib Require Import ZArith String Ascii List Bool Lia.
From Stdlib Require Import Floats.SpecFloat.
From stdpp Require Import base option list gmap strings pretty sorting.

Local Open Scope string_scope.
Local Open Scope list_scope.
Local Open Scope Z_scope.

(** ** Errors and the result monad

    Every failure of the job is fatal: an exception that nothing catches. *)

Inductive Error : Type :=
| AnalysisException (msg : string)  (* Spark: raised while a plan is analysed *)
| AttributeError (name : string)    (* PySpark: [df.name] with no such column *)
| KeyError (key : string)           (* configparser: section or option absent *)
| ParsingError (file : string)      (* configparser: malformed file *)
| PythonException (exc : string).   (* a udf raised inside a job *)

Inductive result (A : Type) : Type :=
| Ok (a : A)
| Err (e : Error).
Arguments Ok {A} a.
Arguments Err {A} e.

#[global] Instance result_ret : MRet result := @Ok.
#[global] Instance result_bind : MBind result :=
  λ A B f m, match m with Ok a => f a | Err e => Err e end.
#[global] Instance result_fmap : FMap result :=
  λ A B f m, match m with Ok a => Ok (f a) | Err e => Err e end.

Definition bind {A B} (m : result A) (f : A → result B) : result B := mbind f m.

Notation "'let*' x ':=' m 'in' k" := (bind m (λ x, k))
  (at level 10, x name, m at level 100, k at level 200,
   format "'[v' 'let*'  x  ':='  m  'in' '/' k ']'").

(** [mapM] at [result]: the first failure, or every value. *)
Definition traverse {A B} (f : A → result B) (l : list A) : result (list B) :=
  mapM f l.

(** ** Values, rows and data frames *)

(** A cell of a data frame.  Spark infers [LongType] for JSON integers,
    [DoubleType] for JSON decimals and [StringType] for JSON strings; a
    double is a binary64 number ([spec_float] at precision 53). *)
Inductive Value : Type :=
| VNull
| VLong (z : Z)
| VDouble (f : spec_float)
| VString (s : string).

#[global] Instance spec_float_eq_dec : EqDecision spec_float.
Proof. solve_decision. Defined.
#[global] Instance Value_eq_dec : EqDecision Value.
Proof. solve_decision. Defined.
#[global] Instance Value_inhabited : Inhabited Value := populate VNull.

(** A row holds one cell for each column of its frame. *)
Abbreviation Row := (list Value).

(** A data frame is a schema and its rows, laid out in partitions; the row
    order of a frame is the order of its partitions, then the order inside
    each one. *)
Record DataFrame : Type := {
  columns : list string;
  partitions : list (list Row)
}.

Definition collect (df : DataFrame) : list Row := concat (partitions df).

Definition count (df : DataFrame) : nat := length (collect df).

(** ** Column resolution

    Spark resolves a column name against a schema with its default,
    case-insensitive resolver; no match and several matches are both
    analysis errors. *)

Definition lower_ascii (c : ascii) : ascii :=
  let n := nat_of_ascii c in
  if ((65 <=? n)%nat && (n <=? 90)%nat)%bool then ascii_of_nat (n + 32) else c.

Fixpoint lower (s : string) : string :=
  match s with
  | EmptyString => EmptyString
  | String c s' => String (lower_ascii c) (lower s')
  end.

Definition resolver (a b : string) : bool := String.eqb (lower a) (lower b).

Fixpoint matches_from (i : nat) (schema : list string) (name : string) : list nat :=
  match schema with
  | [] => []
  | n :: schema' =>
      if resolver n name then i :: matches_from (S i) schema' name
      else matches_from (S i) schema' name
  end.

Definition matches : list string → string → list nat := matches_from 0.

Definition resolve (schema : list string) (name : string) : result nat :=
  match matches schema name with
  | [] => Err (AnalysisException ("cannot resolve " +:+ name))
  | [i] => Ok i
  | _ => Err (AnalysisException ("ambiguous reference " +:+ name))
  end.

(** The cell of a row at a position; a short row reads as null. *)
Definition cell (r : Row) (i : nat) : Value := default VNull (r !! i).

(** A [Column] is an unresolved expression: given the schema it is analysed
    against, it yields the name of the output column and the function that
    evaluates it on a row. *)
Record BoundColumn : Type := { bc_name : string; bc_eval : Row → Value }.

Definition Column : Type := list string → result BoundColumn.

(** [col(name)]: the output keeps the name as the schema spells it. *)
Definition col (name : string) : Column := λ schema,
  let* i := resolve schema name in
  Ok {| bc_name := default name (schema !! i); bc_eval := λ r, cell r i |}.

(** [c.alias(name)] *)
Definition alias (c : Column) (name : string) : Column := λ schema,
  let* b := c schema in
  Ok {| bc_name := name; bc_eval := bc_eval b |}.

(** SQL equality: null when either side is null.  Strings compare by their
    bytes, longs by value, doubles by [SFeqb]; a long and a double compare
    after the long is converted. *)
Definition sql_eq (a b : Value) : option bool :=
  match a, b with
  | VNull, _ | _, VNull => None
  | VString s, VString t => Some (String.eqb s t)
  | VLong x, VLong y => Some (x =? y)
  | VDouble f, VDouble g => Some (SFeqb f g)
  | VLong x, VDouble g => Some (SFeqb (binary_normalize 53 1024 x 0 false) g)
  | VDouble f, VLong y => Some (SFeqb f (binary_normalize 53 1024 y 0 false))
  | _, _ => Some false
  end.

Module DF.

(** [df.name]: PySpark first checks the name against [df.columns] as it is
    spelled, then lets Spark resolve it.  The result is the position of the
    attribute in the rows of [df]. *)
Definition attr (df : DataFrame) (name : string) : result nat :=
  if decide (name ∈ columns df) then resolve (columns df) name
  else Err (AttributeError name).

(** [df.select(cols...)] *)
Definition select (df : DataFrame) (cols : list Column) : result DataFrame :=
  let* bs := traverse (λ c : Column, c (columns df)) cols in
  Ok {| columns := bc_name <$> bs;
        partitions := map (map (λ r, (λ b, bc_eval b r) <$> bs)) (partitions df) |}.

(** [df[name1, name2, ...]] is [df.select(name1, name2, ...)]. *)
Definition getitem (df : DataFrame) (names : list string) : result DataFrame :=
  select df (col <$> names).

(** [df.filter(condition)]: a row stays when the condition is true, and
    goes when it is false or null. *)
Definition filter (df : DataFrame) (condition : Row → option bool) : DataFrame :=
  {| columns := columns df;
     partitions := map (List.filter (λ r, bool_decide (condition r = Some true)))
                       (partitions df) |}.

(** The first row of each key, in order of first occurrence. *)
Fixpoint first_of_each {K} `{EqDecision K} (key : Row → K) (seen : list K)
    (rows : list Row) : list Row :=
  match rows with
  | [] => []
  | r :: rows' =>
      if decide (key r ∈ seen) then first_of_each key seen rows'
      else r :: first_of_each key (key r :: seen) rows'
  end.

(** The positions a [dropDuplicates] subset denotes: every column whose
    name matches; a name that matches none is an analysis error. *)
Definition subset_positions (schema : list string) (subset : list string)
    : result (list nat) :=
  (λ pss, concat pss) <$> traverse (λ name,
    match matches schema name with
    | [] => Err (AnalysisException ("Cannot resolve column name " +:+ name))
    | ps => Ok ps
    end) subset.

(** [df.dropDuplicates(subset)]: one row is kept for each value of the
    subset columns.  Which one the engine keeps depends on the physical
    plan; the model keeps the first in row order, in one partition. *)
Definition dropDuplicates (df : DataFrame) (subset : list string) : result DataFrame :=
  let* ps := subset_positions (columns df) subset in
  Ok {| columns := columns df;
        partitions := [first_of_each (λ r, cell r <$> ps) [] (collect df)] |}.

(** [df.join(other, on)]: the inner join, streamed along the partitions
    of [df]; the schema is that of [df] followed by that of [other]. *)
Definition join (df other : DataFrame) (on : Row → Row → option bool) : DataFrame :=
  {| columns := columns df ++ columns other;
     partitions :=
       map (λ part, flat_map (λ r,
              flat_map (λ s, if bool_decide (on r s = Some true) then [r ++ s] else [])
                       (collect other)) part)
           (partitions df) |}.

(** The new row of [withColumn]: the value replaces every column whose
    name matches, or is appended when none does. *)
Definition with_value (schema : list string) (colName : string) (v : Value) (r : Row)
    : Row :=
  if existsb (λ n, resolver n colName) schema
  then zip_with (λ n x, if resolver n colName then v else x) schema r
  else r ++ [v].

Definition with_name (schema : list string) (colName : string) : list string :=
  if existsb (λ n, resolver n colName) schema
  then (λ n, if resolver n colName then colName else n) <$> schema
  else schema ++ [colName].

(** Traversal of a list with the position of each element. *)
Fixpoint traverse_from {A B} (f : nat → A → result B) (i : nat) (l : list A)
    : result (list B) :=
  match l with
  | [] => Ok []
  | x :: l' =>
      let* y := f i x in
      let* ys := traverse_from f (S i) l' in
      Ok (y :: ys)
  end.

(** [df.withColumn(colName, c)].  The column is computed row by row; it
    may raise (a udf), and it may depend on where the row lies: the index
    of its partition and its position inside it. *)
Definition withColumn (df : DataFrame) (colName : string)
    (c : nat → nat → Row → result Value) : result DataFrame :=
  let* parts :=
    traverse_from (λ pid, traverse_from (λ i r,
        let* v := c pid i r in Ok (with_value (columns df) colName v r)) 0)
      0 (partitions df) in
  Ok {| columns := with_name (columns df) colName; partitions := parts |}.

End DF.

(** ** Python: [int], [str], true division, [datetime.fromtimestamp]

    Floats are binary64: the operations are those of [SpecFloat] at precision
    53 and maximal exponent 1024. *)

Module Py.

Definition prec : Z := 53.
Definition emax : Z := 1024.

Definition OverflowError : Error := PythonException "OverflowError".
Definition ValueError : Error := PythonException "ValueError".
Definition TypeError : Error := PythonException "TypeError".

(** [float(a)] for an int: the nearest double, ties to even; too large an
    int raises. *)
Definition float_of_int (a : Z) : result spec_float :=
  match binary_normalize prec emax a 0 false with
  | S754_infinity _ => Err OverflowError
  | f => Ok f
  end.

Definition float_1000 : spec_float :=
  Eval vm_compute in binary_normalize prec emax 1000 0 false.
Definition float_1e6 : spec_float :=
  Eval vm_compute in binary_normalize prec emax 1000000 0 false.

(** [a / b] for two ints, [b] positive: the quotient rounded once, to the
    nearest double, ties to even. *)
Definition int_truediv (a : Z) (b : positive) : result spec_float :=
  match a with
  | Z0 => Ok (S754_zero false)
  | Zpos m | Zneg m =>
      match SFdiv prec emax (S754_finite (a <? 0) m 0) (S754_finite false b 0) with
      | S754_infinity _ => Err OverflowError
      | f => Ok f
      end
  end.

(** [int(f)] for a float: towards zero. *)
Definition int_of_float (f : spec_float) : result Z :=
  match f with
  | S754_zero _ => Ok 0
  | S754_finite s m e =>
      Ok (cond_Zopp s (if 0 <=? e then Zpos m * 2 ^ e else Zpos m / 2 ^ (- e)))
  | S754_infinity _ => Err OverflowError
  | S754_nan => Err ValueError
  end.

Definition is_space (c : ascii) : bool :=
  let n := nat_of_ascii c in
  ((9 <=? n) && (n <=? 13) || (28 <=? n) && (n <=? 32))%nat%bool.

Definition digit_of (c : ascii) : option Z :=
  let n := nat_of_ascii c in
  if ((48 <=? n) && (n <=? 57))%nat%bool then Some (Z.of_nat n - 48) else None.

Fixpoint lstrip (s : string) : string :=
  match s with
  | String c s' => if is_space c then lstrip s' else s
  | EmptyString => s
  end.

Fixpoint rstrip (s : string) : string :=
  match s with
  | String c s' =>
      match rstrip s' with
      | EmptyString => if is_space c then EmptyString else String c EmptyString
      | t => String c t
      end
  | EmptyString => s
  end.

(** Decimal digits, where one underscore may stand between two digits. *)
Fixpoint parse_digits (s : string) (acc : Z) (after_digit : bool) : option Z :=
  match s with
  | EmptyString => if after_digit then Some acc else None
  | String c s' =>
      match digit_of c with
      | Some d => parse_digits s' (10 * acc + d) true
      | None =>
          if (Ascii.eqb c "_" && after_digit)%bool
          then match s' with
               | EmptyString => None
               | _ => parse_digits s' acc false
               end
          else None
      end
  end.

(** [int(s)] for a string in base ten: optional blanks, an optional sign,
    digits.  (Digits and blanks outside ASCII, which Python also accepts,
    are not modelled: they raise here.) *)
Definition int_of_str (s : string) : result Z :=
  let s := rstrip (lstrip s) in
  let '(neg, body) :=
    match s with
    | String "-" t => (true, t)
    | String "+" t => (false, t)
    | _ => (false, s)
    end in
  match parse_digits body 0 false with
  | Some z => Ok (cond_Zopp neg z)
  | None => Err ValueError
  end.

(** [int(x)] on the value a udf receives for a cell. *)
Definition int (x : Value) : result Z :=
  match x with
  | VLong z => Ok z
  | VDouble f => int_of_float f
  | VString s => int_of_str s
  | VNull => Err TypeError
  end.

(** [str(z)] for an int. *)
Definition str_int (z : Z) : string := pretty z.

(** The exact value of a float rounded to the nearest integer, ties to
    even. *)
Definition round_half_even (f : spec_float) : Z :=
  match f with
  | S754_finite s m e =>
      if 0 <=? e then cond_Zopp s (Zpos m * 2 ^ e)
      else
        let q := Zpos m / 2 ^ (- e) in
        let r := Zpos m mod 2 ^ (- e) in
        let up := match 2 * r ?= 2 ^ (- e) with
                  | Lt => false
                  | Eq => Z.odd q
                  | Gt => true
                  end in
        cond_Zopp s (if up then q + 1 else q)
  | _ => 0
  end.

(** C's [modf]: the fractional part, a float with the sign of the
    argument, and the integral part. *)
Definition modf (f : spec_float) : spec_float * Z :=
  match f with
  | S754_finite s m e =>
      if 0 <=? e then (S754_zero s, cond_Zopp s (Zpos m * 2 ^ e))
      else (binary_normalize prec emax (cond_Zopp s (Zpos m mod 2 ^ (- e))) e s,
            cond_Zopp s (Zpos m / 2 ^ (- e)))
  | _ => (f, 0)
  end.

(** A float timestamp as whole seconds and microseconds, the microseconds
    rounded half to even (CPython 3.6 and later); the seconds must fit the
    platform's [time_t], 64 bits. *)
Definition timeval (d : spec_float) : result (Z * Z) :=
  match d with
  | S754_nan => Err ValueError
  | S754_infinity _ => Err OverflowError
  | _ =>
      let '(floatpart, intpart) := modf d in
      let floatpart := round_half_even (SFmul prec emax floatpart float_1e6) in
      let '(floatpart, intpart) :=
        if 1000000 <=? floatpart then (floatpart - 1000000, intpart + 1)
        else if floatpart <? 0 then (floatpart + 1000000, intpart - 1)
        else (floatpart, intpart) in
      if ((- 2 ^ 63 <=? intpart) && (intpart <? 2 ^ 63))%bool
      then Ok (intpart, floatpart)
      else Err OverflowError
  end.

(** The proleptic Gregorian date of a day number, day 0 being 1970-01-01. *)
Definition civil_from_days (z : Z) : Z * Z * Z :=
  let z := z + 719468 in
  let era := z / 146097 in
  let doe := z - era * 146097 in
  let yoe := (doe - doe / 1460 + doe / 36524 - doe / 146096) / 365 in
  let doy := doe - (365 * yoe + yoe / 4 - yoe / 100) in
  let mp := (5 * doy + 2) / 153 in
  let d := doy - (153 * mp + 2) / 5 + 1 in
  let m := if mp <? 10 then mp + 3 else mp - 9 in
  (yoe + era * 400 + (if m <=? 2 then 1 else 0), m, d).

Definition days_from_civil (y m d : Z) : Z :=
  let y := if m <=? 2 then y - 1 else y in
  let era := y / 400 in
  let yoe := y - era * 400 in
  let doy := (153 * (if 2 <? m then m - 3 else m + 9) + 2) / 5 + d - 1 in
  let doe := yoe * 365 + yoe / 4 - yoe / 100 + doy in
  era * 146097 + doe - 719468.

Record datetime : Type := {
  year : Z; month : Z; day : Z;
  hour : Z; minute : Z; second : Z; microsecond : Z
}.

Definition MINYEAR : Z := 1.
Definition MAXYEAR : Z := 9999.
Definition max_fold_seconds : Z := 24 * 3600.

Fixpoint zfill_go (n : nat) (s : string) : string :=
  match n with
  | O => s
  | S n' => String "0" (zfill_go n' s)
  end.

(** [s.zfill(width)] for a string of digits. *)
Definition zfill (width : nat) (s : string) : string :=
  zfill_go (width - String.length s) s.

(** [str(dt)] is [dt.isoformat(sep=' ')]: the microseconds are printed
    only when they are not zero. *)
Definition str_datetime (dt : datetime) : string :=
  zfill 4 (pretty (year dt)) +:+ "-" +:+ zfill 2 (pretty (month dt)) +:+ "-" +:+
  zfill 2 (pretty (day dt)) +:+ " " +:+ zfill 2 (pretty (hour dt)) +:+ ":" +:+
  zfill 2 (pretty (minute dt)) +:+ ":" +:+ zfill 2 (pretty (second dt)) +:+
  (if microsecond dt =? 0 then "" else "." +:+ zfill 6 (pretty (microsecond dt))).

Section LocalTime.

(** The platform's time zone: the offset of local time from UTC, in
    seconds, at each instant. *)
Variable utcoffset : Z → Z.

(** C's [localtime], with the year in the range of [datetime]. *)
Definition localtime (t : Z) (us : Z) : result datetime :=
  let t' := t + utcoffset t in
  let '(y, m, d) := civil_from_days (t' / 86400) in
  let s := t' mod 86400 in
  if ((MINYEAR <=? y) && (y <=? MAXYEAR))%bool
  then Ok {| year := y; month := m; day := d;
             hour := s / 3600; minute := s mod 3600 / 60; second := s mod 60;
             microsecond := us |}
  else Err ValueError.

(** [datetime.fromtimestamp(d)]: the naive local time of the instant.
    The two probes that look for a repeated local hour (the fold) leave
    no mark on the printed time, but they raise when they leave the
    range of years. *)
Definition fromtimestamp (d : spec_float) : result datetime :=
  let* tv := timeval d in
  let '(timet, us) := tv in
  let* result := localtime timet us in
  let* probe1 := localtime (timet - max_fold_seconds) us in
  let transition := utcoffset timet - utcoffset (timet - max_fold_seconds) in
  if transition <? 0
  then let* probe2 := localtime (timet + transition) us in Ok result
  else Ok result.

End LocalTime.

End Py.

(** ** pyspark.sql.functions *)

Module F.

Fixpoint digits_value (s : string) (acc : Z) : option Z :=
  match s with
  | EmptyString => Some acc
  | String c s' =>
      match Py.digit_of c with
      | Some d => digits_value s' (10 * acc + d)
      | None => None
      end
  end.

(** The number written by exactly [len] digits at position [pos]. *)
Definition digits_at (s : string) (pos len : nat) : option Z :=
  let t := substring pos len s in
  if (String.length t =? len)%nat then digits_value t 0 else None.

Definition char_at (s : string) (pos : nat) (c : ascii) : bool :=
  match String.get pos s with
  | Some c' => Ascii.eqb c c'
  | None => false
  end.

Definition days_in_month (y m : Z) : Z :=
  if m =? 12 then 31
  else Py.days_from_civil y (m + 1) 1 - Py.days_from_civil y m 1.

(** The cast of a string to a timestamp, for the shape that [str] of a
    Python datetime prints: [YYYY-MM-DD HH:MM:SS], then optionally a dot
    and up to six digits.  Spark reads further shapes; none of them
    reaches the job, whose only date strings are printed by its own udf.
    A string that is not a time casts to null. *)
Definition parse_timestamp (s : string) : option Py.datetime :=
  y ← digits_at s 0 4;
  m ← digits_at s 5 2;
  d ← digits_at s 8 2;
  hh ← digits_at s 11 2;
  mi ← digits_at s 14 2;
  ss ← digits_at s 17 2;
  us ← (if (String.length s =? 19)%nat then Some 0
        else if char_at s 19 "."
             then let t := substring 20 (String.length s - 20) s in
                  if ((1 <=? String.length t) && (String.length t <=? 6))%nat%bool
                  then digits_value (t +:+ Py.zfill_go (6 - String.length t) "") 0
                  else None
             else None);
  if (char_at s 4 "-" && char_at s 7 "-" && char_at s 10 " " &&
      char_at s 13 ":" && char_at s 16 ":" &&
      (1 <=? m) && (m <=? 12) && (1 <=? d) && (d <=? days_in_month y m) &&
      (hh <? 24) && (mi <? 60) && (ss <? 60))%bool
  then Some {| Py.year := y; Py.month := m; Py.day := d; Py.hour := hh;
               Py.minute := mi; Py.second := ss; Py.microsecond := us |}
  else None.

(** The ISO 8601 week of a date: weeks start on Monday, and week 1 is the
    week of the year's first Thursday. *)
Definition iso_week (dt : Py.datetime) : Z :=
  let days := Py.days_from_civil (Py.year dt) (Py.month dt) (Py.day dt) in
  let weekday := (days + 3) mod 7 in
  let thursday := days - weekday + 3 in
  let '(y, _, _) := Py.civil_from_days thursday in
  (thursday - Py.days_from_civil y 1 1) / 7 + 1.

(** A field of the time a cell casts to; null when the cell is not a
    time. *)
Definition part_of (part : Py.datetime → Z) (v : Value) : Value :=
  match v with
  | VString s =>
      match parse_timestamp s with
      | Some dt => VLong (part dt)
      | None => VNull
      end
  | _ => VNull
  end.

Definition date_part (fn : string) (part : Py.datetime → Z) (column : string)
    : Column := λ schema,
  let* b := col column schema in
  Ok {| bc_name := fn +:+ "(" +:+ bc_name b +:+ ")";
        bc_eval := λ r, part_of part (bc_eval b r) |}.

Definition year : string → Column := date_part "year" Py.year.
Definition month : string → Column := date_part "month" Py.month.
Definition dayofmonth : string → Column := date_part "dayofmonth" Py.day.
Definition hour : string → Column := date_part "hour" Py.hour.
Definition weekofyear : string → Column := date_part "weekofyear" iso_week.

(** A Java [long]: 64 bits, two's complement. *)
Definition to_long (z : Z) : Z := (z + 2 ^ 63) mod 2 ^ 64 - 2 ^ 63.

(** [monotonically_increasing_id()]: the index of the partition in the
    upper 31 bits, the position of the row inside its partition in the
    lower 33 bits. *)
Definition monotonically_increasing_id : nat → nat → Row → result Value :=
  λ partitionIndex count _,
    let partitionMask := to_long (Z.shiftl (Z.of_nat partitionIndex) 33) in
    Ok (VLong (to_long (partitionMask + Z.of_nat count))).

(** [udf(f)(column)]: the Python function applied to the cell of each row,
    the result a string column. *)
Definition udf (f : Value → result Value) (column : nat)
    : nat → nat → Row → result Value :=
  λ _ _ r, f (cell r column).

(** [column == 'literal']: a cell that is not a string yields false or
    null, since the literal casts to null at any other type. *)
Definition eq_lit (column : nat) (lit : string) : Row → option bool :=
  λ r, match cell r column with
       | VString s => Some (String.eqb s lit)
       | VNull => None
       | _ => None
       end.

End F.

(** ** The world the job runs in

    The local files, the process environment and the object store, with the
    history of the actions the process has taken on them. *)

(** A data set under a path of the object store: its rows and the columns
    its directories are split by. *)
Record Table : Type := {
  partition_cols : list string;
  data : DataFrame
}.

(** The content of a configuration file as [configparser] reads it: the
    options of the [DEFAULT] section and of each other section, the option
    names in lower case (the parser's [optionxform]) and the values as [get]
    returns them; or a file the parser rejects. *)
Inductive ConfigFile : Type :=
| Malformed
| Parsed (defaults : gmap string string) (sections : gmap string (gmap string string)).

Inductive Action : Type :=
| ReadConfig (file : string)
| SetEnv (key value : string)
| GetOrCreateSession (package : string)
| ReadJson (path : string)
| WriteParquet (path : string) (t : Table).

Record World : Type := {
  files : gmap string ConfigFile;
  environ : gmap string string;
  storage : gmap string Table;
  trace : list Action   (* oldest action first *)
}.

Definition record (a : Action) (w : World) : World :=
  {| files := files w; environ := environ w; storage := storage w;
     trace := trace w ++ [a] |}.

(** A computation of the process: it changes the world and returns, or
    raises and leaves the world as it was when it raised. *)
Definition Job (A : Type) : Type := World → World * result A.

Definition ret {A} (a : A) : Job A := λ w, (w, Ok a).

Definition raise {A} (e : Error) : Job A := λ w, (w, Err e).

Definition lift {A} (m : result A) : Job A := λ w, (w, m).

Definition and_then {A B} (m : Job A) (k : A → Job B) : Job B := λ w,
  match m w with
  | (w', Ok a) => k a w'
  | (w', Err e) => (w', Err e)
  end.

Notation "'let!' x ':=' m 'in' k" := (and_then m (λ x, k))
  (at level 10, x name, m at level 100, k at level 200,
   format "'[v' 'let!'  x  ':='  m  'in' '/' k ']'").

Notation "m ';;' k" := (and_then m (λ _, k))
  (at level 100, k at level 200, right associativity).

(** *** configparser *)

Module configparser.

Record ConfigParser : Type := {
  _defaults : gmap string string;
  _sections : gmap string (gmap string string)
}.

Definition default_section : string := "DEFAULT".

(** [config.read(file)]: a file that does not exist is skipped. *)
Definition read (file : string) : Job ConfigParser := λ w,
  let w' := record (ReadConfig file) w in
  match files w !! file with
  | None => (w', Ok {| _defaults := ∅; _sections := ∅ |})
  | Some Malformed => (w', Err (ParsingError file))
  | Some (Parsed d s) => (w', Ok {| _defaults := d; _sections := s |})
  end.

Definition has_section (config : ConfigParser) (section : string) : bool :=
  bool_decide (is_Some (_sections config !! section)).

(** [config.has_option(section, option)]: the options of [DEFAULT] belong
    to every section. *)
Definition has_option (config : ConfigParser) (section option : string) : bool :=
  if decide (section = default_section)
  then bool_decide (is_Some (_defaults config !! lower option))
  else match _sections config !! section with
       | None => false
       | Some opts =>
           bool_decide (is_Some (opts !! lower option)) ||
           bool_decide (is_Some (_defaults config !! lower option))
       end.

(** [config[section][option]] *)
Definition getitem (config : ConfigParser) (section option : string) : result string :=
  if negb (bool_decide (section = default_section)) && negb (has_section config section)
  then Err (KeyError section)
  else if negb (has_option config section option)
  then Err (KeyError option)
  else
    match default ∅ (_sections config !! section) !! lower option with
    | Some v => Ok v
    | None =>
        match _defaults config !! lower option with
        | Some v => Ok v
        | None => Err (KeyError option)
        end
    end.

End configparser.

(** *** os *)

Module os.

(** [os.environ[key] = value] *)
Definition setenv (key value : string) : Job unit := λ w,
  ({| files := files w; environ := <[key := value]> (environ w);
      storage := storage w; trace := trace w ++ [SetEnv key value] |}, Ok tt).

Definition ends_with_slash (s : string) : bool :=
  match String.get (String.length s - 1) s with
  | Some c => Ascii.eqb c "/"
  | None => false
  end.

(** [os.path.join(a, b)] *)
Definition path_join (a b : string) : string :=
  if F.char_at b 0 "/" then b
  else if (String.eqb a "" || ends_with_slash a)%bool then a +:+ b
  else a +:+ "/" +:+ b.

End os.

(** *** The Spark session: reading and writing *)

Inductive SaveMode : Type := Append | Overwrite | ErrorIfExists | Ignore.

Module spark.

Definition getOrCreate (package : string) : Job unit := λ w,
  (record (GetOrCreateSession package) w, Ok tt).

(** [spark.read.json(path)]: the data set under the path, its schema
    inferred; no file under the path is an analysis error. *)
Definition read_json (path : string) : Job DataFrame := λ w,
  match storage w !! path with
  | Some t => (record (ReadJson path) w, Ok (data t))
  | None => (record (ReadJson path) w,
             Err (AnalysisException ("Path does not exist: " +:+ path)))
  end.

Definition put (path : string) (t : Table) (w : World) : World :=
  {| files := files w; environ := environ w;
     storage := <[path := t]> (storage w);
     trace := trace w ++ [WriteParquet path t] |}.

(** [df.write.partitionBy(cols).parquet(path, mode)].  Every partition
    column must be a column of the frame. *)
Definition write_parquet (df : DataFrame) (partitionBy : list string)
    (path : string) (mode : SaveMode) : Job unit := λ w,
  match traverse (resolve (columns df)) partitionBy with
  | Err e => (w, Err e)
  | Ok _ =>
      let t := {| partition_cols := partitionBy; data := df |} in
      match mode, storage w !! path with
      | Overwrite, _ | _, None => (put path t w, Ok tt)
      | Ignore, Some _ => (w, Ok tt)
      | ErrorIfExists, Some _ =>
          (w, Err (AnalysisException ("path already exists: " +:+ path)))
      | Append, Some old =>
          (put path {| partition_cols := partitionBy;
                       data := {| columns := columns df;
                                  partitions := partitions (data old) ++ partitions df |} |}
               w, Ok tt)
      end
  end.

End spark.

(** ** etl.py *)

Module etl.
Section etl.

(** The time zone of the process, which [datetime.fromtimestamp] reads. *)
Variable utcoffset : Z → Z.

(** Lines 9-13, run when the module is loaded: the credentials go from
  [dl.cfg] to the environment. *)
Definition load_config : Job unit :=
let! config := configparser.read "dl.cfg" in
let! key_id := lift (configparser.getitem config "KEYS" "AWS_ACCESS_KEY_ID") in
os.setenv "AWS_ACCESS_KEY_ID" key_id ;;
let! secret := lift (configparser.getitem config "KEYS" "AWS_SECRET_ACCESS_KEY") in
os.setenv "AWS_SECRET_ACCESS_KEY" secret.

Definition create_spark_session : Job unit :=
spark.getOrCreate "org.apache.hadoop:hadoop-aws:2.7.0".

(** *** process_song_data *)

Definition songs_table (df : DataFrame) : result DataFrame :=
let* t := DF.getitem df ["song_id"; "title"; "artist_id"; "year"; "duration"] in
DF.dropDuplicates t ["song_id"].

Definition artists_table (df : DataFrame) : result DataFrame :=
let* t := DF.getitem df ["artist_id"; "artist_name"; "artist_location";
                         "artist_latitude"; "artist_longitude"] in
DF.dropDuplicates t ["artist_id"].

Definition process_song_data (input_data output_data : string) : Job unit :=
let song_data := input_data +:+ "song_data/A/A/*/*.json" in
let! df := spark.read_json song_data in
let! songs_table := lift (songs_table df) in
spark.write_parquet songs_table ["year"; "artist_id"]
  (os.path_join output_data "songs.parquet") Overwrite ;;
let! artists_table := lift (artists_table df) in
spark.write_parquet artists_table []
  (os.path_join output_data "artists.parquet") Overwrite.

(** *** process_log_data *)

(** Line 72: [df.filter(df.page == 'NextSong')] *)
Definition next_song (df : DataFrame) : result DataFrame :=
let* page := DF.attr df "page" in
Ok (DF.filter df (F.eq_lit page "NextSong")).

Definition users_table (df : DataFrame) : result DataFrame :=
let* t := DF.getitem df ["userId"; "firstName"; "lastName"; "gender"; "level"] in
DF.dropDuplicates t ["userId"].

(** Line 83: [lambda x: str(int(int(x)/1000))] *)
Definition get_timestamp (x : Value) : result Value :=
let* n := Py.int x in
let* q := Py.int_truediv n 1000 in
let* s := Py.int_of_float q in
Ok (VString (Py.str_int s)).

(** Line 87: [lambda x: str(datetime.fromtimestamp(int(x) / 1000.0))] *)
Definition get_datetime (x : Value) : result Value :=
let* n := Py.int x in
let* f := Py.float_of_int n in
let* dt := Py.fromtimestamp utcoffset (SFdiv Py.prec Py.emax f Py.float_1000) in
Ok (VString (Py.str_datetime dt)).

(** Lines 84 and 88.  Spark runs a udf only when a job needs its column,
  so what the udf raises surfaces at the next write; the model raises it
  here, after the same tables have been written. *)
Definition with_timestamp (df : DataFrame) : result DataFrame :=
let* ts := DF.attr df "ts" in
DF.withColumn df "timestamp" (F.udf get_timestamp ts).

Definition with_datetime (df : DataFrame) : result DataFrame :=
let* ts := DF.attr df "ts" in
DF.withColumn df "datetime" (F.udf get_datetime ts).

Definition time_table (df : DataFrame) : result DataFrame :=
let* t := DF.select df [
  alias (col "datetime") "start_time";
  alias (F.hour "datetime") "hour";
  alias (F.dayofmonth "datetime") "day";
  alias (F.weekofyear "datetime") "week";
  alias (F.month "datetime") "month";
  alias (F.year "datetime") "year"
] in
DF.dropDuplicates t ["start_time"].

(** Line 108: [df.join(song_df, song_df.title == df.song)] *)
Definition join_songs (df song_df : DataFrame) : result DataFrame :=
let* title := DF.attr song_df "title" in
let* song := DF.attr df "song" in
Ok (DF.join df song_df (λ l r, sql_eq (cell r title) (cell l song))).

(** Lines 110-121, on the joined frame. *)
Definition songplays_table (df : DataFrame) : result DataFrame :=
let* t := DF.select df [
  alias (col "ts") "ts";
  alias (col "userId") "user_id";
  alias (col "level") "level";
  alias (col "song_id") "song_id";
  alias (col "artist_id") "artist_id";
  alias (col "ssessionId") "session_id";
  alias (col "location") "location";
  alias (col "userAgent") "user_agent";
  alias (col "year") "year";
  alias (F.month "datetime") "month"
] in
DF.withColumn t "songplay_id" F.monotonically_increasing_id.

Definition process_log_data (input_data output_data : string) : Job unit :=
let log_data := input_data +:+ "log_data/*/*/*.json" in
let! df := spark.read_json log_data in
let! df := lift (next_song df) in
let! users_table := lift (users_table df) in
spark.write_parquet users_table []
  (os.path_join output_data "users.parquet") Overwrite ;;
let! df := lift (with_timestamp df) in
let! df := lift (with_datetime df) in
let! time_table := lift (time_table df) in
spark.write_parquet time_table ["year"; "month"]
  (os.path_join output_data "time.parquet") Overwrite ;;
let! song_df := spark.read_json (input_data +:+ "song_data/A/A/*/*.json") in
let! df := lift (join_songs df song_df) in
let! songplays_table := lift (songplays_table df) in
spark.write_parquet songplays_table ["year"; "month"]
  (os.path_join output_data "songplays.parquet") Overwrite.

Definition main : Job unit :=
create_spark_session ;;
let input_data := "s3a://udacity-dend/" in
let output_data := "s3a://gharibudacity/" in
process_song_data input_data output_data ;;
process_log_data input_data output_data.

(** The script run as a program: the module body, then [main()]. *)
Definition script : Job unit := load_config ;; main.

End etl.
End etl.

(** * The vocabulary of the properties

    The tables of the log as functions of the log, the shapes of their rows,
    the sample data, and the replay of the actions of a run. *)

(** A table has at most one row for each value of a key column. *)
Definition unique_key (t : DataFrame) (key : string) : Prop :=
  ∃ i, resolve (columns t) key = Ok i ∧ NoDup ((λ r, cell r i) <$> collect t).

(** The row of the time table for a date time. *)
Definition time_row (dt : Value) : Row :=
  [dt; F.part_of Py.hour dt; F.part_of Py.day dt; F.part_of F.iso_week dt;
   F.part_of Py.month dt; F.part_of Py.year dt].

Definition time_columns : list string :=
  ["start_time"; "hour"; "day"; "week"; "month"; "year"].

(** Every row of a frame has one cell for each column. *)
Definition well_formed (df : DataFrame) : Prop :=
  ∀ r, r ∈ collect df → length r = length (columns df).

(** Lines 72-88: the play events, with the two columns the udfs add. *)
Definition event_frame (utcoffset : Z → Z) (log : DataFrame) : result DataFrame :=
  let* df := etl.next_song log in
  let* df := etl.with_timestamp df in
  etl.with_datetime utcoffset df.

(** Lines 108-121: the join with the songs and the selection of the
    songplays columns. *)
Definition songplays (df song_df : DataFrame) : result DataFrame :=
  let* df := etl.join_songs df song_df in
  etl.songplays_table df.

Module Scenario.

Definition utc : Z → Z := λ _, 0.

(** 269.58 as a double *)
Definition duration : spec_float :=
  Eval vm_compute in
    SFdiv 53 1024 (S754_finite false 26958 0) (S754_finite false 100 0).

(** The one song record. *)
Definition song_df : DataFrame := {|
  columns := ["song_id"; "title"; "artist_id"; "year"; "duration"];
  partitions := [[
    [VString "SOZCTXZ12AB0182364"; VString "Setanta matins";
     VString "AR5KOSW1187FB35FF4"; VLong 0; VDouble duration]
  ]]
|}.

(** The one event. *)
Definition event : Row :=
  [VString "NextSong"; VString "Setanta matins"; VString "10";
   VLong 1541990258796; VString "free"; VLong 582;
   VString "..."; VString "..."].

Definition log_df : DataFrame := {|
  columns := ["page"; "song"; "userId"; "ts"; "level"; "sessionId";
              "location"; "userAgent"];
  partitions := [[event]]
|}.

(** Two songs of one title by two artists, and one event for the title. *)
Definition same_title_df : DataFrame := {|
  columns := ["song_id"; "title"; "artist_id"; "year"; "duration"];
  partitions := [[
    [VString "S1"; VString "Same Title"; VString "A1"; VLong 2001; VDouble duration];
    [VString "S2"; VString "Same Title"; VString "A2"; VLong 2002; VDouble duration]
  ]]
|}.

Definition same_title_log_df : DataFrame := {|
  columns := ["page"; "song"; "userId"; "ts"; "level"; "sessionId";
              "location"; "userAgent"];
  partitions := [[
    [VString "NextSong"; VString "Same Title"; VString "10";
     VLong 1541990258796; VString "free"; VLong 582;
     VString "..."; VString "..."]
  ]]
|}.

End Scenario.

(** The selection as the specification describes it, with the session read
    from the [sessionId] field of the event: the source with the one name
    respelled.  It serves only to show what the slip in the name costs. *)
Definition songplays_table_as_specified (df : DataFrame) : result DataFrame :=
  let* t := DF.select df [
    alias (col "ts") "ts";
    alias (col "userId") "user_id";
    alias (col "level") "level";
    alias (col "song_id") "song_id";
    alias (col "artist_id") "artist_id";
    alias (col "sessionId") "session_id";
    alias (col "location") "location";
    alias (col "userAgent") "user_agent";
    alias (col "year") "year";
    alias (F.month "datetime") "month"
  ] in
  DF.withColumn t "songplay_id" F.monotonically_increasing_id.

(** A list rebuilt element by element, each element with its position. *)
Fixpoint number_from {A B} (g : nat → A → B) (i : nat) (l : list A) : list B :=
  match l with
  | [] => []
  | x :: l' => g i x :: number_from g (S i) l'
  end.

(** The identifier Spark gives the row at a position of a partition. *)
Definition songplay_id_at (pid k : nat) : Z :=
  F.to_long (F.to_long (Z.shiftl (Z.of_nat pid) 33) + Z.of_nat k).

(** The positions the select of the songplays table reads, in the joined
    frame. *)
Record songplays_positions : Type := {
  p_ts : nat; p_userId : nat; p_level : nat; p_song_id : nat; p_artist_id : nat;
  p_ssessionId : nat; p_location : nat; p_userAgent : nat; p_year : nat;
  p_datetime : nat
}.

Definition songplays_row (p : songplays_positions) (pid k : nat) (r : Row) : Row :=
  [cell r (p_ts p); cell r (p_userId p); cell r (p_level p); cell r (p_song_id p);
   cell r (p_artist_id p); cell r (p_ssessionId p); cell r (p_location p);
   cell r (p_userAgent p); cell r (p_year p);
   F.part_of Py.month (cell r (p_datetime p));
   VLong (songplay_id_at pid k)].

Definition songplays_columns : list string :=
  ["ts"; "user_id"; "level"; "song_id"; "artist_id"; "session_id"; "location";
   "user_agent"; "year"; "month"; "songplay_id"].

(** The identifiers of a frame whose partitions have the given sizes, in
    row order, starting at a partition index. *)
Fixpoint ids_of_layout (pid : nat) (sizes : list nat) : list Z :=
  match sizes with
  | [] => []
  | n :: sizes' => (songplay_id_at pid <$> seq 0 n) ++ ids_of_layout (S pid) sizes'
  end.

(** The [songplay_id] column of a songplays table, in row order. *)
Definition songplay_ids (t : DataFrame) : list Value :=
  (λ r, cell r 10) <$> collect t.

Module Witness.

(** A joined frame on which the select of the source succeeds: the log
    side spells its session column [ssessionId].  Two partitions, of two
    rows and of one. *)
Definition joined : DataFrame := {|
  columns := ["page"; "song"; "userId"; "ts"; "level"; "ssessionId"; "location";
              "userAgent"; "timestamp"; "datetime";
              "song_id"; "title"; "artist_id"; "year"; "duration"];
  partitions := [
    [ [VString "NextSong"; VString "Same Title"; VString "10";
       VLong 1541990258796; VString "free"; VLong 582; VString "..."; VString "...";
       VString "1541990258"; VString "2018-11-12 02:37:38.796000";
       VString "S1"; VString "Same Title"; VString "A1"; VLong 2001;
       VDouble Scenario.duration];
      [VString "NextSong"; VString "Same Title"; VString "10";
       VLong 1541990258796; VString "free"; VLong 582; VString "..."; VString "...";
       VString "1541990258"; VString "2018-11-12 02:37:38.796000";
       VString "S2"; VString "Same Title"; VString "A2"; VLong 2002;
       VDouble Scenario.duration] ];
    [ [VString "NextSong"; VString "Setanta matins"; VString "10";
       VLong 1541990258796; VString "free"; VLong 582; VString "..."; VString "...";
       VString "1541990258"; VString "2018-11-12 02:37:38.796000";
       VString "SOZCTXZ12AB0182364"; VString "Setanta matins";
       VString "AR5KOSW1187FB35FF4"; VLong 0; VDouble Scenario.duration] ]
  ]
|}.

Definition table : DataFrame :=
  Eval vm_compute in
    match etl.songplays_table joined with
    | Ok t => t
    | Err _ => {| columns := []; partitions := [] |}
    end.

End Witness.

(** Lines 72-76 *)
Definition users_of (log : DataFrame) : result DataFrame :=
  let* df := etl.next_song log in
  etl.users_table df.

(** Lines 72-98 *)
Definition time_of (utcoffset : Z → Z) (log : DataFrame) : result DataFrame :=
  let* df := event_frame utcoffset log in
  etl.time_table df.

(** Lines 72-121 *)
Definition songplays_of (utcoffset : Z → Z) (log song_df : DataFrame)
    : result DataFrame :=
  let* df := event_frame utcoffset log in
  songplays df song_df.

(** The ten names of the select resolve to the positions [p]. *)
Definition positions_in (cols : list string) (p : songplays_positions) : Prop :=
  resolve cols "ts" = Ok (p_ts p) ∧
  resolve cols "userId" = Ok (p_userId p) ∧
  resolve cols "level" = Ok (p_level p) ∧
  resolve cols "song_id" = Ok (p_song_id p) ∧
  resolve cols "artist_id" = Ok (p_artist_id p) ∧
  resolve cols "ssessionId" = Ok (p_ssessionId p) ∧
  resolve cols "location" = Ok (p_location p) ∧
  resolve cols "userAgent" = Ok (p_userAgent p) ∧
  resolve cols "year" = Ok (p_year p) ∧
  resolve cols "datetime" = Ok (p_datetime p).

(** A check of well-formedness that computes. *)
Definition well_formed_check (df : DataFrame) : bool :=
  forallb (λ r, (length r =? length (columns df))%nat) (collect df).


Module Sample.

(** A log whose session column is spelled [ssessionId]: one play of a song
    and one visit of the home page. *)
Definition play : Row :=
  [VString "NextSong"; VString "Same Title"; VString "10"; VString "Sylvie";
   VString "Cruz"; VString "F"; VLong 1541990258796; VString "free"; VLong 582;
   VString "..."; VString "..."].

Definition visit : Row :=
  [VString "Home"; VNull; VString "11"; VString "Ryan"; VString "Smith";
   VString "M"; VLong 1541990264796; VString "free"; VLong 583;
   VString "..."; VString "..."].

Definition log_df : DataFrame := {|
  columns := ["page"; "song"; "userId"; "firstName"; "lastName"; "gender";
              "ts"; "level"; "ssessionId"; "location"; "userAgent"];
  partitions := [[play; visit]]
|}.

(** The time table of either run of the event of the specification. *)
Definition time_table : DataFrame := {|
  columns := time_columns;
  partitions := [[time_row (VString "2018-11-12 02:37:38.796000")]]
|}.

Definition songplays_table : DataFrame :=
  Eval vm_compute in
    match songplays_of Scenario.utc log_df Scenario.same_title_df with
    | Ok t => t
    | Err _ => {| columns := []; partitions := [] |}
    end.

End Sample.

(** The table holds a row of this start time. *)
Definition start_time_in (t : DataFrame) (s : Value) : Prop :=
  ∃ r, r ∈ collect t ∧ cell r 0 = s ∧ r = time_row s.

Definition users_names : list string :=
  ["userId"; "firstName"; "lastName"; "gender"; "level"].

(** The users, time and songplays tables are made of play events only:
    they are the same whether or not the other rows are taken out of the
    log beforehand, and every row of theirs comes from a row of the log
    whose page is NextSong. *)
Definition only_play_events (utcoffset : Z → Z) (log song_df : DataFrame) : Prop :=
  (∀ kept, etl.next_song log = Ok kept →
     users_of kept = users_of log ∧
     time_of utcoffset kept = time_of utcoffset log ∧
     songplays_of utcoffset kept song_df = songplays_of utcoffset log song_df) ∧
  (∀ u, users_of log = Ok u →
     ∃ page ps,
       DF.attr log "page" = Ok page ∧
       Forall2 (λ name i, resolve (columns log) name = Ok i) users_names ps ∧
       ∀ r, r ∈ collect u →
         ∃ e, e ∈ collect log ∧ cell e page = VString "NextSong" ∧
              r = cell e <$> ps) ∧
  (∀ t, time_of utcoffset log = Ok t →
     ∃ page ts,
       DF.attr log "page" = Ok page ∧ DF.attr log "ts" = Ok ts ∧
       ∀ r, r ∈ collect t →
         ∃ e, e ∈ collect log ∧ cell e page = VString "NextSong" ∧
              etl.get_datetime utcoffset (cell e ts) = Ok (cell r 0) ∧
              r = time_row (cell r 0)) ∧
  (∀ sp, songplays_of utcoffset log song_df = Ok sp →
     ∃ page ts,
       DF.attr log "page" = Ok page ∧ DF.attr log "ts" = Ok ts ∧
       ∀ r, r ∈ collect sp →
         ∃ e dt, e ∈ collect log ∧ cell e page = VString "NextSong" ∧
                 etl.get_datetime utcoffset (cell e ts) = Ok dt ∧
                 cell r 0 = cell e ts ∧ cell r 9 = F.part_of Py.month dt).

(** What an action does to the world. *)
Definition do_action (a : Action) (w : World) : World :=
  {| files := files w;
     environ := match a with
                | SetEnv key value => <[key := value]> (environ w)
                | _ => environ w
                end;
     storage := match a with
                | WriteParquet path t => <[path := t]> (storage w)
                | _ => storage w
                end;
     trace := trace w ++ [a] |}.

Definition run (acts : list Action) (w : World) : World :=
  foldl (λ w a, do_action a w) w acts.

(** The table an action list leaves under a path, if it writes there. *)
Fixpoint last_write (path : string) (acts : list Action) : option Table :=
  match acts with
  | [] => None
  | a :: acts' =>
      match last_write path acts' with
      | Some t => Some t
      | None =>
          match a with
          | WriteParquet p t => if decide (p = path) then Some t else None
          | _ => None
          end
      end
  end.

Definition song_data_path : string := "s3a://udacity-dend/song_data/A/A/*/*.json".
Definition log_data_path : string := "s3a://udacity-dend/log_data/*/*/*.json".

Definition same_inputs (w wa : World) : Prop :=
  files w = files wa ∧
  storage w !! song_data_path = storage wa !! song_data_path ∧
  storage w !! log_data_path = storage wa !! log_data_path.

(** A job is determined by its inputs when, from two worlds that agree on
    them, it takes the same actions and returns the same result; [P] is a
    property of every action it takes, [Q] of the value it returns. *)
Definition Det {A} (P : Action → Prop) (Q : A → Prop) (m : Job A) : Prop :=
  ∀ w wa, same_inputs w wa →
    ∃ acts, (m w).1 = run acts w ∧ (m wa).1 = run acts wa ∧
            (m w).2 = (m wa).2 ∧ Forall P acts ∧
            ∀ a, (m w).2 = Ok a → Q a.

Definition songs_path : string := "s3a://gharibudacity/songs.parquet".
Definition artists_path : string := "s3a://gharibudacity/artists.parquet".
Definition users_path : string := "s3a://gharibudacity/users.parquet".
Definition time_path : string := "s3a://gharibudacity/time.parquet".
Definition songplays_path : string := "s3a://gharibudacity/songplays.parquet".

(** The actions [main] can take: the session, the reads of the two data
    sets, and the writes of the five tables, each table computed from the
    data that was read. *)
Inductive main_action (utcoffset : Z → Z) : Action → Prop :=
| act_session :
    main_action utcoffset (GetOrCreateSession "org.apache.hadoop:hadoop-aws:2.7.0")
| act_read_songs : main_action utcoffset (ReadJson song_data_path)
| act_read_log : main_action utcoffset (ReadJson log_data_path)
| act_write_songs (df t : DataFrame) :
    etl.songs_table df = Ok t →
    main_action utcoffset
      (WriteParquet songs_path {| partition_cols := ["year"; "artist_id"]; data := t |})
| act_write_artists (df t : DataFrame) :
    etl.artists_table df = Ok t →
    main_action utcoffset
      (WriteParquet artists_path {| partition_cols := []; data := t |})
| act_write_users (log t : DataFrame) :
    users_of log = Ok t →
    main_action utcoffset
      (WriteParquet users_path {| partition_cols := []; data := t |})
| act_write_time (log t : DataFrame) :
    time_of utcoffset log = Ok t →
    main_action utcoffset
      (WriteParquet time_path {| partition_cols := ["year"; "month"]; data := t |})
| act_write_songplays (log song_df t : DataFrame) :
    songplays_of utcoffset log song_df = Ok t →
    main_action utcoffset
      (WriteParquet songplays_path
         {| partition_cols := ["year"; "month"]; data := t |}).

(** The actions a job takes from a world: what it adds to the history. *)
Definition actions_of {A} (m : Job A) (w : World) : list Action :=
  drop (length (trace w)) (trace (m w).1).

Module Store.

(** Song data with a repeated song and a repeated artist. *)
Definition song_df : DataFrame := {|
  columns := ["artist_id"; "artist_latitude"; "artist_location"; "artist_longitude";
              "artist_name"; "duration"; "num_songs"; "song_id"; "title"; "year"];
  partitions := [
    [ [VString "A1"; VNull; VString "Dublin"; VNull; VString "First";
       VDouble Scenario.duration; VLong 1; VString "S1"; VString "Same Title";
       VLong 2001];
      [VString "A2"; VNull; VString "Cork"; VNull; VString "Second";
       VDouble Scenario.duration; VLong 1; VString "S2"; VString "Same Title";
       VLong 2002] ];
    [ [VString "A1"; VNull; VString "Dublin"; VNull; VString "First";
       VDouble Scenario.duration; VLong 1; VString "S1"; VString "Same Title";
       VLong 2001];
      [VString "A1"; VNull; VString "Dublin"; VNull; VString "First";
       VDouble Scenario.duration; VLong 1; VString "S3"; VString "Setanta matins";
       VLong 0] ]
  ]
|}.

(** A world with the two data sets and a configuration file. *)
Definition world : World := {|
  files := {[ "dl.cfg" :=
    Parsed ∅ {[ "KEYS" := {[ "aws_access_key_id" := "AKIAEXAMPLE";
                             "aws_secret_access_key" := "secret" ]} ]} ]};
  environ := ∅;
  storage := {[ song_data_path := {| partition_cols := []; data := song_df |};
                log_data_path := {| partition_cols := []; data := Sample.log_df |} ]};
  trace := []
|}.

Definition songs_written : Table := {|
  partition_cols := ["year"; "artist_id"];
  data := {| columns := ["song_id"; "title"; "artist_id"; "year"; "duration"];
             partitions := [[
               [VString "S1"; VString "Same Title"; VString "A1"; VLong 2001;
                VDouble Scenario.duration];
               [VString "S2"; VString "Same Title"; VString "A2"; VLong 2002;
                VDouble Scenario.duration];
               [VString "S3"; VString "Setanta matins"; VString "A1"; VLong 0;
                VDouble Scenario.duration]
             ]] |}
|}.

End Store.

Inductive script_action (utcoffset : Z → Z) : Action → Prop :=
| act_read_config : script_action utcoffset (ReadConfig "dl.cfg")
| act_set_key_id (value : string) :
    script_action utcoffset (SetEnv "AWS_ACCESS_KEY_ID" value)
| act_set_secret (value : string) :
    script_action utcoffset (SetEnv "AWS_SECRET_ACCESS_KEY" value)
| act_main (a : Action) : main_action utcoffset a → script_action utcoffset a.

(** The file supplies an option under its [KEYS] section, in the sense of
    [configparser]: the section exists and [has_option] holds, which counts
    the options of [DEFAULT] as options of every section. *)
Definition supplies (w : World) (name : string) : Prop :=
  ∃ d s, files w !! "dl.cfg" = Some (Parsed d s) ∧
         configparser.has_option
           {| configparser._defaults := d; configparser._sections := s |}
           "KEYS" name = true.

(** The value the file gives an option of [KEYS]. *)
Definition credential (w : World) (name : string) : option string :=
  match files w !! "dl.cfg" with
  | Some (Parsed d s) =>
      match configparser.getitem
              {| configparser._defaults := d; configparser._sections := s |}
              "KEYS" name with
      | Ok v => Some v
      | Err _ => None
      end
  | _ => None
  end.

(** The start of the script, in terms of what the file supplies. *)
Definition config_contract (utcoffset : Z → Z) (w : World) : Prop :=
  let out := etl.script utcoffset w in
  (* the read of dl.cfg comes first, and it is the only one *)
  (∃ rest, actions_of (etl.script utcoffset) w = ReadConfig "dl.cfg" :: rest ∧
           Forall (λ a, ∀ file, a ≠ ReadConfig file) rest) ∧
  (* without both options the script raises before any Spark action *)
  (¬ (supplies w "AWS_ACCESS_KEY_ID" ∧ supplies w "AWS_SECRET_ACCESS_KEY") →
   (∃ e, out.2 = Err e) ∧ storage out.1 = storage w ∧
   Forall (λ a, ¬ main_action utcoffset a) (actions_of (etl.script utcoffset) w)) ∧
  (* with both, their values are in the environment, set before Spark starts *)
  (supplies w "AWS_ACCESS_KEY_ID" ∧ supplies w "AWS_SECRET_ACCESS_KEY" →
   ∃ key_id secret rest,
     credential w "AWS_ACCESS_KEY_ID" = Some key_id ∧
     credential w "AWS_SECRET_ACCESS_KEY" = Some secret ∧
     actions_of (etl.script utcoffset) w =
       [ReadConfig "dl.cfg"; SetEnv "AWS_ACCESS_KEY_ID" key_id;
        SetEnv "AWS_SECRET_ACCESS_KEY" secret] ++ rest ∧
     Forall (main_action utcoffset) rest ∧
     environ out.1 !! "AWS_ACCESS_KEY_ID" = Some key_id ∧
     environ out.1 !! "AWS_SECRET_ACCESS_KEY" = Some secret).

(** The tail of [binary_round_aux]: the rounded mantissa is brought back to
    53 bits. *)
Definition round_tail (mx e : Z) : spec_float :=
  let '(mrs'', e'') := shr_fexp 53 1024 mx e loc_Exact in
  match shr_m mrs'' with
  | Z0 => S754_zero false
  | Zpos m => if Z.leb e'' (1024 - 53) then S754_finite false m e'' else S754_infinity false
  | _ => S754_nan
  end.

(** ** The course of a run

    What [main] does as a function of the two data sets it finds: the
    actions it takes, in order, and how it ends. *)

Definition table_at (w : World) (path : string) (by_cols : list string)
    (t : DataFrame) : Prop :=
  storage w !! path = Some {| partition_cols := by_cols; data := t |}.

Definition output_paths : list string :=
  [songs_path; artists_path; users_path; time_path; songplays_path].

(** The error of [spark.read.json] on a path that matches no file. *)
Definition missing_path (path : string) : Error :=
  AnalysisException ("Path does not exist: " +:+ path).

Definition write_action (path : string) (by_cols : list string) (t : DataFrame)
    : Action :=
  WriteParquet path {| partition_cols := by_cols; data := t |}.

Definition session_action : Action :=
  GetOrCreateSession "org.apache.hadoop:hadoop-aws:2.7.0".

(** The actions of [process_song_data] and how it ends, given the song
    data it finds. *)
Definition song_stage (song : option Table) : list Action * result unit :=
  match song with
  | None => ([ReadJson song_data_path], Err (missing_path song_data_path))
  | Some song =>
      match etl.songs_table (data song) with
      | Err e => ([ReadJson song_data_path], Err e)
      | Ok songs =>
          match etl.artists_table (data song) with
          | Err e =>
              ([ReadJson song_data_path;
                write_action songs_path ["year"; "artist_id"] songs], Err e)
          | Ok artists =>
              ([ReadJson song_data_path;
                write_action songs_path ["year"; "artist_id"] songs;
                write_action artists_path [] artists], Ok tt)
          end
      end
  end.

(** The same for [process_log_data], given the log and the song data. *)
Definition log_stage (utcoffset : Z → Z) (log song : option Table)
    : list Action * result unit :=
  match log with
  | None => ([ReadJson log_data_path], Err (missing_path log_data_path))
  | Some log =>
      match users_of (data log) with
      | Err e => ([ReadJson log_data_path], Err e)
      | Ok users =>
          match time_of utcoffset (data log) with
          | Err e => ([ReadJson log_data_path; write_action users_path [] users], Err e)
          | Ok time =>
              let acts := [ReadJson log_data_path; write_action users_path [] users;
                           write_action time_path ["year"; "month"] time;
                           ReadJson song_data_path] in
              match song with
              | None => (acts, Err (missing_path song_data_path))
              | Some song =>
                  match songplays_of utcoffset (data log) (data song) with
                  | Err e => (acts, Err e)
                  | Ok sp =>
                      (acts ++ [write_action songplays_path ["year"; "month"] sp], Ok tt)
                  end
              end
          end
      end
  end.

Definition main_plan (utcoffset : Z → Z) (song log : option Table)
    : list Action * result unit :=
  match song_stage song with
  | (acts, Err e) => (session_action :: acts, Err e)
  | (acts, Ok _) =>
      (session_action :: acts ++ (log_stage utcoffset log song).1,
       (log_stage utcoffset log song).2)
  end.

(** The five tables of a run from the world [w], in the store of [w']:
    each computed from the data sets of [w], each under its path, split by
    its partition columns. *)
Definition tables_of_inputs (utcoffset : Z → Z) (w w' : World) : Prop :=
  ∃ song log songs artists users time sp,
    storage w !! song_data_path = Some song ∧
    storage w !! log_data_path = Some log ∧
    etl.songs_table (data song) = Ok songs ∧
    etl.artists_table (data song) = Ok artists ∧
    users_of (data log) = Ok users ∧
    time_of utcoffset (data log) = Ok time ∧
    songplays_of utcoffset (data log) (data song) = Ok sp ∧
    table_at w' songs_path ["year"; "artist_id"] songs ∧
    table_at w' artists_path [] artists ∧
    table_at w' users_path [] users ∧
    table_at w' time_path ["year"; "month"] time ∧
    table_at w' songplays_path ["year"; "month"] sp.

(** A data set, if there is one, has no column of this name. *)
Definition lacks_column (t : option Table) (name : string) : Prop :=
  ∀ t', t = Some t' → matches (columns (data t')) name = [].

Module Standard.

(** The log with its session column spelled [sessionId], as the event
    records have it. *)
Definition log_df : DataFrame := {|
  columns := ["page"; "song"; "userId"; "firstName"; "lastName"; "gender";
              "ts"; "level"; "sessionId"; "location"; "userAgent"];
  partitions := partitions Sample.log_df
|}.

Definition world : World := {|
  files := files Store.world;
  environ := ∅;
  storage := {[ song_data_path := {| partition_cols := []; data := Store.song_df |};
                log_data_path := {| partition_cols := []; data := log_df |} ]};
  trace := []
|}.

(** A log with a play event that carries no [ts]. *)
Definition no_ts_event : Row :=
  [VString "NextSong"; VString "Same Title"; VString "10"; VString "Sylvie";
   VString "Cruz"; VString "F"; VNull; VString "free"; VLong 582;
   VString "..."; VString "..."].

Definition no_ts_log : Table := {|
  partition_cols := [];
  data := {| columns := columns log_df; partitions := [[Sample.play; no_ts_event]] |}
|}.

Definition no_ts_world : World := {|
  files := files Store.world;
  environ := ∅;
  storage := {[ song_data_path := {| partition_cols := []; data := Store.song_df |};
                log_data_path := no_ts_log ]};
  trace := []
|}.

End Standard.

(** The actions of a run of [main] that ends normally. *)
Definition actions_of_success (songs artists users time sp : DataFrame) : list Action :=
  [session_action;
   ReadJson song_data_path;
   write_action songs_path ["year"; "artist_id"] songs;
   write_action artists_path [] artists;
   ReadJson log_data_path;
   write_action users_path [] users;
   write_action time_path ["year"; "month"] time;
   ReadJson song_data_path;
   write_action songplays_path ["year"; "month"] sp].

(** The value [configparser] gives an option of a section: the section's
    own, else that of [DEFAULT]; option names are matched in lower case. *)
Definition option_value (defaults opts : gmap string string) (name : string)
    : option string :=
  match opts !! lower name with
  | Some v => Some v
  | None => defaults !! lower name
  end.

(** How the script ends when [dl.cfg] lacks what line 12 asks for: where
    it stops and with which error.  [stop e]: the read of the file is the
    only action taken, and the script ends in the error [e]. *)
Definition config_outcome (utcoffset : Z → Z) (w : World) : Prop :=
  let stop := λ e, etl.script utcoffset w = (run [ReadConfig "dl.cfg"] w, Err e) in
  match files w !! "dl.cfg" with
  | None => stop (KeyError "KEYS")
  | Some Malformed => ∃ e, stop e
  | Some (Parsed defaults sections) =>
      match sections !! "KEYS" with
      | None => stop (KeyError "KEYS")
      | Some opts =>
          match option_value defaults opts "AWS_ACCESS_KEY_ID" with
          | None => stop (KeyError "AWS_ACCESS_KEY_ID")
          | Some _ => True
          end
      end
  end.

(** What a run leaves alone: the local files, the store outside the five
    output paths, the environment outside the two credentials, and the
    history so far. *)
Definition only_outputs_touched (w w' : World) : Prop :=
  files w' = files w ∧
  (∀ path, path ∉ output_paths → storage w' !! path = storage w !! path) ∧
  (∀ key, key ∉ ["AWS_ACCESS_KEY_ID"; "AWS_SECRET_ACCESS_KEY"] →
     environ w' !! key = environ w !! key) ∧
  trace w `prefix_of` trace w'.

(** ** Tables as projections *)

(** The projection of a row on positions. *)
Definition project (ps : list nat) (e : Row) : Row := cell e <$> ps.

(** [t] holds the rows of [df] cut down to [names], one for each value of
    the first name: every row of [t] is the projection of a row of [df],
    no two rows of [t] share a key, and the key of every row of [df] is
    the key of a row of [t]. *)
Definition one_row_per_key (df t : DataFrame) (names : list string) : Prop :=
  ∃ ps, Forall2 (λ name i, resolve (columns df) name = Ok i) names ps ∧
    NoDup ((λ r, cell r 0) <$> collect t) ∧
    (∀ r, r ∈ collect t → ∃ e, e ∈ collect df ∧ r = project ps e) ∧
    (∀ e, e ∈ collect df → ∃ r, r ∈ collect t ∧ cell r 0 = cell (project ps e) 0).

Definition songs_names : list string :=
  ["song_id"; "title"; "artist_id"; "year"; "duration"].

Definition artists_names : list string :=
  ["artist_id"; "artist_name"; "artist_location"; "artist_latitude"; "artist_longitude"].

(** The columns [process_song_data] reads. *)
Definition catalog_names : list string :=
  ["song_id"; "title"; "artist_id"; "year"; "duration";
   "artist_name"; "artist_location"; "artist_latitude"; "artist_longitude"].

(** A name denotes exactly one column of the frame. *)
Definition has_column (df : DataFrame) (name : string) : Prop :=
  ∃ i, resolve (columns df) name = Ok i.

(** ** Two runs

    What a second run has in common with the first, and what it need not
    have. *)

Module Zones.

(** Five hours west of Greenwich, all year. *)
Definition eastern : Z → Z := λ _, -18000.

End Zones.

(** The paths an action list writes to, in order. *)
Definition written_paths (acts : list Action) : list string :=
  omap (λ a, match a with WriteParquet path _ => Some path | _ => None end) acts.

(** No two rows of the frame have the same key, the first of the names,
    and differ in another of the names. *)
Definition key_determines_row (df : DataFrame) (names : list string) : Prop :=
  ∀ ps, Forall2 (λ name i, resolve (columns df) name = Ok i) names ps →
    ∀ e e', e ∈ collect df → e' ∈ collect df →
      cell (project ps e) 0 = cell (project ps e') 0 → project ps e = project ps e'.

(** [t] has one row for each key of [df], and when the key determines
    the row every table that has one row for each key has the rows of [t]:
    which row of a key is kept, and in which order, makes no difference. *)
Definition rows_fixed (df t : DataFrame) (names : list string) : Prop :=
  one_row_per_key df t names ∧
  (key_determines_row df names →
   ∀ t', one_row_per_key df t' names → collect t' ≡ₚ collect t).

(** A time table of the log, whichever row of a start time is kept and in
    whatever order: no start time twice, every row made of the date time
    of a play event, and the date time of every play event in a row. *)
Definition time_outcome (utcoffset : Z → Z) (log t : DataFrame) : Prop :=
  ∃ page ts,
    DF.attr log "page" = Ok page ∧ DF.attr log "ts" = Ok ts ∧
    NoDup ((λ r, cell r 0) <$> collect t) ∧
    (∀ r, r ∈ collect t →
       ∃ e, e ∈ collect log ∧ cell e page = VString "NextSong" ∧
            etl.get_datetime utcoffset (cell e ts) = Ok (cell r 0) ∧
            r = time_row (cell r 0)) ∧
    (∀ e, e ∈ collect log → cell e page = VString "NextSong" →
       ∃ r, r ∈ collect t ∧ etl.get_datetime utcoffset (cell e ts) = Ok (cell r 0)).

(** The script run twice in one time zone, the second time on the world
    the first run left. *)
Definition rerun_contract (utcoffset : Z → Z) (w : World) : Prop :=
  let first := etl.script utcoffset w in
  let second := etl.script utcoffset first.1 in
  (* the first run leaves its inputs as they were *)
  same_inputs w first.1 ∧
  (* from any world with these inputs, whatever its output paths hold, a
     run takes the actions of the first run and ends as it did, and every
     path it writes then holds the table written there *)
  (∀ wa, same_inputs w wa →
     actions_of (etl.script utcoffset) wa = actions_of (etl.script utcoffset) w ∧
     (etl.script utcoffset wa).2 = first.2 ∧
     ∀ path t, WriteParquet path t ∈ actions_of (etl.script utcoffset) w →
       storage (etl.script utcoffset wa).1 !! path = Some t) ∧
  (* so the second run leaves the store as the first run left it *)
  storage second.1 = storage first.1 ∧ second.2 = first.2 ∧
  (* after a run that ends normally the five tables are those computed
     from the inputs *)
  (first.2 = Ok tt →
   tables_of_inputs utcoffset w first.1 ∧ tables_of_inputs utcoffset w second.1) ∧
  (* the rows of the four keyed tables depend neither on the row of a key
     that is kept nor on the order: those of songs, artists and users when
     no two rows of a key differ, those of the time table always *)
  (∀ song songs artists, storage w !! song_data_path = Some song →
     (etl.songs_table (data song) = Ok songs →
      rows_fixed (data song) songs songs_names) ∧
     (etl.artists_table (data song) = Ok artists →
      rows_fixed (data song) artists artists_names)) ∧
  (∀ log kept users time, storage w !! log_data_path = Some log →
     (etl.next_song (data log) = Ok kept → etl.users_table kept = Ok users →
      rows_fixed kept users users_names) ∧
     (well_formed (data log) → time_of utcoffset (data log) = Ok time →
      time_outcome utcoffset (data log) time ∧
      ∀ t', time_outcome utcoffset (data log) t' → collect t' ≡ₚ collect time)).

Module Conflict.

(** Two events of one user, the second after a change of level. *)
Definition free : Row :=
  [VString "10"; VString "Sylvie"; VString "Cruz"; VString "F"; VString "free"].

Definition paid : Row :=
  [VString "10"; VString "Sylvie"; VString "Cruz"; VString "F"; VString "paid"].

Definition events : DataFrame :=
  {| columns := users_names; partitions := [[free]; [paid]] |}.

(** The users table that keeps the row [r]. *)
Definition kept (r : Row) : DataFrame :=
  {| columns := users_names; partitions := [[r]] |}.

End Conflict.

(** * Properties *)

(** ** The result monad *)

Lemma bind_Ok {A B} (m : result A) (f : A → result B) (b : B) :
  bind m f = Ok b ↔ ∃ a, m = Ok a ∧ f a = Ok b.
Proof.
  destruct m as [a|e]; simpl; split.
  - intros H. exists a. auto.
  - intros (a' & Ha & H). congruence.
  - discriminate.
  - intros (a' & Ha & _). discriminate.
Qed.

(** Splits a successful monadic computation into its successful steps. *)
Ltac inv_Ok H :=
  repeat match type of H with
  | bind _ _ = Ok _ =>
      let a := fresh "a" in
      let Ha := fresh "H" a in
      apply bind_Ok in H as (a & Ha & H)
  | Ok _ = Ok _ => injection H as H
  end.

Lemma traverse_cons {A B} (f : A → result B) (x : A) (l : list A) :
  traverse f (x :: l) =
  let* y := f x in let* ys := traverse f l in Ok (y :: ys).
Proof. reflexivity. Qed.

Lemma traverse_Ok {A B} (f : A → result B) (l : list A) (ys : list B) :
  traverse f l = Ok ys ↔ Forall2 (λ x y, f x = Ok y) l ys.
Proof.
  revert ys. induction l as [|x l IH]; intros ys.
  - split.
    + intros [= <-]. constructor.
    + intros H. inversion H. reflexivity.
  - rewrite traverse_cons. split.
    + intros H. inv_Ok H. subst ys. constructor; [assumption|]. by apply IH.
    + intros H. inversion H as [|? y ? ys' Hy Hys]; subst.
      apply bind_Ok. exists y. split; [assumption|].
      apply bind_Ok. exists ys'. split; [by apply IH | reflexivity].
Qed.

Lemma traverse_from_Ok {A B} (f : nat → A → result B) (i : nat) (l : list A)
    (ys : list B) :
  DF.traverse_from f i l = Ok ys ↔
  length l = length ys ∧
  ∀ k x, l !! k = Some x → ∃ y, ys !! k = Some y ∧ f (i + k)%nat x = Ok y.
Proof.
  revert i ys. induction l as [|x l IH]; intros i ys; simpl.
  - split.
    + intros [= <-]. split; [reflexivity|]. intros k x Hk. discriminate.
    + intros [Hlen _]. destruct ys; [reflexivity | discriminate].
  - split.
    + intros H. inv_Ok H. subst ys. apply IH in Ha0 as [Hlen Hall]. split.
      * simpl. by rewrite Hlen.
      * intros [|k] x' Hk; simpl in *.
        -- injection Hk as <-. exists a. by rewrite Nat.add_0_r.
        -- destruct (Hall k x' Hk) as (y & Hy & Hf). exists y.
           split; [assumption|]. by rewrite <- Nat.add_succ_comm.
    + intros [Hlen Hall]. destruct ys as [|y ys]; [discriminate|].
      destruct (Hall 0%nat x eq_refl) as (y' & [= <-] & Hy).
      rewrite Nat.add_0_r in Hy.
      apply bind_Ok. exists y. split; [assumption|].
      apply bind_Ok. exists ys. split; [|reflexivity].
      apply IH. split; [simpl in Hlen; lia|].
      intros k x' Hk. destruct (Hall (S k) x' Hk) as (y' & Hy' & Hf).
      exists y'. split; [assumption|]. by rewrite Nat.add_succ_comm.
Qed.

(** ** Column resolution *)

Lemma resolver_spec (a b : string) : resolver a b = true ↔ lower a = lower b.
Proof. unfold resolver. apply String.eqb_eq. Qed.

Lemma resolver_false (a b : string) : resolver a b = false ↔ lower a ≠ lower b.
Proof. unfold resolver. apply String.eqb_neq. Qed.

Lemma matches_from_spec (i : nat) (schema : list string) (name : string) (j : nat) :
  j ∈ matches_from i schema name ↔
  (i ≤ j)%nat ∧ ∃ n, schema !! (j - i)%nat = Some n ∧ resolver n name = true.
Proof.
  revert i. induction schema as [|n schema IH]; intros i; simpl.
  - split; [intros H; inversion H | intros (_ & n & Hn & _); discriminate].
  - destruct (resolver n name) eqn:Hn.
    + rewrite elem_of_cons, IH. split.
      * intros [-> | (Hle & n' & Hl & Hr)].
        -- split; [lia|]. exists n. by rewrite Nat.sub_diag.
        -- split; [lia|]. exists n'. split; [|assumption].
           replace (j - i)%nat with (S (j - S i)) by lia. assumption.
      * intros (Hle & n' & Hl & Hr).
        destruct (decide (j = i)) as [->|Hne]; [by left|right].
        split; [lia|]. exists n'. split; [|assumption].
        replace (j - i)%nat with (S (j - S i)) in Hl by lia. assumption.
    + rewrite IH. split.
      * intros (Hle & n' & Hl & Hr). split; [lia|]. exists n'. split; [|assumption].
        replace (j - i)%nat with (S (j - S i)) by lia. assumption.
      * intros (Hle & n' & Hl & Hr).
        destruct (decide (j = i)) as [->|Hne].
        -- rewrite Nat.sub_diag in Hl. simpl in Hl. congruence.
        -- split; [lia|]. exists n'. split; [|assumption].
           replace (j - i)%nat with (S (j - S i)) in Hl by lia. assumption.
Qed.

Lemma matches_spec (schema : list string) (name : string) (j : nat) :
  j ∈ matches schema name ↔ ∃ n, schema !! j = Some n ∧ resolver n name = true.
Proof.
  unfold matches. rewrite matches_from_spec, Nat.sub_0_r. split.
  - intros [_ H]. assumption.
  - intros H. split; [lia | assumption].
Qed.

Lemma resolve_Ok (schema : list string) (name : string) (i : nat) :
  resolve schema name = Ok i ↔ matches schema name = [i].
Proof.
  unfold resolve. destruct (matches schema name) as [|j [|k l]]; split;
    try discriminate; congruence.
Qed.

Lemma resolve_lookup (schema : list string) (name : string) (i : nat) :
  resolve schema name = Ok i →
  ∃ n, schema !! i = Some n ∧ resolver n name = true.
Proof.
  intros H%resolve_Ok. apply matches_spec. rewrite H. by left.
Qed.

(** ** Data frame operations *)

Lemma collect_map (f : Row → Row) (parts : list (list Row)) :
  concat (map (map f) parts) = map f (concat parts).
Proof. by rewrite concat_map. Qed.

Lemma select_Ok (df t : DataFrame) (cols : list Column) :
  DF.select df cols = Ok t →
  ∃ bs, Forall2 (λ (c : Column) b, c (columns df) = Ok b) cols bs ∧
        columns t = bc_name <$> bs ∧
        partitions t = map (map (λ r, (λ b, bc_eval b r) <$> bs)) (partitions df).
Proof.
  unfold DF.select. intros H. inv_Ok H. subst t. exists a.
  split; [by apply traverse_Ok | split; reflexivity].
Qed.

Lemma col_Ok (name : string) (schema : list string) (b : BoundColumn) :
  col name schema = Ok b →
  ∃ i n, resolve schema name = Ok i ∧ schema !! i = Some n ∧
         resolver n name = true ∧ bc_name b = n ∧ bc_eval b = λ r, cell r i.
Proof.
  unfold col. intros H. inv_Ok H. subst b.
  destruct (resolve_lookup _ _ _ Ha) as (n & Hn & Hr).
  exists a, n. simpl. rewrite Hn. auto.
Qed.

Lemma alias_Ok (c : Column) (name : string) (schema : list string) (b : BoundColumn) :
  alias c name schema = Ok b →
  ∃ b', c schema = Ok b' ∧ bc_name b = name ∧ bc_eval b = bc_eval b'.
Proof. unfold alias. intros H. inv_Ok H. subst b. eauto. Qed.

(** An aliased [col]: the position it reads. *)
Lemma alias_col_Ok (name new : string) (schema : list string) (b : BoundColumn) :
  alias (col name) new schema = Ok b →
  ∃ i, resolve schema name = Ok i ∧ bc_name b = new ∧ bc_eval b = λ r, cell r i.
Proof.
  intros (b' & Hb' & Hn & He)%alias_Ok.
  apply col_Ok in Hb' as (i & n & Hi & _ & _ & _ & He').
  exists i. rewrite He, He'. auto.
Qed.

Lemma date_part_Ok (fn : string) (part : Py.datetime → Z) (column : string)
    (schema : list string) (b : BoundColumn) :
  F.date_part fn part column schema = Ok b →
  ∃ i, resolve schema column = Ok i ∧
       bc_eval b = λ r, F.part_of part (cell r i).
Proof.
  unfold F.date_part. intros H. inv_Ok H. subst b. simpl.
  apply col_Ok in Ha as (i & n & Hi & _ & _ & _ & He). exists i.
  split; [assumption|]. by rewrite He.
Qed.

Lemma cols_Ok (schema : list string) (names : list string) (bs : list BoundColumn) :
  Forall2 (λ name b, col name schema = Ok b) names bs →
  ∃ ps, Forall2 (λ name i, resolve schema name = Ok i) names ps ∧
        Forall2 (λ name n, resolver n name = true) names (bc_name <$> bs) ∧
        ∀ r, (λ b, bc_eval b r) <$> bs = cell r <$> ps.
Proof.
  induction 1 as [|name b names bs Hb _ (ps & IH1 & IH2 & IH3)].
  - exists []. repeat split; constructor.
  - apply col_Ok in Hb as (i & n & Hi & Hn & Hr & Hname & Heval).
    exists (i :: ps). split; [by constructor|]. split.
    + simpl. rewrite Hname. by constructor.
    + intros r. simpl. by rewrite Heval, IH3.
Qed.

(** The projection [df[names]]: the positions the names resolve to, and the
    rows cut down to them. *)
Lemma getitem_Ok (df t : DataFrame) (names : list string) :
  DF.getitem df names = Ok t →
  ∃ ps, Forall2 (λ name i, resolve (columns df) name = Ok i) names ps ∧
        Forall2 (λ name n, resolver n name = true) names (columns t) ∧
        partitions t = map (map (λ r, cell r <$> ps)) (partitions df).
Proof.
  unfold DF.getitem. intros (bs & Hbs & Hc & Hp)%select_Ok.
  apply Forall2_fmap_l in Hbs.
  destruct (cols_Ok _ _ _ Hbs) as (ps & H1 & H2 & H3).
  exists ps. rewrite Hc, Hp. split; [assumption|]. split; [assumption|].
  apply map_ext. intros part. apply map_ext. intros r. apply H3.
Qed.

(** *** dropDuplicates *)

Section first_of_each.
Context {K : Type} `{EqDecision K} (key : Row → K).

Lemma first_of_each_subset (seen : list K) (rows : list Row) (r : Row) :
  r ∈ DF.first_of_each key seen rows → r ∈ rows ∧ key r ∉ seen.
Proof.
  revert seen. induction rows as [|x rows IH]; intros seen; simpl.
  - intros H. inversion H.
  - destruct (decide (key x ∈ seen)) as [Hin|Hnin].
    + intros [H1 H2]%IH. split; [by right | assumption].
    + intros [->|H]%elem_of_cons.
      * split; [by left | assumption].
      * apply IH in H as [H1 H2]. split; [by right|].
        intros Hs. apply H2. by right.
Qed.

Lemma first_of_each_NoDup (seen : list K) (rows : list Row) :
  NoDup (key <$> DF.first_of_each key seen rows).
Proof.
  revert seen. induction rows as [|x rows IH]; intros seen; simpl.
  - constructor.
  - destruct (decide (key x ∈ seen)) as [Hin|Hnin]; [apply IH|].
    rewrite fmap_cons. constructor; [|apply IH].
    intros (r & Hk & Hr)%list_elem_of_fmap.
    apply first_of_each_subset in Hr as [_ Hr]. apply Hr. rewrite Hk. by left.
Qed.

(** Every key of the input that is not set aside keeps one row. *)
Lemma first_of_each_complete (seen : list K) (rows : list Row) (r : Row) :
  r ∈ rows → key r ∉ seen →
  ∃ r', r' ∈ DF.first_of_each key seen rows ∧ key r' = key r.
Proof.
  revert seen. induction rows as [|x rows IH]; intros seen; simpl.
  - intros H. inversion H.
  - intros [->|Hr]%elem_of_cons Hnin.
    + destruct (decide (key x ∈ seen)); [contradiction|].
      exists x. split; [by left | reflexivity].
    + destruct (decide (key x ∈ seen)) as [Hx|Hx]; [by apply IH|].
      destruct (decide (key r = key x)) as [Heq|Hne].
      * exists x. split; [by left | by symmetry].
      * destruct (IH (key x :: seen) Hr) as (r' & Hr' & Hk).
        -- intros [?|?]%elem_of_cons; contradiction.
        -- exists r'. split; [by right | assumption].
Qed.
End first_of_each.

Lemma subset_positions_one (schema : list string) (key : string) (i : nat) :
  resolve schema key = Ok i → DF.subset_positions schema [key] = Ok [i].
Proof.
  intros H%resolve_Ok. unfold DF.subset_positions. rewrite traverse_cons.
  rewrite H. reflexivity.
Qed.

(** [dropDuplicates] on one key column that resolves: the schema stays, the
    key is unique, every row kept is a row of the frame, and every key of
    the frame is kept. *)
Lemma dropDuplicates_one (t t' : DataFrame) (key : string) (i : nat) :
  resolve (columns t) key = Ok i →
  DF.dropDuplicates t [key] = Ok t' →
  columns t' = columns t ∧
  NoDup ((λ r, cell r i) <$> collect t') ∧
  (∀ r, r ∈ collect t' → r ∈ collect t) ∧
  (∀ r, r ∈ collect t → ∃ r', r' ∈ collect t' ∧ cell r' i = cell r i).
Proof.
  intros Hi H. unfold DF.dropDuplicates in H.
  rewrite (subset_positions_one _ _ _ Hi) in H.
  apply bind_Ok in H as (ps & [= <-] & [= <-]).
  set (kf := λ r : Row, [cell r i]).
  assert (Hc : collect {| columns := columns t;
                          partitions := [DF.first_of_each kf [] (collect t)] |}
               = DF.first_of_each kf [] (collect t)).
  { unfold collect at 1. simpl. apply app_nil_r. }
  rewrite Hc. split; [reflexivity|]. split; [|split].
  - pose proof (first_of_each_NoDup kf [] (collect t)) as Hnd.
    eapply (NoDup_fmap_1 (λ v, [v])). rewrite <- list_fmap_compose. exact Hnd.
  - intros r Hr. by apply first_of_each_subset in Hr as [Hr _].
  - intros r Hr.
    destruct (first_of_each_complete kf [] (collect t) r Hr)
      as (r' & Hr' & Hk); [intros H; inversion H|].
    exists r'. split; [assumption|]. by injection Hk.
Qed.

Lemma matches_from_congr (i : nat) (names cols : list string) (key : string) :
  Forall2 (λ name n, resolver n name = true) names cols →
  matches_from i cols key = matches_from i names key.
Proof.
  intros H. revert i. induction H as [|name n names cols Hn _ IH]; intros i.
  - reflexivity.
  - simpl. rewrite IH.
    replace (resolver n key) with (resolver name key); [reflexivity|].
    unfold resolver. apply resolver_spec in Hn. by rewrite Hn.
Qed.

(** A projection followed by [dropDuplicates] on one of the projected
    names, the shape of the songs, artists and users tables. *)
Lemma project_dedup_unique (df t : DataFrame) (names : list string) (key : string)
    (i : nat) :
  matches names key = [i] →
  (let* p := DF.getitem df names in DF.dropDuplicates p [key]) = Ok t →
  unique_key t key.
Proof.
  intros Hm H. inv_Ok H. rename a into p.
  destruct (getitem_Ok _ _ _ Ha) as (ps & _ & Hcols & _).
  assert (Hi : resolve (columns p) key = Ok i).
  { apply resolve_Ok. unfold matches. by rewrite (matches_from_congr _ _ _ _ Hcols). }
  destruct (dropDuplicates_one _ _ _ _ Hi H) as (Hc & Hnd & _).
  exists i. split; [by rewrite Hc | assumption].
Qed.

Lemma songs_table_unique (df t : DataFrame) :
  etl.songs_table df = Ok t → unique_key t "song_id".
Proof. by apply (project_dedup_unique _ _ _ _ 0%nat). Qed.

Lemma artists_table_unique (df t : DataFrame) :
  etl.artists_table df = Ok t → unique_key t "artist_id".
Proof. by apply (project_dedup_unique _ _ _ _ 0%nat). Qed.

Lemma users_table_unique (df t : DataFrame) :
  etl.users_table df = Ok t → unique_key t "userId".
Proof. by apply (project_dedup_unique _ _ _ _ 0%nat). Qed.

(** Takes apart the analysis of a literal list of columns. *)
Ltac inv_Forall2 H :=
  repeat match type of H with
  | Forall2 _ (_ :: _) _ =>
      let b := fresh "b" in
      let bs := fresh "bs" in
      let Hb := fresh "H" b in
      apply Forall2_cons_inv_l in H as (b & bs & Hb & H & ->)
  | Forall2 _ [] _ => apply Forall2_nil_inv_l in H as ->
  end.

(** The time table before [dropDuplicates]: its schema, and its rows, each
    made of the [datetime] cell of a row of the frame. *)
Lemma time_select_Ok (df t : DataFrame) :
  DF.select df [
      alias (col "datetime") "start_time";
      alias (F.hour "datetime") "hour";
      alias (F.dayofmonth "datetime") "day";
      alias (F.weekofyear "datetime") "week";
      alias (F.month "datetime") "month";
      alias (F.year "datetime") "year"
    ] = Ok t →
  ∃ i, resolve (columns df) "datetime" = Ok i ∧
       columns t = time_columns ∧
       partitions t = map (map (λ r, time_row (cell r i))) (partitions df).
Proof.
  intros (bs & Hbs & Hc & Hp)%select_Ok. inv_Forall2 Hbs.
  apply alias_col_Ok in Hb as (i & Hi & Hn & He).
  apply alias_Ok in Hb0 as (c0 & (i0 & Hi0 & He0')%date_part_Ok & Hn0 & He0).
  apply alias_Ok in Hb1 as (c1 & (i1 & Hi1 & He1')%date_part_Ok & Hn1 & He1).
  apply alias_Ok in Hb2 as (c2 & (i2 & Hi2 & He2')%date_part_Ok & Hn2 & He2).
  apply alias_Ok in Hb3 as (c3 & (i3 & Hi3 & He3')%date_part_Ok & Hn3 & He3).
  apply alias_Ok in Hb4 as (c4 & (i4 & Hi4 & He4')%date_part_Ok & Hn4 & He4).
  assert (i0 = i) as -> by congruence. assert (i1 = i) as -> by congruence.
  assert (i2 = i) as -> by congruence. assert (i3 = i) as -> by congruence.
  assert (i4 = i) as -> by congruence.
  exists i. split; [assumption|]. split.
  - rewrite Hc. simpl. by rewrite Hn, Hn0, Hn1, Hn2, Hn3, Hn4.
  - rewrite Hp. apply map_ext. intros part. apply map_ext. intros r.
    simpl. unfold time_row.
    by rewrite He, He0, He0', He1, He1', He2, He2', He3, He3', He4, He4'.
Qed.

Lemma time_table_unique (df t : DataFrame) :
  etl.time_table df = Ok t → unique_key t "start_time".
Proof.
  unfold etl.time_table. intros H. inv_Ok H. rename a into p.
  destruct (time_select_Ok _ _ Ha) as (i & _ & Hcols & _).
  assert (Hi : resolve (columns p) "start_time" = Ok 0%nat) by by rewrite Hcols.
  destruct (dropDuplicates_one _ _ _ _ Hi H) as (Hc & Hnd & _).
  exists 0%nat. split; [by rewrite Hc | assumption].
Qed.

(** *** filter, withColumn, join *)

Lemma filter_collect (df : DataFrame) (condition : Row → option bool) (r : Row) :
  r ∈ collect (DF.filter df condition) ↔ r ∈ collect df ∧ condition r = Some true.
Proof.
  unfold collect, DF.filter. simpl. rewrite !list_elem_of_In, !in_concat. split.
  - intros (part & Hp & Hr). apply in_map_iff in Hp as (part' & <- & Hp').
    apply filter_In in Hr as [Hr Hc]. apply bool_decide_eq_true in Hc.
    split; [|assumption]. exists part'. auto.
  - intros [(part & Hp & Hr) Hc].
    exists (List.filter (λ r, bool_decide (condition r = Some true)) part). split.
    + apply in_map_iff. exists part. auto.
    + apply filter_In. split; [assumption|]. by apply bool_decide_eq_true.
Qed.

Lemma next_song_Ok (df t : DataFrame) :
  etl.next_song df = Ok t →
  ∃ page, DF.attr df "page" = Ok page ∧ t = DF.filter df (F.eq_lit page "NextSong").
Proof. unfold etl.next_song. intros H. inv_Ok H. eauto. Qed.

Lemma eq_lit_true (page : nat) (lit : string) (r : Row) :
  F.eq_lit page lit r = Some true ↔ cell r page = VString lit.
Proof.
  unfold F.eq_lit. destruct (cell r page) as [| |f|s]; split; try discriminate.
  - intros [= H]. apply String.eqb_eq in H. by subst.
  - intros [= ->]. by rewrite String.eqb_refl.
Qed.

Lemma withColumn_Ok (df t : DataFrame) (colName : string)
    (c : nat → nat → Row → result Value) :
  DF.withColumn df colName c = Ok t →
  columns t = DF.with_name (columns df) colName ∧
  length (partitions t) = length (partitions df) ∧
  ∀ pid part, partitions df !! pid = Some part →
    ∃ part', partitions t !! pid = Some part' ∧ length part = length part' ∧
      ∀ k r, part !! k = Some r →
        ∃ v, c pid k r = Ok v ∧
             part' !! k = Some (DF.with_value (columns df) colName v r).
Proof.
  unfold DF.withColumn. intros H. inv_Ok H. subst t. simpl.
  apply traverse_from_Ok in Ha as [Hlen Hall].
  split; [reflexivity|]. split; [by symmetry|].
  intros pid part Hpart. destruct (Hall pid part Hpart) as (part' & Hp' & Hf).
  exists part'. split; [assumption|].
  apply traverse_from_Ok in Hf as [Hlen' Hall']. split; [assumption|].
  intros k r Hr. destruct (Hall' k r Hr) as (y & Hy & Hv).
  inv_Ok Hv. subst y. eauto.
Qed.

Lemma elem_of_collect (df : DataFrame) (r : Row) :
  r ∈ collect df ↔
  ∃ pid part k, partitions df !! pid = Some part ∧ part !! k = Some r.
Proof.
  unfold collect. rewrite list_elem_of_In, in_concat. split.
  - intros (part & Hp & Hr).
    apply list_elem_of_In, list_elem_of_lookup in Hp as [pid Hpid].
    apply list_elem_of_In, list_elem_of_lookup in Hr as [k Hk]. eauto.
  - intros (pid & part & k & Hpid & Hk). exists part.
    split; apply list_elem_of_In; eapply list_elem_of_lookup_2; eassumption.
Qed.

(** The rows of [withColumn] are those of the frame, each with its value. *)
Lemma withColumn_collect (df t : DataFrame) (colName : string)
    (c : nat → nat → Row → result Value) (r' : Row) :
  DF.withColumn df colName c = Ok t →
  r' ∈ collect t ↔
  ∃ pid part k r v, partitions df !! pid = Some part ∧ part !! k = Some r ∧
    c pid k r = Ok v ∧ r' = DF.with_value (columns df) colName v r.
Proof.
  intros (_ & Hlen & Hall)%withColumn_Ok. rewrite elem_of_collect. split.
  - intros (pid & part' & k & Hpid & Hk).
    assert (is_Some (partitions df !! pid)) as [part Hpart].
    { apply lookup_lt_is_Some. rewrite <- Hlen. by eapply lookup_lt_Some. }
    destruct (Hall pid part Hpart) as (part'' & Hp'' & Hl & Hrows).
    assert (part'' = part') as -> by congruence.
    assert (is_Some (part !! k)) as [r Hr].
    { apply lookup_lt_is_Some. rewrite Hl. by eapply lookup_lt_Some. }
    destruct (Hrows k r Hr) as (v & Hv & Hk').
    exists pid, part, k, r, v. repeat split; try assumption. congruence.
  - intros (pid & part & k & r & v & Hpart & Hr & Hv & ->).
    destruct (Hall pid part Hpart) as (part' & Hp' & Hl & Hrows).
    destruct (Hrows k r Hr) as (v' & Hv' & Hk').
    exists pid, part', k. split; [assumption|]. congruence.
Qed.

Lemma join_collect (df other : DataFrame) (on : Row → Row → option bool) (r : Row) :
  r ∈ collect (DF.join df other on) ↔
  ∃ l s, l ∈ collect df ∧ s ∈ collect other ∧ on l s = Some true ∧ r = l ++ s.
Proof.
  unfold collect at 1. unfold DF.join. simpl.
  rewrite list_elem_of_In, in_concat. split.
  - intros (part & Hp & Hr). apply in_map_iff in Hp as (part' & <- & Hp').
    apply in_flat_map in Hr as (l & Hl & Hr).
    apply in_flat_map in Hr as (s & Hs & Hr).
    destruct (bool_decide (on l s = Some true)) eqn:Hon; [|inversion Hr].
    apply bool_decide_eq_true in Hon. destruct Hr as [<-|[]].
    exists l, s. repeat split; try assumption.
    + apply list_elem_of_In. apply in_concat. eauto.
    + by apply list_elem_of_In.
  - intros (l & s & Hl & Hs & Hon & ->).
    apply list_elem_of_In, in_concat in Hl as (part & Hp & Hl).
    eexists. split; [apply in_map_iff; exists part; split; [reflexivity|assumption]|].
    apply in_flat_map. exists l. split; [assumption|].
    apply in_flat_map. exists s. split; [by apply list_elem_of_In|].
    rewrite bool_decide_eq_true_2 by assumption. by left.
Qed.

(** ** The data flow of process_log_data *)

Lemma next_song_columns (df t : DataFrame) :
  etl.next_song df = Ok t → columns t = columns df.
Proof. intros (page & _ & ->)%next_song_Ok. reflexivity. Qed.

Lemma with_timestamp_columns (df t : DataFrame) :
  etl.with_timestamp df = Ok t → columns t = DF.with_name (columns df) "timestamp".
Proof.
  unfold etl.with_timestamp. intros H. inv_Ok H. by apply withColumn_Ok in H as [H _].
Qed.

Lemma with_datetime_columns (utcoffset : Z → Z) (df t : DataFrame) :
  etl.with_datetime utcoffset df = Ok t →
  columns t = DF.with_name (columns df) "datetime".
Proof.
  unfold etl.with_datetime. intros H. inv_Ok H. by apply withColumn_Ok in H as [H _].
Qed.

Lemma event_frame_columns (utcoffset : Z → Z) (log df : DataFrame) :
  event_frame utcoffset log = Ok df →
  columns df = DF.with_name (DF.with_name (columns log) "timestamp") "datetime".
Proof.
  unfold event_frame. intros H. inv_Ok H.
  apply with_datetime_columns in H. apply with_timestamp_columns in Ha0.
  apply next_song_columns in Ha. by rewrite H, Ha0, Ha.
Qed.

(** ** The scenarios of the specification *)

(** [C1] The scenario of the specification, one song and one event for its
    title: the select of lines 110-120 names a column [ssessionId], the log
    has [sessionId], so the analysis of the select raises and no songplays
    row is produced, whatever the time zone. *)
Theorem songplays_scenario_raises (utcoffset : Z → Z) (df : DataFrame) :
  event_frame utcoffset Scenario.log_df = Ok df →
  songplays df Scenario.song_df = Err (AnalysisException "cannot resolve ssessionId").
Proof.
  intros H%event_frame_columns. destruct df as [cols parts]. simpl in H.
  subst cols. vm_compute. reflexivity.
Qed.

Lemma songplays_scenario_raises_witness :
  ∃ df, event_frame Scenario.utc Scenario.log_df = Ok df ∧
        songplays df Scenario.song_df =
          Err (AnalysisException "cannot resolve ssessionId").
Proof.
  eexists. split; [vm_compute; reflexivity|].
  apply (songplays_scenario_raises Scenario.utc). vm_compute. reflexivity.
Defined.

(** With the name respelled the scenario yields the one row the
    specification expects: song, user, session 582 and an identifier. *)
Example scenario_as_specified :
  (let* df := event_frame Scenario.utc Scenario.log_df in
   let* j := etl.join_songs df Scenario.song_df in
   songplays_table_as_specified j) =
  Ok {| columns := ["ts"; "user_id"; "level"; "song_id"; "artist_id"; "session_id";
                    "location"; "user_agent"; "year"; "month"; "songplay_id"];
        partitions := [[
          [VLong 1541990258796; VString "10"; VString "free";
           VString "SOZCTXZ12AB0182364"; VString "AR5KOSW1187FB35FF4"; VLong 582;
           VString "..."; VString "..."; VLong 0; VLong 11; VLong 0]
        ]] |}.
Proof. vm_compute. reflexivity. Qed.

(** The select of the source succeeds only on a frame that has a column
    named [ssessionId]. *)
Lemma songplays_table_needs_ssessionId (df t : DataFrame) :
  etl.songplays_table df = Ok t →
  ∃ i, resolve (columns df) "ssessionId" = Ok i.
Proof.
  unfold etl.songplays_table. intros H. inv_Ok H.
  apply select_Ok in Ha as (bs & Hbs & _). inv_Forall2 Hbs.
  apply alias_Ok in Hb4 as (b' & Hb' & _).
  apply col_Ok in Hb' as (i & _ & Hi & _). eauto.
Qed.

(** The join of line 108 does fan out: one event, two songs of its title,
    two joined rows. *)
Example same_title_join_fans_out :
  (let* df := event_frame Scenario.utc Scenario.same_title_log_df in
   let* j := etl.join_songs df Scenario.same_title_df in
   Ok (count j)) = Ok 2%nat.
Proof. vm_compute. reflexivity. Qed.

(** [C4] Two songs of one title, one event for the title: the join of line
    108 yields two rows, but the select that follows raises on the
    misspelled [ssessionId], so the songplays output has no row at all. *)
Theorem same_title_scenario_raises (utcoffset : Z → Z) (df : DataFrame) :
  event_frame utcoffset Scenario.same_title_log_df = Ok df →
  songplays df Scenario.same_title_df =
    Err (AnalysisException "cannot resolve ssessionId").
Proof.
  intros H%event_frame_columns. destruct df as [cols parts]. simpl in H.
  subst cols. vm_compute. reflexivity.
Qed.

Lemma same_title_scenario_raises_witness :
  ∃ df, event_frame Scenario.utc Scenario.same_title_log_df = Ok df ∧
        songplays df Scenario.same_title_df =
          Err (AnalysisException "cannot resolve ssessionId").
Proof.
  eexists. split; [vm_compute; reflexivity|].
  apply (same_title_scenario_raises Scenario.utc). vm_compute. reflexivity.
Defined.

(** ** The songplays table *)

Lemma traverse_from_total {A B} (f : nat → A → result B) (g : nat → A → B)
    (i : nat) (l : list A) :
  (∀ k x, f k x = Ok (g k x)) →
  DF.traverse_from f i l = Ok (number_from g i l).
Proof.
  intros Hf. revert i. induction l as [|x l IH]; intros i; simpl.
  - reflexivity.
  - rewrite Hf, IH. reflexivity.
Qed.

Lemma number_from_map {A B C} (g : nat → B → C) (f : A → B) (i : nat) (l : list A) :
  number_from g i (map f l) = number_from (λ k x, g k (f x)) i l.
Proof. revert i. induction l as [|x l IH]; intros i; simpl; [|rewrite IH]; reflexivity. Qed.

Lemma number_from_ext {A B} (g h : nat → A → B) (i : nat) (l : list A) :
  (∀ k x, g k x = h k x) → number_from g i l = number_from h i l.
Proof.
  intros Hgh. revert i. induction l as [|x l IH]; intros i; simpl;
    [|rewrite Hgh, IH]; reflexivity.
Qed.

(** What lines 110-121 compute when they succeed. *)
Lemma songplays_table_Ok (j t : DataFrame) :
  etl.songplays_table j = Ok t →
  ∃ p, resolve (columns j) "ts" = Ok (p_ts p) ∧
       resolve (columns j) "userId" = Ok (p_userId p) ∧
       resolve (columns j) "level" = Ok (p_level p) ∧
       resolve (columns j) "song_id" = Ok (p_song_id p) ∧
       resolve (columns j) "artist_id" = Ok (p_artist_id p) ∧
       resolve (columns j) "ssessionId" = Ok (p_ssessionId p) ∧
       resolve (columns j) "location" = Ok (p_location p) ∧
       resolve (columns j) "userAgent" = Ok (p_userAgent p) ∧
       resolve (columns j) "year" = Ok (p_year p) ∧
       resolve (columns j) "datetime" = Ok (p_datetime p) ∧
       columns t = songplays_columns ∧
       partitions t =
         number_from (λ pid, number_from (songplays_row p pid) 0) 0 (partitions j).
Proof.
  unfold etl.songplays_table. intros H. inv_Ok H. rename a into s.
  apply select_Ok in Ha as (bs & Hbs & Hc & Hp). inv_Forall2 Hbs.
  apply alias_col_Ok in Hb as (i_ts & Hi_ts & Hn & He).
  apply alias_col_Ok in Hb0 as (i_user & Hi_user & Hn0 & He0).
  apply alias_col_Ok in Hb1 as (i_level & Hi_level & Hn1 & He1).
  apply alias_col_Ok in Hb2 as (i_song & Hi_song & Hn2 & He2).
  apply alias_col_Ok in Hb3 as (i_artist & Hi_artist & Hn3 & He3).
  apply alias_col_Ok in Hb4 as (i_session & Hi_session & Hn4 & He4).
  apply alias_col_Ok in Hb5 as (i_location & Hi_location & Hn5 & He5).
  apply alias_col_Ok in Hb6 as (i_agent & Hi_agent & Hn6 & He6).
  apply alias_col_Ok in Hb7 as (i_year & Hi_year & Hn7 & He7).
  apply alias_Ok in Hb8 as (c8 & Hc8 & Hn8 & He8).
  apply date_part_Ok in Hc8 as (i_dt & Hi_dt & He8').
  simpl in Hc. rewrite Hn, Hn0, Hn1, Hn2, Hn3, Hn4, Hn5, Hn6, Hn7, Hn8 in Hc.
  exists {| p_ts := i_ts; p_userId := i_user; p_level := i_level;
            p_song_id := i_song; p_artist_id := i_artist;
            p_ssessionId := i_session; p_location := i_location;
            p_userAgent := i_agent; p_year := i_year; p_datetime := i_dt |}.
  simpl. repeat (split; [assumption|]).
  unfold DF.withColumn in H. rewrite Hc, Hp in H.
  erewrite traverse_from_total in H; cycle 1.
  { intros pid part. apply traverse_from_total. intros k r. reflexivity. }
  inv_Ok H. subst t. injection Ha as <-. simpl. split; [reflexivity|].
  rewrite number_from_map. apply number_from_ext. intros pid part.
  cbv beta. rewrite number_from_map. apply number_from_ext. intros k r.
  unfold songplays_row, songplay_id_at. simpl.
  by rewrite He, He0, He1, He2, He3, He4, He5, He6, He7, He8, He8'.
Qed.

(** *** The songplay identifiers *)

Lemma songplays_rows_ids (p : songplays_positions) (pid k : nat) (part : list Row) :
  (λ r, cell r 10) <$> number_from (songplays_row p pid) k part =
  VLong <$> (songplay_id_at pid <$> seq k (length part)).
Proof.
  revert k. induction part as [|r part IH]; intros k.
  - reflexivity.
  - cbn [number_from length seq]. rewrite !fmap_cons, IH. reflexivity.
Qed.

Lemma songplays_partitions_ids (p : songplays_positions) (pid : nat)
    (parts : list (list Row)) :
  (λ r, cell r 10) <$>
    concat (number_from (λ pid, number_from (songplays_row p pid) 0) pid parts) =
  VLong <$> ids_of_layout pid (length <$> parts).
Proof.
  revert pid. induction parts as [|part parts IH]; intros pid.
  - reflexivity.
  - cbn [number_from concat ids_of_layout]. rewrite fmap_cons.
    cbn [ids_of_layout]. rewrite !fmap_app, IH, songplays_rows_ids. reflexivity.
Qed.

(** The powers of two the bounds are stated with, as numerals for [lia]. *)
Ltac pow_consts :=
  change (2 ^ 30) with 1073741824 in *;
  change (2 ^ 33) with 8589934592 in *;
  change (2 ^ 63) with 9223372036854775808 in *;
  change (2 ^ 64) with 18446744073709551616 in *.

Lemma to_long_small (z : Z) : - 2 ^ 63 ≤ z < 2 ^ 63 → F.to_long z = z.
Proof. intros H. unfold F.to_long. pow_consts. rewrite Z.mod_small; lia. Qed.

Lemma songplay_id_at_small (pid k : nat) :
  Z.of_nat pid < 2 ^ 30 → Z.of_nat k < 2 ^ 33 →
  songplay_id_at pid k = Z.of_nat pid * 2 ^ 33 + Z.of_nat k.
Proof.
  intros Hp Hk. unfold songplay_id_at.
  rewrite Z.shiftl_mul_pow2 by lia.
  rewrite (to_long_small (Z.of_nat pid * 2 ^ 33)) by (pow_consts; lia).
  rewrite to_long_small by (pow_consts; lia). reflexivity.
Qed.

Lemma ids_of_partition_sorted (pid k n : nat) :
  Z.of_nat pid < 2 ^ 30 → Z.of_nat (k + n) ≤ 2 ^ 33 →
  StronglySorted Z.lt (songplay_id_at pid <$> seq k n) ∧
  Forall (λ x, Z.of_nat pid * 2 ^ 33 + Z.of_nat k ≤ x < (Z.of_nat pid + 1) * 2 ^ 33)
         (songplay_id_at pid <$> seq k n).
Proof.
  intros Hp. revert k. induction n as [|n IH]; intros k Hk.
  - split; constructor.
  - destruct (IH (S k)) as [IHs IHb]; [lia|].
    cbn [seq]. rewrite fmap_cons, songplay_id_at_small by lia.
    pow_consts. split.
    + constructor; [assumption|].
      eapply Forall_impl; [exact IHb|]. simpl. intros x Hx. lia.
    + constructor; [lia|].
      eapply Forall_impl; [exact IHb|]. simpl. intros x Hx. lia.
Qed.

Lemma ids_of_layout_sorted (pid : nat) (sizes : list nat) :
  Z.of_nat pid + Z.of_nat (length sizes) ≤ 2 ^ 30 →
  Forall (λ n, Z.of_nat n ≤ 2 ^ 33) sizes →
  StronglySorted Z.lt (ids_of_layout pid sizes) ∧
  Forall (λ x, Z.of_nat pid * 2 ^ 33 ≤ x) (ids_of_layout pid sizes).
Proof.
  revert pid. induction sizes as [|n sizes IH]; intros pid Hp Hs.
  - split; constructor.
  - apply Forall_cons in Hs as [Hn Hs]. cbn [length] in Hp.
    destruct (IH (S pid)) as [IHs IHb]; [lia | assumption |].
    destruct (ids_of_partition_sorted pid 0 n) as [Hps Hpb]; [lia | lia |].
    cbn [ids_of_layout]. pow_consts. split.
    + apply StronglySorted_app. split; [|split; assumption].
      intros x1 x2 H1 H2.
      rewrite Forall_forall in Hpb, IHb.
      specialize (Hpb x1 H1). specialize (IHb x2 H2). lia.
    + apply Forall_app. split.
      * eapply Forall_impl; [exact Hpb|]. simpl. intros x Hx. lia.
      * eapply Forall_impl; [exact IHb|]. simpl. intros x Hx. lia.
Qed.

Lemma StronglySorted_lt_NoDup (l : list Z) : StronglySorted Z.lt l → NoDup l.
Proof.
  induction 1 as [|x l Hs IH Hx]; constructor; [|assumption].
  intros Hin. rewrite Forall_forall in Hx. specialize (Hx x Hin). lia.
Qed.

(** [C8] The songplay_id values of a songplays table are what
    [monotonically_increasing_id] makes of the layout of the joined frame,
    the sizes of its partitions, and of nothing in its rows; within the
    limits Spark documents for the function (under 2^30 partitions, under
    2^33 rows in each) they increase strictly in row order, so they are
    pairwise distinct. *)
Theorem songplay_ids_increasing (j t : DataFrame) :
  etl.songplays_table j = Ok t →
  Z.of_nat (length (partitions j)) ≤ 2 ^ 30 →
  Forall (λ part : list Row, Z.of_nat (length part) ≤ 2 ^ 33) (partitions j) →
  resolve (columns t) "songplay_id" = Ok 10%nat ∧
  songplay_ids t = VLong <$> ids_of_layout 0 (length <$> partitions j) ∧
  StronglySorted Z.lt (ids_of_layout 0 (length <$> partitions j)) ∧
  NoDup (songplay_ids t).
Proof.
  intros H Hparts Hrows.
  apply songplays_table_Ok in H as (p & _ & _ & _ & _ & _ & _ & _ & _ & _ & _ & Hc & Hp).
  assert (Hids : songplay_ids t = VLong <$> ids_of_layout 0 (length <$> partitions j)).
  { unfold songplay_ids, collect. rewrite Hp. apply songplays_partitions_ids. }
  destruct (ids_of_layout_sorted 0 (length <$> partitions j)) as [Hs _].
  { rewrite length_fmap. lia. }
  { apply Forall_fmap. eapply Forall_impl; [exact Hrows|]. auto. }
  split; [by rewrite Hc|]. split; [assumption|]. split; [assumption|].
  rewrite Hids. apply NoDup_fmap_2; [|by apply StronglySorted_lt_NoDup].
  intros x y [= ->]. reflexivity.
Qed.

Lemma songplay_ids_increasing_witness :
  etl.songplays_table Witness.joined = Ok Witness.table ∧
  songplay_ids Witness.table = [VLong 0; VLong 1; VLong 8589934592] ∧
  NoDup (songplay_ids Witness.table).
Proof.
  assert (H : etl.songplays_table Witness.joined = Ok Witness.table)
    by (vm_compute; reflexivity).
  split; [exact H|].
  destruct (songplay_ids_increasing Witness.joined Witness.table H)
    as (_ & Hids & _ & Hnd).
  - vm_compute. discriminate.
  - repeat constructor; vm_compute; discriminate.
  - split; [exact Hids | exact Hnd].
Defined.

(** ** withColumn and the positions of the other columns *)

Lemma resolver_refl (a : string) : resolver a a = true.
Proof. by apply resolver_spec. Qed.

Lemma resolver_trans_false (n c name : string) :
  resolver n c = true → resolver c name = false → resolver n name = false.
Proof.
  rewrite resolver_spec, !resolver_false. intros -> H. assumption.
Qed.

Lemma existsb_resolver_false (schema : list string) (c n : string) (i : nat) :
  existsb (λ n, resolver n c) schema = false →
  schema !! i = Some n → resolver n c = false.
Proof.
  intros He Hn. destruct (resolver n c) eqn:Hr; [|reflexivity].
  assert (existsb (λ n, resolver n c) schema = true); [|congruence].
  apply existsb_exists. exists n. split; [|assumption].
  apply list_elem_of_In. by eapply list_elem_of_lookup_2.
Qed.

Lemma with_value_length (schema : list string) (c : string) (v : Value) (r : Row) :
  length r = length schema →
  length (DF.with_value schema c v r) = length (DF.with_name schema c).
Proof.
  intros Hl. unfold DF.with_value, DF.with_name.
  destruct (existsb _ schema).
  - rewrite length_zip_with, length_fmap. lia.
  - rewrite !length_app. simpl. lia.
Qed.

(** A column that [withColumn] sets holds the new value. *)
Lemma with_value_hit (schema : list string) (c : string) (v : Value) (r : Row)
    (i : nat) (n : string) :
  length r = length schema →
  DF.with_name schema c !! i = Some n → resolver n c = true →
  cell (DF.with_value schema c v r) i = v.
Proof.
  intros Hl Hn Hr. unfold DF.with_value, DF.with_name, cell in *.
  destruct (existsb _ schema) eqn:He.
  - rewrite list_lookup_fmap in Hn.
    destruct (schema !! i) as [n0|] eqn:Hn0; [|discriminate].
    injection Hn as <-.
    assert (is_Some (r !! i)) as [x Hx].
    { apply lookup_lt_is_Some. rewrite Hl. by eapply lookup_lt_Some. }
    rewrite lookup_zip_with, Hn0, Hx. simpl.
    destruct (resolver n0 c) eqn:Hr0; [reflexivity | congruence].
  - destruct (decide (i < length schema)%nat) as [Hlt|Hge].
    + rewrite lookup_app_l in Hn by assumption.
      pose proof (existsb_resolver_false _ _ _ _ He Hn). congruence.
    + apply lookup_lt_Some in Hn as Hi. rewrite length_app in Hi. simpl in Hi.
      assert (i = length r) as -> by lia.
      by rewrite list_lookup_middle.
Qed.

(** Every other column keeps its name and its value. *)
Lemma with_value_miss (schema : list string) (c : string) (v : Value) (r : Row)
    (i : nat) (n : string) :
  length r = length schema →
  DF.with_name schema c !! i = Some n → resolver n c = false →
  schema !! i = Some n ∧ cell (DF.with_value schema c v r) i = cell r i.
Proof.
  intros Hl Hn Hr. unfold DF.with_value, DF.with_name, cell in *.
  destruct (existsb _ schema) eqn:He.
  - rewrite list_lookup_fmap in Hn.
    destruct (schema !! i) as [n0|] eqn:Hn0; [|discriminate].
    injection Hn as <-.
    assert (is_Some (r !! i)) as [x Hx].
    { apply lookup_lt_is_Some. rewrite Hl. by eapply lookup_lt_Some. }
    rewrite lookup_zip_with, Hn0, Hx. simpl.
    destruct (resolver n0 c) eqn:Hr0.
    + rewrite resolver_refl in Hr. discriminate.
    + auto.
  - destruct (decide (i < length schema)%nat) as [Hlt|Hge].
    + rewrite lookup_app_l in Hn by assumption.
      rewrite lookup_app_l by lia. auto.
    + apply lookup_lt_Some in Hn as Hi. rewrite length_app in Hi. simpl in Hi.
      assert (i = length schema) as -> by lia.
      rewrite list_lookup_middle in Hn by reflexivity.
      injection Hn as <-. rewrite resolver_refl in Hr. discriminate.
Qed.

Lemma matches_from_app (i : nat) (l1 l2 : list string) (name : string) :
  matches_from i (l1 ++ l2) name =
  matches_from i l1 name ++ matches_from (i + length l1) l2 name.
Proof.
  revert i. induction l1 as [|n l1 IH]; intros i; simpl.
  - by rewrite Nat.add_0_r.
  - rewrite IH, <- Nat.add_succ_comm. by destruct (resolver n name).
Qed.

(** A name that does not match the new column resolves as before. *)
Lemma matches_with_name (schema : list string) (c name : string) :
  resolver c name = false →
  matches (DF.with_name schema c) name = matches schema name.
Proof.
  intros Hc. unfold matches, DF.with_name.
  destruct (existsb _ schema).
  - generalize 0%nat. induction schema as [|n schema IH]; intros i; simpl.
    + reflexivity.
    + rewrite IH. destruct (resolver n c) eqn:Hn.
      * rewrite Hc, (resolver_trans_false _ _ _ Hn Hc). reflexivity.
      * reflexivity.
  - rewrite matches_from_app. simpl. rewrite Hc. apply app_nil_r.
Qed.

Lemma elem_of_with_name (schema : list string) (c name : string) :
  resolver c name = false →
  name ∈ DF.with_name schema c ↔ name ∈ schema.
Proof.
  intros Hc. unfold DF.with_name.
  assert (Hne : c ≠ name).
  { intros ->. rewrite resolver_refl in Hc. discriminate. }
  destruct (existsb _ schema).
  - rewrite list_elem_of_fmap. split.
    + intros (n & Hn & Hin). destruct (resolver n c); congruence.
    + intros Hin. exists name. split; [|assumption].
      destruct (resolver name c) eqn:Hr; [|reflexivity].
      apply resolver_spec in Hr. apply resolver_false in Hc. congruence.
  - rewrite elem_of_app, list_elem_of_singleton. split; [|auto].
    intros [?|?]; [assumption | congruence].
Qed.

Lemma attr_with_name (df df' : DataFrame) (c name : string) :
  columns df' = DF.with_name (columns df) c →
  resolver c name = false →
  DF.attr df' name = DF.attr df name.
Proof.
  intros Hc Hr. unfold DF.attr, resolve. rewrite Hc.
  rewrite (matches_with_name _ _ _ Hr).
  pose proof (elem_of_with_name (columns df) _ _ Hr) as Hiff.
  destruct (decide (name ∈ DF.with_name (columns df) c)) as [Hin|Hin];
    destruct (decide (name ∈ columns df)) as [Hin'|Hin']; try reflexivity;
    exfalso; tauto.
Qed.

Lemma attr_Ok (df : DataFrame) (name : string) (i : nat) :
  DF.attr df name = Ok i → resolve (columns df) name = Ok i.
Proof. unfold DF.attr. by destruct (decide _). Qed.

(** A udf column on a well-formed frame: each row gets the value the
    function returns on its cell. *)
Lemma withColumn_udf_Ok (df t : DataFrame) (c : string)
    (f : Value → result Value) (pos : nat) :
  well_formed df →
  DF.withColumn df c (F.udf f pos) = Ok t →
  columns t = DF.with_name (columns df) c ∧
  well_formed t ∧
  (∀ r', r' ∈ collect t ↔
     ∃ r v, r ∈ collect df ∧ f (cell r pos) = Ok v ∧
            r' = DF.with_value (columns df) c v r) ∧
  (∀ r, r ∈ collect df → ∃ v, f (cell r pos) = Ok v).
Proof.
  intros Hwf H. pose proof (λ r', withColumn_collect _ _ _ _ r' H) as Hrows.
  pose proof (withColumn_Ok _ _ _ _ H) as (Hc & _ & Hall).
  assert (Hiff : ∀ r', r' ∈ collect t ↔
    ∃ r v, r ∈ collect df ∧ f (cell r pos) = Ok v ∧
           r' = DF.with_value (columns df) c v r).
  { intros r'. rewrite Hrows. split.
    - intros (pid & part & k & r & v & Hp & Hk & Hv & ->).
      exists r, v. split; [|auto]. apply elem_of_collect. eauto.
    - intros (r & v & Hr & Hv & ->).
      apply elem_of_collect in Hr as (pid & part & k & Hp & Hk).
      exists pid, part, k, r, v. auto. }
  split; [assumption|]. split; [|split; [assumption|]].
  - intros r' (r & v & Hr & _ & ->)%Hiff.
    rewrite Hc. apply with_value_length. by apply Hwf.
  - intros r (pid & part & k & Hp & Hk)%elem_of_collect.
    destruct (Hall pid part Hp) as (part' & _ & _ & Hpart).
    destruct (Hpart k r Hk) as (v & Hv & _). eauto.
Qed.

Lemma filter_well_formed (df : DataFrame) (condition : Row → option bool) :
  well_formed df → well_formed (DF.filter df condition).
Proof. intros Hwf r [Hr _]%filter_collect. by apply Hwf. Qed.

(** The rows of the event frame: one for each row of the log whose page is
    NextSong, with the two values the udfs return on its [ts] cell. *)
Lemma event_frame_Ok (utcoffset : Z → Z) (log df : DataFrame) :
  well_formed log →
  event_frame utcoffset log = Ok df →
  ∃ page ts,
    DF.attr log "page" = Ok page ∧ DF.attr log "ts" = Ok ts ∧
    columns df = DF.with_name (DF.with_name (columns log) "timestamp") "datetime" ∧
    well_formed df ∧
    (∀ l, l ∈ collect df ↔
       ∃ l0 sec dt, l0 ∈ collect log ∧ cell l0 page = VString "NextSong" ∧
         etl.get_timestamp (cell l0 ts) = Ok sec ∧
         etl.get_datetime utcoffset (cell l0 ts) = Ok dt ∧
         l = DF.with_value (DF.with_name (columns log) "timestamp") "datetime" dt
               (DF.with_value (columns log) "timestamp" sec l0)) ∧
    (∀ l0, l0 ∈ collect log → cell l0 page = VString "NextSong" →
       ∃ sec dt, etl.get_timestamp (cell l0 ts) = Ok sec ∧
                 etl.get_datetime utcoffset (cell l0 ts) = Ok dt).
Proof.
  intros Hwf H. unfold event_frame in H. inv_Ok H. rename a into a1, a0 into a2.
  apply next_song_Ok in Ha as (page & Hpage & ->).
  unfold etl.with_timestamp in Ha0. inv_Ok Ha0. rename a into ts.
  unfold etl.with_datetime in H. inv_Ok H. rename a into ts'.
  pose proof (filter_well_formed _ (F.eq_lit page "NextSong") Hwf) as Hwf1.
  destruct (withColumn_udf_Ok _ _ _ _ _ Hwf1 Ha0) as (Hc2 & Hwf2 & Hrows2 & Htot2).
  destruct (withColumn_udf_Ok _ _ _ _ _ Hwf2 H) as (Hc & Hwf3 & Hrows & Htot).
  simpl in Hc2. rewrite Hc2 in Hc.
  change (DF.attr log "ts" = Ok ts) in Ha.
  assert (ts' = ts) as ->.
  { rewrite (attr_with_name _ _ "timestamp" "ts" Hc2 eq_refl) in Ha1. congruence. }
  exists page, ts. repeat (split; [assumption|]).
  assert (Hts : ∀ l0 sec, l0 ∈ collect log →
            cell (DF.with_value (columns log) "timestamp" sec l0) ts = cell l0 ts).
  { intros l0 sec Hl0.
    apply attr_Ok in Ha1. rewrite Hc2 in Ha1.
    destruct (resolve_lookup _ _ _ Ha1) as (n & Hn & Hr).
    eapply with_value_miss; [by apply Hwf | exact Hn |].
    apply resolver_spec in Hr. apply resolver_false. by rewrite Hr. }
  split.
  - intros l. rewrite Hrows. split.
    + intros (r & dt & (l0 & sec & Hl0 & Hsec & ->)%Hrows2 & Hdt & ->).
      apply filter_collect in Hl0 as [Hl0 Hp%eq_lit_true].
      rewrite (Hts _ _ Hl0) in Hdt. rewrite Hc2.
      exists l0, sec, dt. auto.
    + intros (l0 & sec & dt & Hl0 & Hp & Hsec & Hdt & ->).
      exists (DF.with_value (columns log) "timestamp" sec l0), dt.
      rewrite Hc2. split; [|split; [|reflexivity]].
      * apply Hrows2. exists l0, sec. split; [|auto].
        apply filter_collect. split; [assumption | by apply eq_lit_true].
      * by rewrite (Hts _ _ Hl0).
  - intros l0 Hl0 Hp.
    assert (Hf : l0 ∈ collect (DF.filter log (F.eq_lit page "NextSong"))).
    { apply filter_collect. split; [assumption | by apply eq_lit_true]. }
    destruct (Htot2 l0 Hf) as (sec & Hsec).
    destruct (Htot (DF.with_value (columns log) "timestamp" sec l0)) as (dt & Hdt).
    { apply Hrows2. exists l0, sec. auto. }
    rewrite (Hts _ _ Hl0) in Hdt. eauto.
Qed.

(** *** The cells of an event row *)

Section event_row.
Variables (cols : list string) (sec dt : Value) (l0 : Row).
Hypothesis Hlen : length l0 = length cols.

Let l : Row :=
  DF.with_value (DF.with_name cols "timestamp") "datetime" dt
    (DF.with_value cols "timestamp" sec l0).

(** The [datetime] column holds what [get_datetime] returned. *)
Lemma event_row_datetime (i : nat) (n : string) :
  DF.with_name (DF.with_name cols "timestamp") "datetime" !! i = Some n →
  resolver n "datetime" = true →
  cell l i = dt.
Proof.
  intros Hn Hr. unfold l. eapply with_value_hit; [|exact Hn|exact Hr].
  by apply with_value_length.
Qed.

(** A column that is neither of the two added keeps the cell of the log
    row, at the position it has in the log. *)
Lemma event_row_other (i : nat) (n : string) :
  DF.with_name (DF.with_name cols "timestamp") "datetime" !! i = Some n →
  resolver n "timestamp" = false → resolver n "datetime" = false →
  cols !! i = Some n ∧ cell l i = cell l0 i.
Proof.
  intros Hn Hts Hdt. unfold l.
  destruct (with_value_miss (DF.with_name cols "timestamp") "datetime" dt
              (DF.with_value cols "timestamp" sec l0) i n) as [Hn1 Hc1];
    [by apply with_value_length | assumption | assumption |].
  destruct (with_value_miss cols "timestamp" sec l0 i n) as [Hn0 Hc0];
    [assumption | assumption | assumption |].
  split; [assumption | congruence].
Qed.

End event_row.

(** A name other than the two added resolves in the event frame as in the
    log. *)
Lemma event_frame_matches (cols : list string) (name : string) :
  resolver "timestamp" name = false → resolver "datetime" name = false →
  matches (DF.with_name (DF.with_name cols "timestamp") "datetime") name =
  matches cols name.
Proof. intros H1 H2. by rewrite !matches_with_name. Qed.

(** The event frame has a column named [datetime]. *)
Lemma with_name_matches (cols : list string) (c : string) :
  matches (DF.with_name cols c) c ≠ [].
Proof.
  unfold DF.with_name. destruct (existsb _ cols) eqn:He.
  - apply existsb_exists in He as (n & Hin & Hr).
    apply list_elem_of_In, list_elem_of_lookup in Hin as [i Hi].
    intros Hm. assert (Hi' : i ∈ matches ((λ n, if resolver n c then c else n) <$> cols) c).
    { apply matches_spec. exists c. rewrite list_lookup_fmap, Hi. simpl.
      rewrite Hr. split; [reflexivity | apply resolver_refl]. }
    rewrite Hm in Hi'. inversion Hi'.
  - intros Hm. assert (Hi' : length cols ∈ matches (cols ++ [c]) c).
    { apply matches_spec. exists c. split; [by apply list_lookup_middle|].
      apply resolver_refl. }
    rewrite Hm in Hi'. inversion Hi'.
Qed.

(** *** Names in the schema of a join *)

Lemma matches_from_shift (i : nat) (schema : list string) (name : string) :
  matches_from i schema name = (λ j, i + j)%nat <$> matches schema name.
Proof.
  unfold matches. revert i. induction schema as [|n schema IH]; intros i; simpl.
  - reflexivity.
  - rewrite (IH (S i)), (IH 1%nat).
    destruct (resolver n name).
    + rewrite fmap_cons, Nat.add_0_r, <- list_fmap_compose. f_equal.
      apply list_fmap_ext. intros _ j _. simpl. lia.
    + rewrite <- list_fmap_compose.
      apply list_fmap_ext. intros _ j _. simpl. lia.
Qed.

Lemma matches_lt (schema : list string) (name : string) (i : nat) :
  i ∈ matches schema name → (i < length schema)%nat.
Proof. intros (n & Hn & _)%matches_spec. by eapply lookup_lt_Some. Qed.

(** A name the left side has resolves on the left. *)
Lemma resolve_app_left (l1 l2 : list string) (name : string) (i : nat) :
  resolve (l1 ++ l2) name = Ok i → matches l1 name ≠ [] →
  resolve l1 name = Ok i ∧ (i < length l1)%nat.
Proof.
  rewrite !resolve_Ok. unfold matches at 1. rewrite matches_from_app. fold (matches l1 name).
  intros H Hne. destruct (matches l1 name) as [|j [|k m]] eqn:Hm; [done| |discriminate].
  simpl in H. injection H as <- H. split; [reflexivity|].
  apply (matches_lt l1 name). rewrite Hm. by left.
Qed.

(** A name the left side lacks resolves on the right. *)
Lemma resolve_app_right (l1 l2 : list string) (name : string) (i : nat) :
  resolve (l1 ++ l2) name = Ok i → matches l1 name = [] →
  ∃ j, i = (length l1 + j)%nat ∧ resolve l2 name = Ok j.
Proof.
  rewrite !resolve_Ok. unfold matches at 1. rewrite matches_from_app. fold (matches l1 name).
  intros H Hm1. rewrite Hm1 in H. simpl in H. rewrite matches_from_shift in H.
  destruct (matches l2 name) as [|j [|k m]] eqn:Hm; try discriminate.
  injection H as <-. exists j. split; [reflexivity|]. by apply resolve_Ok.
Qed.

Lemma cell_app_l (l s : Row) (i : nat) :
  (i < length l)%nat → cell (l ++ s) i = cell l i.
Proof. intros H. unfold cell. by rewrite lookup_app_l. Qed.

Lemma cell_app_r (l s : Row) (j : nat) :
  cell (l ++ s) (length l + j) = cell s j.
Proof.
  unfold cell. rewrite lookup_app_r by lia. f_equal. f_equal. lia.
Qed.

(** ** The three tables of the log, as functions of the log *)

Lemma elem_of_number_from {A B} (g : nat → A → B) (i : nat) (l : list A) (y : B) :
  y ∈ number_from g i l ↔ ∃ k x, l !! k = Some x ∧ y = g (i + k)%nat x.
Proof.
  revert i. induction l as [|x l IH]; intros i; simpl.
  - split; [intros H; inversion H | intros (k & x & Hk & _); discriminate].
  - rewrite elem_of_cons, IH. split.
    + intros [->|(k & x' & Hk & ->)].
      * exists 0%nat, x. by rewrite Nat.add_0_r.
      * exists (S k), x'. split; [assumption|]. f_equal. lia.
    + intros ([|k] & x' & Hk & ->); simpl in Hk.
      * injection Hk as <-. left. by rewrite Nat.add_0_r.
      * right. exists k, x'. split; [assumption|]. f_equal. lia.
Qed.

(** The rows of a songplays table: each is cut from a row of the join, a
    row of the event frame and a song whose title is the event's song. *)
Lemma songplays_Ok (df song_df sp : DataFrame) :
  songplays df song_df = Ok sp →
  ∃ title song p,
    DF.attr song_df "title" = Ok title ∧ DF.attr df "song" = Ok song ∧
    positions_in (columns df ++ columns song_df) p ∧
    columns sp = songplays_columns ∧
    ∀ r, r ∈ collect sp →
      ∃ pid k l s, l ∈ collect df ∧ s ∈ collect song_df ∧
        sql_eq (cell s title) (cell l song) = Some true ∧
        r = songplays_row p pid k (l ++ s).
Proof.
  unfold songplays, etl.join_songs. intros H. inv_Ok H. rename a into j.
  inv_Ok Ha. rename a into title, a0 into song. subst j.
  apply songplays_table_Ok in H
    as (p & H1 & H2 & H3 & H4 & H5 & H6 & H7 & H8 & H9 & H10 & Hc & Hp).
  exists title, song, p. repeat (split; [assumption|]).
  split; [by repeat split|]. split; [assumption|].
  intros r Hr. unfold collect in Hr. rewrite Hp in Hr.
  apply list_elem_of_In, in_concat in Hr as (part' & Hpart' & Hr).
  apply list_elem_of_In, elem_of_number_from in Hpart' as (pid & part & Hpid & ->).
  apply list_elem_of_In, elem_of_number_from in Hr as (k & x & Hk & ->).
  assert (Hx : x ∈ collect (DF.join df song_df
                 (λ l r, sql_eq (cell r title) (cell l song)))).
  { apply elem_of_collect. eauto. }
  apply join_collect in Hx as (l & s & Hl & Hs & Hon & ->).
  exists (0 + pid)%nat, (0 + k)%nat, l, s. auto.
Qed.

(** A name other than the two added is the same attribute in the event
    frame and in the log. *)
Lemma event_frame_attr (log df : DataFrame) (name : string) :
  columns df = DF.with_name (DF.with_name (columns log) "timestamp") "datetime" →
  resolver "timestamp" name = false → resolver "datetime" name = false →
  DF.attr df name = DF.attr log name.
Proof.
  intros Hc H1 H2.
  set (mid := {| columns := DF.with_name (columns log) "timestamp"; partitions := [] |}).
  rewrite (attr_with_name mid df "datetime" name Hc H2).
  by rewrite (attr_with_name log mid "timestamp" name eq_refl H1).
Qed.

(** The cell of an event row under a name of the log, read in the event
    frame at the position the name resolves to there. *)
Lemma event_row_resolved (cols : list string) (sec dt : Value) (l0 : Row)
    (name : string) (i : nat) :
  length l0 = length cols →
  resolver "timestamp" name = false → resolver "datetime" name = false →
  resolve (DF.with_name (DF.with_name cols "timestamp") "datetime") name = Ok i →
  resolve cols name = Ok i ∧
  cell (DF.with_value (DF.with_name cols "timestamp") "datetime" dt
          (DF.with_value cols "timestamp" sec l0)) i = cell l0 i.
Proof.
  intros Hlen H1 H2 Hi. split.
  - apply resolve_Ok. apply resolve_Ok in Hi. by rewrite event_frame_matches in Hi.
  - destruct (resolve_lookup _ _ _ Hi) as (n & Hn & Hr).
    eapply event_row_other; [assumption | exact Hn | |].
    + apply resolver_false. apply resolver_spec in Hr. rewrite Hr.
      apply resolver_false. unfold resolver in *.
      rewrite String.eqb_sym. exact H1.
    + apply resolver_false. apply resolver_spec in Hr. rewrite Hr.
      apply resolver_false. unfold resolver in *.
      rewrite String.eqb_sym. exact H2.
Qed.

(** Where every songplays row comes from: a NextSong event of the log and
    a song whose title is the song of the event.  The row's [ts] is the
    event's, its [month] is read off the date time of the event's [ts];
    when the log has no [year] column its [year] is the song's. *)
Lemma songplays_of_rows (utcoffset : Z → Z) (log song_df sp : DataFrame) :
  well_formed log →
  songplays_of utcoffset log song_df = Ok sp →
  ∃ page ts song title,
    DF.attr log "page" = Ok page ∧ DF.attr log "ts" = Ok ts ∧
    DF.attr log "song" = Ok song ∧ DF.attr song_df "title" = Ok title ∧
    columns sp = songplays_columns ∧
    (matches (columns log) "year" = [] →
     ∃ year, resolve (columns song_df) "year" = Ok year) ∧
    ∀ r, r ∈ collect sp →
      ∃ e s dt, e ∈ collect log ∧ cell e page = VString "NextSong" ∧
        s ∈ collect song_df ∧
        sql_eq (cell s title) (cell e song) = Some true ∧
        etl.get_datetime utcoffset (cell e ts) = Ok dt ∧
        cell r 0 = cell e ts ∧
        cell r 9 = F.part_of Py.month dt ∧
        (matches (columns log) "year" = [] →
         ∀ year, resolve (columns song_df) "year" = Ok year →
                 cell r 8 = cell s year).
Proof.
  intros Hwf H. unfold songplays_of in H. inv_Ok H. rename a into df.
  destruct (event_frame_Ok _ _ _ Hwf Ha)
    as (page & ts & Hpage & Hts & Hc & Hwfd & Hrows & _).
  destruct (songplays_Ok _ _ _ H) as (title & song & p & Htitle & Hsong & Hp & Hcs & Hsp).
  rewrite (event_frame_attr log df "song" Hc eq_refl eq_refl) in Hsong.
  destruct Hp as (Hp_ts & _ & _ & _ & _ & _ & _ & _ & Hp_year & Hp_dt).
  rewrite Hc in Hp_ts, Hp_year, Hp_dt.
  set (cols := DF.with_name (DF.with_name (columns log) "timestamp") "datetime") in *.
  (* ts resolves on the side of the events *)
  apply attr_Ok in Hts as Hts'. apply attr_Ok in Hsong as Hsong'.
  assert (Hmts : matches cols "ts" = [ts]).
  { unfold cols. rewrite event_frame_matches by reflexivity. by apply resolve_Ok. }
  destruct (resolve_app_left _ _ _ _ Hp_ts) as [Hp_ts' Hlt_ts]; [by rewrite Hmts|].
  apply resolve_Ok in Hp_ts'. rewrite Hmts in Hp_ts'. injection Hp_ts' as Hp_ts'.
  (* datetime resolves on the side of the events *)
  destruct (resolve_app_left _ _ _ _ Hp_dt) as [Hp_dt' Hlt_dt];
    [apply with_name_matches|].
  destruct (resolve_lookup _ _ _ Hp_dt') as (ndt & Hndt & Hrdt).
  (* year resolves on the side of the songs when the log has none *)
  assert (Hyear : matches (columns log) "year" = [] →
                  ∃ year, p_year p = (length cols + year)%nat ∧
                          resolve (columns song_df) "year" = Ok year).
  { intros Hno. apply (resolve_app_right _ _ _ _ Hp_year).
    unfold cols. by rewrite event_frame_matches by reflexivity. }
  exists page, ts, song, title. repeat (split; [assumption|]). split.
  { intros Hno. destruct (Hyear Hno) as (year & _ & Hy). eauto. }
  intros r (pid & k & l & s & Hl & Hs & Hon & ->)%Hsp.
  pose proof (Hwfd l Hl) as Hlen. rewrite Hc in Hlen. fold cols in Hlen.
  apply Hrows in Hl as (e & sec & dt & He & Hpg & Hsec & Hdt & ->).
  pose proof (Hwf e He) as Hlen0.
  assert (Hcell : ∀ name i, resolver "timestamp" name = false →
            resolver "datetime" name = false → resolve (columns log) name = Ok i →
            cell (DF.with_value (DF.with_name (columns log) "timestamp") "datetime" dt
                    (DF.with_value (columns log) "timestamp" sec e)) i = cell e i).
  { intros name i H1 H2 Hi.
    eapply (event_row_resolved (columns log) sec dt e name i Hlen0 H1 H2).
    apply resolve_Ok. rewrite event_frame_matches by assumption. by apply resolve_Ok. }
  exists e, s, dt. repeat (split; [assumption|]). split; [|split; [|split; [|split]]].
  - by rewrite <- (Hcell "song" song eq_refl eq_refl Hsong').
  - assumption.
  - unfold songplays_row, cell at 1. simpl. rewrite <- Hp_ts'.
    rewrite cell_app_l by (rewrite Hlen; lia).
    by apply (Hcell "ts").
  - unfold songplays_row, cell at 1. simpl.
    rewrite cell_app_l by (rewrite Hlen; lia). f_equal.
    by eapply (event_row_datetime (columns log) sec dt e Hlen0 _ ndt).
  - intros Hno year Hy. destruct (Hyear Hno) as (year' & Hpy & Hy').
    assert (year' = year) as -> by congruence.
    unfold songplays_row, cell at 1. simpl. rewrite Hpy, <- Hlen.
    apply cell_app_r.
Qed.

Lemma well_formed_check_true (df : DataFrame) :
  well_formed_check df = true → well_formed df.
Proof.
  unfold well_formed_check, well_formed. rewrite forallb_forall.
  intros H r Hr%list_elem_of_In. by apply Nat.eqb_eq, H.
Qed.



(** The sample at work: two songs of the title, two songplays, the years
    those of the songs and the month that of the event. *)
Example sample_songplays :
  Sample.songplays_table =
  {| columns := songplays_columns;
     partitions := [[
       [VLong 1541990258796; VString "10"; VString "free"; VString "S1"; VString "A1";
        VLong 582; VString "..."; VString "..."; VLong 2001; VLong 11; VLong 0];
       [VLong 1541990258796; VString "10"; VString "free"; VString "S2"; VString "A2";
        VLong 582; VString "..."; VString "..."; VLong 2002; VLong 11; VLong 1]
     ]] |}.
Proof. reflexivity. Qed.

(** ** The time table *)

(** The rows of the time table and the play events: both ways, the
    [start_time] is what [get_datetime] prints for the [ts] of an event. *)
Lemma time_of_rows (utcoffset : Z → Z) (log t : DataFrame) :
  well_formed log →
  time_of utcoffset log = Ok t →
  ∃ page ts,
    DF.attr log "page" = Ok page ∧ DF.attr log "ts" = Ok ts ∧
    columns t = time_columns ∧
    (∀ r, r ∈ collect t →
       ∃ e, e ∈ collect log ∧ cell e page = VString "NextSong" ∧
            etl.get_datetime utcoffset (cell e ts) = Ok (cell r 0) ∧
            r = time_row (cell r 0)) ∧
    (∀ e, e ∈ collect log → cell e page = VString "NextSong" →
       ∃ r, r ∈ collect t ∧
            etl.get_datetime utcoffset (cell e ts) = Ok (cell r 0)).
Proof.
  intros Hwf H. unfold time_of in H. inv_Ok H. rename a into df.
  destruct (event_frame_Ok _ _ _ Hwf Ha)
    as (page & ts & Hpage & Hts & Hc & Hwfd & Hrows & Htot).
  unfold etl.time_table in H. inv_Ok H. rename a into p.
  destruct (time_select_Ok _ _ Ha0) as (i & Hi & Hcp & Hpp).
  assert (H0 : resolve (columns p) "start_time" = Ok 0%nat) by by rewrite Hcp.
  destruct (dropDuplicates_one _ _ _ _ H0 H) as (Hct & _ & Hsub & Hall).
  rewrite Hc in Hi. destruct (resolve_lookup _ _ _ Hi) as (n & Hn & Hr).
  assert (Hp : ∀ r, r ∈ collect p ↔ ∃ l, l ∈ collect df ∧ r = time_row (cell l i)).
  { intros r. unfold collect at 1. rewrite Hpp, collect_map.
    rewrite list_elem_of_In, in_map_iff. split.
    - intros (l & <- & Hl). exists l. by rewrite list_elem_of_In.
    - intros (l & Hl & ->). exists l. by rewrite <- list_elem_of_In. }
  assert (Hdt : ∀ e sec dt, e ∈ collect log →
    cell (DF.with_value (DF.with_name (columns log) "timestamp") "datetime" dt
            (DF.with_value (columns log) "timestamp" sec e)) i = dt).
  { intros e sec dt He. eapply event_row_datetime; [by apply Hwf | exact Hn | exact Hr]. }
  exists page, ts. repeat (split; [assumption|]). split; [congruence|]. split.
  - intros r (l & Hl & ->)%Hsub%Hp.
    apply Hrows in Hl as (e & sec & dt & He & Hpg & _ & Hdate & ->).
    exists e. rewrite Hdt by assumption. auto.
  - intros e He Hpg. destruct (Htot e He Hpg) as (sec & dt & Hsec & Hdate).
    set (l := DF.with_value (DF.with_name (columns log) "timestamp") "datetime" dt
                (DF.with_value (columns log) "timestamp" sec e)).
    assert (Hl : l ∈ collect df).
    { apply Hrows. exists e, sec, dt. auto. }
    destruct (Hall (time_row (cell l i))) as (r & Hr' & Hk).
    { apply Hp. eauto. }
    exists r. split; [assumption|]. rewrite Hk. unfold l.
    rewrite Hdt by assumption. assumption.
Qed.

(** [C5] Two runs, on any two logs, in one time zone: two retained events
    that carry the same [ts] get the same [start_time], the string
    [get_datetime] returns for that [ts], and each run's time table holds a
    row of it. *)
Theorem start_time_function_of_ts (utcoffset : Z → Z)
    (log1 log2 t1 t2 : DataFrame) (page1 ts1 page2 ts2 : nat) (e1 e2 : Row) :
  well_formed log1 → well_formed log2 →
  time_of utcoffset log1 = Ok t1 → time_of utcoffset log2 = Ok t2 →
  DF.attr log1 "page" = Ok page1 → DF.attr log1 "ts" = Ok ts1 →
  DF.attr log2 "page" = Ok page2 → DF.attr log2 "ts" = Ok ts2 →
  e1 ∈ collect log1 → cell e1 page1 = VString "NextSong" →
  e2 ∈ collect log2 → cell e2 page2 = VString "NextSong" →
  cell e1 ts1 = cell e2 ts2 →
  ∃ s, etl.get_datetime utcoffset (cell e1 ts1) = Ok s ∧
       start_time_in t1 s ∧ start_time_in t2 s.
Proof.
  intros Hwf1 Hwf2 H1 H2 Hp1 Hts1 Hp2 Hts2 He1 Hn1 He2 Hn2 Heq.
  destruct (time_of_rows _ _ _ Hwf1 H1) as (p1 & s1 & Hp1' & Hts1' & _ & Hfrom1 & Hto1).
  destruct (time_of_rows _ _ _ Hwf2 H2) as (p2 & s2 & Hp2' & Hts2' & _ & Hfrom2 & Hto2).
  assert (p1 = page1) as -> by congruence. assert (s1 = ts1) as -> by congruence.
  assert (p2 = page2) as -> by congruence. assert (s2 = ts2) as -> by congruence.
  destruct (Hto1 e1 He1 Hn1) as (r1 & Hr1 & Hd1).
  destruct (Hto2 e2 He2 Hn2) as (r2 & Hr2 & Hd2).
  rewrite <- Heq in Hd2. assert (Hs : cell r2 0 = cell r1 0) by congruence.
  exists (cell r1 0). split; [assumption|]. split.
  - exists r1. split; [assumption|]. split; [reflexivity|].
    by destruct (Hfrom1 r1 Hr1) as (_ & _ & _ & _ & Hrow).
  - exists r2. split; [assumption|]. split; [assumption|].
    destruct (Hfrom2 r2 Hr2) as (_ & _ & _ & _ & Hrow). by rewrite <- Hs.
Qed.

(** The two runs of the witness, in UTC: the event of the specification in
    a log of its own, and the same [ts] in a log beside another event. *)
Lemma start_time_function_of_ts_witness :
  time_of Scenario.utc Scenario.log_df = Ok Sample.time_table ∧
  time_of Scenario.utc Sample.log_df = Ok Sample.time_table ∧
  ∃ s, etl.get_datetime Scenario.utc (VLong 1541990258796) = Ok s ∧
       s = VString "2018-11-12 02:37:38.796000" ∧
       start_time_in Sample.time_table s ∧ start_time_in Sample.time_table s.
Proof.
  assert (H1 : time_of Scenario.utc Scenario.log_df = Ok Sample.time_table)
    by (vm_compute; reflexivity).
  assert (H2 : time_of Scenario.utc Sample.log_df = Ok Sample.time_table)
    by (vm_compute; reflexivity).
  split; [exact H1|]. split; [exact H2|].
  destruct (start_time_function_of_ts Scenario.utc Scenario.log_df Sample.log_df
              Sample.time_table Sample.time_table 0 3 0 6
              Scenario.event Sample.play)
    as (s & Hs & Hin1 & Hin2).
  - apply well_formed_check_true. reflexivity.
  - apply well_formed_check_true. reflexivity.
  - exact H1.
  - exact H2.
  - reflexivity.
  - reflexivity.
  - reflexivity.
  - reflexivity.
  - apply elem_of_collect. exists 0%nat. eexists. exists 0%nat. split; reflexivity.
  - reflexivity.
  - apply elem_of_collect. exists 0%nat. eexists. exists 0%nat. split; reflexivity.
  - reflexivity.
  - reflexivity.
  - exists s. split; [exact Hs|]. split; [|split; assumption].
    change (cell Scenario.event 3) with (VLong 1541990258796) in Hs.
    assert (Hc : etl.get_datetime Scenario.utc (VLong 1541990258796)
                 = Ok (VString "2018-11-12 02:37:38.796000"))
      by (vm_compute; reflexivity).
    congruence.
Defined.

(** [C5] Without the proviso of one time zone the claim fails: line 87
    prints the local time of the process, so the event of the
    specification, run five hours west of Greenwich, gets another
    [start_time] for the same [ts], and the time table another row. *)
Lemma start_time_differs_by_time_zone :
  etl.get_datetime Scenario.utc (VLong 1541990258796)
    = Ok (VString "2018-11-12 02:37:38.796000") ∧
  etl.get_datetime Zones.eastern (VLong 1541990258796)
    = Ok (VString "2018-11-11 21:37:38.796000") ∧
  time_of Scenario.utc Scenario.log_df = Ok Sample.time_table ∧
  ∃ t, time_of Zones.eastern Scenario.log_df = Ok t ∧
       collect t = [time_row (VString "2018-11-11 21:37:38.796000")].
Proof.
  split; [vm_compute; reflexivity|]. split; [vm_compute; reflexivity|].
  split; [vm_compute; reflexivity|].
  eexists. split; vm_compute; reflexivity.
Qed.

(** ** The filter on play events *)

Lemma filter_filter (df : DataFrame) (condition : Row → option bool) :
  DF.filter (DF.filter df condition) condition = DF.filter df condition.
Proof.
  unfold DF.filter. simpl. f_equal. rewrite map_map. apply map_ext.
  intros part. induction part as [|r part IH]; simpl; [reflexivity|].
  destruct (bool_decide (condition r = Some true)) eqn:Hc; simpl.
  - by rewrite Hc, IH.
  - assumption.
Qed.

(** Filtering twice is filtering once: the frame that line 72 keeps is a
    fixed point of line 72. *)
Lemma next_song_kept (log kept : DataFrame) :
  etl.next_song log = Ok kept → etl.next_song kept = Ok kept.
Proof.
  intros (page & Hpage & ->)%next_song_Ok. unfold etl.next_song.
  change (DF.attr (DF.filter log (F.eq_lit page "NextSong")) "page")
    with (DF.attr log "page").
  rewrite Hpage. simpl. by rewrite filter_filter.
Qed.

Lemma getitem_key_resolves (df p : DataFrame) (names : list string) (key : string)
    (i : nat) :
  matches names key = [i] → DF.getitem df names = Ok p →
  resolve (columns p) key = Ok i.
Proof.
  intros Hm (ps & _ & Hcols & _)%getitem_Ok.
  apply resolve_Ok. unfold matches. by rewrite (matches_from_congr _ _ _ _ Hcols).
Qed.

(** Every row of the users table is the projection of a play event. *)
Lemma users_of_rows (log u : DataFrame) :
  users_of log = Ok u →
  ∃ page ps,
    DF.attr log "page" = Ok page ∧
    Forall2 (λ name i, resolve (columns log) name = Ok i) users_names ps ∧
    ∀ r, r ∈ collect u →
      ∃ e, e ∈ collect log ∧ cell e page = VString "NextSong" ∧ r = cell e <$> ps.
Proof.
  unfold users_of, etl.users_table. intros H. inv_Ok H. rename a into kept, a0 into p.
  apply next_song_Ok in Ha as (page & Hpage & ->).
  pose proof (getitem_key_resolves _ _ users_names "userId" 0%nat eq_refl Ha0) as H0.
  destruct (getitem_Ok _ _ _ Ha0) as (ps & Hps & _ & Hpp).
  destruct (dropDuplicates_one _ _ _ _ H0 H) as (_ & _ & Hsub & _).
  exists page, ps. split; [assumption|]. split; [exact Hps|].
  intros r Hr%Hsub. unfold collect in Hr. rewrite Hpp, collect_map in Hr.
  apply list_elem_of_In, in_map_iff in Hr as (e & <- & He).
  apply list_elem_of_In, filter_collect in He as [He Hc%eq_lit_true].
  exists e. auto.
Qed.

(** [C3] No row of the log whose page is not NextSong reaches the users,
    time or songplays tables. *)
Theorem non_play_events_excluded (utcoffset : Z → Z) (log song_df : DataFrame) :
  well_formed log → only_play_events utcoffset log song_df.
Proof.
  intros Hwf. split; [|split; [|split]].
  - intros kept Hk. pose proof (next_song_kept _ _ Hk) as Hk'.
    unfold users_of, time_of, songplays_of, event_frame.
    rewrite Hk, Hk'. auto.
  - intros u Hu. by apply users_of_rows.
  - intros t Ht.
    destruct (time_of_rows _ _ _ Hwf Ht) as (page & ts & Hp & Hts & _ & Hfrom & _).
    exists page, ts. auto.
  - intros sp Hsp.
    destruct (songplays_of_rows _ _ _ _ Hwf Hsp)
      as (page & ts & song & title & Hp & Hts & _ & _ & _ & _ & Hrows).
    exists page, ts. repeat (split; [assumption|]).
    intros r (e & s & dt & He & Hpg & _ & _ & Hdt & Hc0 & Hc9 & _)%Hrows.
    exists e, dt. auto.
Qed.

Lemma non_play_events_excluded_witness :
  well_formed Sample.log_df ∧
  only_play_events Scenario.utc Sample.log_df Scenario.same_title_df.
Proof.
  assert (Hwf : well_formed Sample.log_df)
    by (apply well_formed_check_true; reflexivity).
  split; [exact Hwf|].
  exact (non_play_events_excluded Scenario.utc Sample.log_df Scenario.same_title_df Hwf).
Defined.

(** The sample at work: the visit of the home page by user 11 leaves no
    trace in the users table or in the time table. *)
Example sample_users_and_time :
  users_of Sample.log_df =
    Ok {| columns := users_names;
          partitions := [[ [VString "10"; VString "Sylvie"; VString "Cruz";
                            VString "F"; VString "free"] ]] |} ∧
  time_of Scenario.utc Sample.log_df =
    Ok {| columns := time_columns;
          partitions := [[ time_row (VString "2018-11-12 02:37:38.796000") ]] |}.
Proof. split; vm_compute; reflexivity. Qed.

(** * The run of the script *)

(** ** Actions and their replay *)

Lemma run_app (acts1 acts2 : list Action) (w : World) :
  run (acts1 ++ acts2) w = run acts2 (run acts1 w).
Proof. unfold run. apply foldl_app. Qed.

Lemma run_trace (acts : list Action) (w : World) :
  trace (run acts w) = trace w ++ acts.
Proof.
  revert w. induction acts as [|a acts IH]; intros w; simpl.
  - by rewrite app_nil_r.
  - rewrite IH. simpl. by rewrite <- app_assoc.
Qed.

Lemma run_files (acts : list Action) (w : World) : files (run acts w) = files w.
Proof. revert w. induction acts as [|a acts IH]; intros w; simpl; [|rewrite IH]; reflexivity. Qed.

Lemma run_storage (acts : list Action) (w : World) (path : string) :
  storage (run acts w) !! path =
  match last_write path acts with
  | Some t => Some t
  | None => storage w !! path
  end.
Proof.
  revert w. induction acts as [|a acts IH]; intros w; simpl; [reflexivity|].
  rewrite IH. destruct (last_write path acts) as [t|]; [reflexivity|].
  destruct a as [| | | |p t]; simpl; try reflexivity.
  destruct (decide (p = path)) as [->|Hne].
  - by rewrite lookup_insert_eq.
  - by rewrite lookup_insert_ne.
Qed.

(** Overwriting is idempotent: the same writes a second time leave the
    store as the first time left it. *)
Lemma run_twice_storage (acts : list Action) (w : World) :
  storage (run acts (run acts w)) = storage (run acts w).
Proof.
  apply map_eq. intros path. rewrite (run_storage acts (run acts w)).
  destruct (last_write path acts) as [t|] eqn:Hl; [|reflexivity].
  by rewrite run_storage, Hl.
Qed.

(** ** A logic of jobs

    Two runs from worlds that agree on the inputs perform the same
    actions and return the same result. *)

Lemma same_inputs_run (acts : list Action) (w wa : World) :
  same_inputs w wa → same_inputs (run acts w) (run acts wa).
Proof.
  intros (Hf & Hs & Hl). unfold same_inputs.
  rewrite !run_files, !run_storage.
  split; [assumption|].
  split; [destruct (last_write song_data_path acts) | destruct (last_write log_data_path acts)];
    auto.
Qed.

Lemma Det_and_then {A B} (P : Action → Prop) (Q : A → Prop) (R : B → Prop)
    (m : Job A) (k : A → Job B) :
  Det P Q m → (∀ a, Q a → Det P R (k a)) → Det P R (and_then m k).
Proof.
  intros Hm Hk w wa Hw.
  destruct (Hm w wa Hw) as (acts1 & H1 & H1a & Hr & HP1 & HQ).
  unfold and_then.
  destruct (m w) as [w' r] eqn:Hmw. destruct (m wa) as [wa' ra] eqn:Hmwa.
  simpl in *. subst w' wa' ra. destruct r as [a|e].
  - destruct (Hk a (HQ a eq_refl) (run acts1 w) (run acts1 wa))
      as (acts2 & H2 & H2a & Hr2 & HP2 & HR); [by apply same_inputs_run|].
    exists (acts1 ++ acts2). rewrite !run_app.
    split; [assumption|]. split; [assumption|]. split; [assumption|].
    split; [|assumption]. apply Forall_app. auto.
  - exists acts1. simpl.
    split; [reflexivity|]. split; [reflexivity|]. split; [reflexivity|].
    split; [assumption|]. intros b Hb. discriminate.
Qed.

Lemma Det_lift {A} (P : Action → Prop) (m : result A) :
  Det P (λ a, m = Ok a) (lift m).
Proof.
  intros w wa _. exists []. simpl.
  split; [reflexivity|]. split; [reflexivity|]. split; [reflexivity|].
  split; [constructor | auto].
Qed.

Lemma Det_read_json (P : Action → Prop) (path : string) :
  path = song_data_path ∨ path = log_data_path →
  P (ReadJson path) →
  Det P (λ _, True) (spark.read_json path).
Proof.
  intros Hpath HP w wa (_ & Hs & Hl). exists [ReadJson path].
  unfold spark.read_json.
  assert (Heq : storage w !! path = storage wa !! path)
    by (destruct Hpath as [-> | ->]; assumption).
  rewrite <- Heq. destruct (storage w !! path) as [t|]; simpl;
    (split; [reflexivity|]; split; [reflexivity|]; split; [reflexivity|];
     split; [by repeat constructor | auto]).
Qed.

Lemma Det_write_parquet (P : Action → Prop) (df : DataFrame)
    (partitionBy : list string) (path : string) :
  P (WriteParquet path {| partition_cols := partitionBy; data := df |}) →
  Det P (λ _, True) (spark.write_parquet df partitionBy path Overwrite).
Proof.
  intros HP w wa _. unfold spark.write_parquet.
  destruct (traverse (resolve (columns df)) partitionBy) as [ps|e].
  - exists [WriteParquet path {| partition_cols := partitionBy; data := df |}].
    simpl. split; [reflexivity|]. split; [reflexivity|]. split; [reflexivity|].
    split; [by repeat constructor | auto].
  - exists []. simpl. split; [reflexivity|]. split; [reflexivity|].
    split; [reflexivity|]. split; [constructor | auto].
Qed.

Lemma Det_getOrCreate (P : Action → Prop) (package : string) :
  P (GetOrCreateSession package) →
  Det P (λ _, True) (spark.getOrCreate package).
Proof.
  intros HP w wa _. exists [GetOrCreateSession package]. simpl.
  split; [reflexivity|]. split; [reflexivity|]. split; [reflexivity|].
  split; [by repeat constructor | auto].
Qed.

Lemma Det_config_read (P : Action → Prop) (file : string) :
  P (ReadConfig file) →
  Det P (λ _, True) (configparser.read file).
Proof.
  intros HP w wa (Hf & _). exists [ReadConfig file]. unfold configparser.read.
  rewrite <- Hf. destruct (files w !! file) as [[|d s]|]; simpl;
    (split; [reflexivity|]; split; [reflexivity|]; split; [reflexivity|];
     split; [by repeat constructor | auto]).
Qed.

Lemma Det_setenv (P : Action → Prop) (key value : string) :
  P (SetEnv key value) →
  Det P (λ _, True) (os.setenv key value).
Proof.
  intros HP w wa _. exists [SetEnv key value]. simpl.
  split; [reflexivity|]. split; [reflexivity|]. split; [reflexivity|].
  split; [by repeat constructor | auto].
Qed.

(** ** What the script does *)

Lemma process_song_data_Det (utcoffset : Z → Z) :
  Det (main_action utcoffset) (λ _, True)
    (etl.process_song_data "s3a://udacity-dend/" "s3a://gharibudacity/").
Proof.
  unfold etl.process_song_data.
  eapply Det_and_then; [apply Det_read_json; [by left | constructor]|].
  intros df _.
  eapply Det_and_then; [apply Det_lift|]. intros songs Hsongs.
  eapply Det_and_then;
    [apply Det_write_parquet; by apply (act_write_songs _ df)|].
  intros _ _.
  eapply Det_and_then; [apply Det_lift|]. intros artists Hartists.
  apply Det_write_parquet. by apply (act_write_artists _ df).
Qed.

Lemma process_log_data_Det (utcoffset : Z → Z) :
  Det (main_action utcoffset) (λ _, True)
    (etl.process_log_data utcoffset "s3a://udacity-dend/" "s3a://gharibudacity/").
Proof.
  unfold etl.process_log_data.
  eapply Det_and_then; [apply Det_read_json; [by right | constructor]|].
  intros log _.
  eapply Det_and_then; [apply Det_lift|]. intros df1 H1.
  eapply Det_and_then; [apply Det_lift|]. intros users Husers.
  eapply Det_and_then; [apply Det_write_parquet; apply (act_write_users _ log)|].
  { unfold users_of. by rewrite H1. }
  intros _ _.
  eapply Det_and_then; [apply Det_lift|]. intros df2 H2.
  eapply Det_and_then; [apply Det_lift|]. intros df3 H3.
  assert (Hev : event_frame utcoffset log = Ok df3).
  { unfold event_frame. rewrite H1. simpl. by rewrite H2. }
  eapply Det_and_then; [apply Det_lift|]. intros time Htime.
  eapply Det_and_then; [apply Det_write_parquet; apply (act_write_time _ log)|].
  { unfold time_of. by rewrite Hev. }
  intros _ _.
  eapply Det_and_then; [apply Det_read_json; [by left | constructor]|].
  intros song_df _.
  eapply Det_and_then; [apply Det_lift|]. intros j Hj.
  eapply Det_and_then; [apply Det_lift|]. intros sp Hsp.
  apply Det_write_parquet. apply (act_write_songplays _ log song_df).
  unfold songplays_of, songplays. rewrite Hev. simpl. by rewrite Hj.
Qed.

Lemma main_Det (utcoffset : Z → Z) :
  Det (main_action utcoffset) (λ _, True) (etl.main utcoffset).
Proof.
  unfold etl.main, etl.create_spark_session.
  eapply Det_and_then; [apply Det_getOrCreate; constructor|]. intros _ _.
  eapply Det_and_then; [apply process_song_data_Det|]. intros _ _.
  apply process_log_data_Det.
Qed.

Lemma actions_of_run {A} (m : Job A) (w : World) (acts : list Action) :
  (m w).1 = run acts w → actions_of m w = acts.
Proof.
  intros H. unfold actions_of. rewrite H, run_trace. by rewrite drop_app_length.
Qed.

Lemma same_inputs_refl (w : World) : same_inputs w w.
Proof. by repeat split. Qed.

(** Every action of [main] is one of those listed, and [main] replays. *)
Lemma main_actions (utcoffset : Z → Z) (w : World) :
  (etl.main utcoffset w).1 = run (actions_of (etl.main utcoffset) w) w ∧
  Forall (main_action utcoffset) (actions_of (etl.main utcoffset) w).
Proof.
  destruct (main_Det utcoffset w w (same_inputs_refl w)) as (acts & H & _ & _ & HP & _).
  rewrite (actions_of_run _ _ _ H). auto.
Qed.

(** [C2] Whatever the data sets, each keyed table that [main] writes has
    at most one row for each value of its key: songs by [song_id], artists
    by [artist_id], users by [userId], time by [start_time]. *)
Theorem keyed_tables_unique (utcoffset : Z → Z) (w : World) (path : string)
    (t : Table) :
  WriteParquet path t ∈ actions_of (etl.main utcoffset) w →
  (path = songs_path → unique_key (data t) "song_id") ∧
  (path = artists_path → unique_key (data t) "artist_id") ∧
  (path = users_path → unique_key (data t) "userId") ∧
  (path = time_path → unique_key (data t) "start_time").
Proof.
  intros Hin. destruct (main_actions utcoffset w) as [_ Hall].
  rewrite Forall_forall in Hall. specialize (Hall _ Hin).
  inversion Hall as [| | |df t' Ht|df t' Ht|log t' Ht|log t' Ht|log sdf t' Ht];
    subst; simpl; (split; [|split; [|split]]); try discriminate; intros _.
  - by eapply songs_table_unique.
  - by eapply artists_table_unique.
  - unfold users_of in Ht. inv_Ok Ht. by eapply users_table_unique.
  - unfold time_of in Ht. inv_Ok Ht. by eapply time_table_unique.
Qed.

Lemma keyed_tables_unique_witness :
  WriteParquet songs_path Store.songs_written
    ∈ actions_of (etl.main Scenario.utc) Store.world ∧
  unique_key (data Store.songs_written) "song_id".
Proof.
  assert (H : WriteParquet songs_path Store.songs_written
                ∈ actions_of (etl.main Scenario.utc) Store.world).
  { apply list_elem_of_In. vm_compute. auto 10. }
  split; [exact H|].
  by apply (keyed_tables_unique Scenario.utc Store.world songs_path Store.songs_written H).
Defined.

(** ** The script as a whole *)

Lemma Det_mono {A} (P P' : Action → Prop) (Q : A → Prop) (m : Job A) :
  (∀ a, P a → P' a) → Det P Q m → Det P' Q m.
Proof.
  intros HP Hm w wa Hw. destruct (Hm w wa Hw) as (acts & H1 & H2 & H3 & H4 & H5).
  exists acts. split; [assumption|]. split; [assumption|]. split; [assumption|].
  split; [|assumption]. eapply Forall_impl; eauto.
Qed.

Lemma load_config_Det (utcoffset : Z → Z) :
  Det (script_action utcoffset) (λ _, True) etl.load_config.
Proof.
  unfold etl.load_config.
  eapply Det_and_then; [apply Det_config_read; constructor|]. intros config _.
  eapply Det_and_then; [apply Det_lift|]. intros key_id _.
  eapply Det_and_then; [apply Det_setenv; constructor|]. intros _ _.
  eapply Det_and_then; [apply Det_lift|]. intros secret _.
  apply Det_setenv. constructor.
Qed.

Lemma script_Det (utcoffset : Z → Z) :
  Det (script_action utcoffset) (λ _, True) (etl.script utcoffset).
Proof.
  unfold etl.script.
  eapply Det_and_then; [apply load_config_Det|]. intros _ _.
  eapply Det_mono; [|apply main_Det]. by constructor.
Qed.

(** No action of the script writes under a path it reads from. *)
Lemma script_action_last_write (utcoffset : Z → Z) (acts : list Action) :
  Forall (script_action utcoffset) acts →
  last_write song_data_path acts = None ∧ last_write log_data_path acts = None.
Proof.
  induction 1 as [|a acts Ha _ [IH1 IH2]]; simpl; [auto|].
  rewrite IH1, IH2.
  destruct Ha as [| | |a Ha]; [auto..|]. destruct Ha; auto.
Qed.

Lemma script_keeps_inputs (utcoffset : Z → Z) (acts : list Action) (w : World) :
  Forall (script_action utcoffset) acts → same_inputs w (run acts w).
Proof.
  intros [H1 H2]%script_action_last_write. unfold same_inputs.
  by rewrite run_files, !run_storage, H1, H2.
Qed.

(** ** The configuration *)

Lemma getitem_KEYS (config : configparser.ConfigParser) (name : string) :
  (∃ v, configparser.getitem config "KEYS" name = Ok v) ↔
  configparser.has_option config "KEYS" name = true.
Proof.
  unfold configparser.getitem, configparser.has_option, configparser.has_section.
  destruct (decide ("KEYS" = configparser.default_section)) as [Heq|_];
    [discriminate|].
  rewrite bool_decide_eq_false_2 by discriminate.
  destruct (configparser._sections config !! "KEYS") as [opts|] eqn:Hs.
  - rewrite bool_decide_eq_true_2 by done. simpl.
    destruct (opts !! lower name) as [v|] eqn:Hv;
      destruct (configparser._defaults config !! lower name) as [v'|] eqn:Hd;
      repeat case_bool_decide; simpl; split; intros Hgoal;
      try reflexivity; try discriminate; eauto;
      try (destruct Hgoal; discriminate);
      exfalso;
      match goal with
      | Hn : ¬ is_Some _ |- _ => apply Hn; done
      | Hs : is_Some None |- _ => destruct Hs; discriminate
      end.
  - rewrite bool_decide_eq_false_2 by (intros [? ?]; discriminate). simpl.
    split; [intros [v Hv']; discriminate | discriminate].
Qed.

Lemma supplies_credential (w : World) (name : string) :
  supplies w name ↔ is_Some (credential w name).
Proof.
  unfold supplies, credential. split.
  - intros (d & s & -> & H). apply getitem_KEYS in H as [v ->]. eauto.
  - intros [v Hv]. destruct (files w !! "dl.cfg") as [[|d s]|]; try discriminate.
    exists d, s. split; [reflexivity|]. apply getitem_KEYS.
    destruct (configparser.getitem _ _ _) as [v'|]; [eauto | discriminate].
Qed.

(** What lines 9-13 do: with both options supplied, the read and the two
    assignments; otherwise the read, at most the first assignment, and an
    error. *)
Lemma load_config_spec (w : World) :
  match credential w "AWS_ACCESS_KEY_ID", credential w "AWS_SECRET_ACCESS_KEY" with
  | Some key_id, Some secret =>
      etl.load_config w =
        (run [ReadConfig "dl.cfg"; SetEnv "AWS_ACCESS_KEY_ID" key_id;
              SetEnv "AWS_SECRET_ACCESS_KEY" secret] w, Ok tt)
  | Some key_id, None =>
      ∃ e, etl.load_config w =
        (run [ReadConfig "dl.cfg"; SetEnv "AWS_ACCESS_KEY_ID" key_id] w, Err e)
  | None, _ =>
      ∃ e, etl.load_config w = (run [ReadConfig "dl.cfg"] w, Err e)
  end.
Proof.
  unfold credential, etl.load_config, and_then, configparser.read, lift.
  destruct (files w !! "dl.cfg") as [[|d s]|] eqn:Hf.
  - eauto.
  - destruct (configparser.getitem _ "KEYS" "AWS_ACCESS_KEY_ID") as [key_id|e]; [|eauto].
    simpl. destruct (configparser.getitem _ "KEYS" "AWS_SECRET_ACCESS_KEY") as [secret|e];
      [reflexivity | eauto].
  - eauto.
Qed.

Lemma main_action_not_config (utcoffset : Z → Z) (a : Action) :
  main_action utcoffset a →
  (∀ file, a ≠ ReadConfig file) ∧ (∀ key value, a ≠ SetEnv key value).
Proof. destruct 1; split; intros; discriminate. Qed.

Lemma run_main_environ (utcoffset : Z → Z) (acts : list Action) (w : World) :
  Forall (main_action utcoffset) acts → environ (run acts w) = environ w.
Proof.
  intros H. revert w. induction H as [|a acts Ha _ IH]; intros w; simpl; [reflexivity|].
  rewrite IH. by destruct Ha.
Qed.

(** [C9] The read of [dl.cfg] is the first action of the script and the
    only read of a configuration; when the file does not supply both
    credentials under [KEYS] the script ends in an error that nothing
    catches, before the session is created and before anything is read or
    written; when it does, both values are in the environment. *)
Theorem config_read_first (utcoffset : Z → Z) (w : World) :
  config_contract utcoffset w.
Proof.
  unfold config_contract. simpl.
  pose proof (load_config_spec w) as Hload.
  pose proof (supplies_credential w "AWS_ACCESS_KEY_ID") as Hid.
  pose proof (supplies_credential w "AWS_SECRET_ACCESS_KEY") as Hsec.
  unfold etl.script, and_then.
  destruct (credential w "AWS_ACCESS_KEY_ID") as [key_id|] eqn:Hc1;
    [destruct (credential w "AWS_SECRET_ACCESS_KEY") as [secret|] eqn:Hc2|].
  - (* both supplied *)
    set (acts0 := [ReadConfig "dl.cfg"; SetEnv "AWS_ACCESS_KEY_ID" key_id;
                   SetEnv "AWS_SECRET_ACCESS_KEY" secret]) in *.
    destruct (main_actions utcoffset (run acts0 w)) as [Hrun Hall].
    set (rest := actions_of (etl.main utcoffset) (run acts0 w)) in *.
    assert (Hacts : actions_of (and_then etl.load_config (λ _, etl.main utcoffset)) w
                    = acts0 ++ rest).
    { apply actions_of_run. unfold and_then. rewrite Hload, Hrun. by rewrite run_app. }
    unfold and_then in Hacts. rewrite Hacts. rewrite Hload.
    split; [|split].
    + exists ([SetEnv "AWS_ACCESS_KEY_ID" key_id;
               SetEnv "AWS_SECRET_ACCESS_KEY" secret] ++ rest).
      split; [reflexivity|]. apply Forall_app. split.
      * repeat constructor; intros; discriminate.
      * eapply Forall_impl; [exact Hall|]. intros a Ha.
        by destruct (main_action_not_config _ _ Ha).
    + intros Hno. exfalso. apply Hno. split; [apply Hid | apply Hsec]; eauto.
    + intros _. exists key_id, secret, rest.
      split; [reflexivity|]. split; [reflexivity|]. split; [reflexivity|].
      split; [assumption|].
      rewrite Hrun, (run_main_environ utcoffset) by assumption. simpl.
      split; [by rewrite lookup_insert_ne, lookup_insert_eq | by rewrite lookup_insert_eq].
  - (* the secret is missing *)
    destruct Hload as [e Hload].
    assert (Hacts : actions_of (and_then etl.load_config (λ _, etl.main utcoffset)) w
                    = [ReadConfig "dl.cfg"; SetEnv "AWS_ACCESS_KEY_ID" key_id]).
    { apply actions_of_run. unfold and_then. by rewrite Hload. }
    unfold and_then in Hacts. rewrite Hacts. rewrite Hload.
    split; [|split].
    + eexists. split; [reflexivity|]. repeat constructor; intros; discriminate.
    + intros _. split; [eauto|]. split; [reflexivity|].
      repeat constructor; intros Ha; inversion Ha.
    + intros [_ [v Hv]%Hsec]. discriminate.
  - (* the key id is missing *)
    destruct Hload as [e Hload].
    assert (Hacts : actions_of (and_then etl.load_config (λ _, etl.main utcoffset)) w
                    = [ReadConfig "dl.cfg"]).
    { apply actions_of_run. unfold and_then. by rewrite Hload. }
    unfold and_then in Hacts. rewrite Hacts. rewrite Hload.
    split; [|split].
    + eexists. split; [reflexivity|]. constructor.
    + intros _. split; [eauto|]. split; [reflexivity|].
      repeat constructor; intros Ha; inversion Ha.
    + intros [[v Hv]%Hid _]. discriminate.
Qed.

(** The sample world at work: its log spells the session column as the
    source does, so the script runs to its end, the credentials are in the
    environment and the five tables are in the store. *)
Example store_world_runs :
  (etl.script Scenario.utc Store.world).2 = Ok tt ∧
  environ (etl.script Scenario.utc Store.world).1 !! "AWS_ACCESS_KEY_ID"
    = Some "AKIAEXAMPLE" ∧
  environ (etl.script Scenario.utc Store.world).1 !! "AWS_SECRET_ACCESS_KEY"
    = Some "secret" ∧
  storage (etl.script Scenario.utc Store.world).1 !! songs_path
    = Some Store.songs_written ∧
  ((λ t, count (data t)) <$>
     storage (etl.script Scenario.utc Store.world).1 !! songplays_path)
    = Some 3%nat.
Proof. repeat split; vm_compute; reflexivity. Qed.

(** Without [dl.cfg] the script stops at line 12: the read of the file is
    its only action. *)
Example no_config_file :
  let w := {| files := ∅; environ := ∅; storage := storage Store.world; trace := [] |} in
  (etl.script Scenario.utc w).2 = Err (KeyError "KEYS") ∧
  trace (etl.script Scenario.utc w).1 = [ReadConfig "dl.cfg"].
Proof. split; vm_compute; reflexivity. Qed.

(** With the log of the specification, whose session column is
    [sessionId], the script writes four tables and raises at the select of
    the fifth. *)
Example specified_log_raises :
  let w := {| files := files Store.world; environ := ∅;
              storage := <[log_data_path :=
                             {| partition_cols := [];
                                data := {| columns := ["page"; "song"; "userId"; "firstName";
                                                       "lastName"; "gender"; "ts"; "level";
                                                       "sessionId"; "location"; "userAgent"];
                                           partitions := partitions Sample.log_df |} |}]>
                           (storage Store.world);
              trace := [] |} in
  (etl.script Scenario.utc w).2 = Err (AnalysisException "cannot resolve ssessionId") ∧
  storage (etl.script Scenario.utc w).1 !! songplays_path = None ∧
  is_Some (storage (etl.script Scenario.utc w).1 !! time_path).
Proof. repeat split; vm_compute; eauto. Qed.

(** * The second-epoch udf

    [int(x)/1000] is a float division; for a [ts] below 2^53 the float it
    yields, truncated, is the integer quotient. *)

Lemma digits2_pos_size (p : positive) : digits2_pos p = Pos.size p.
Proof. induction p; simpl; congruence. Qed.

Lemma Zdigits2_log2 (p : positive) : Zdigits2 (Zpos p) = Z.log2 (Zpos p) + 1.
Proof.
  simpl. rewrite digits2_pos_size. destruct p; simpl; try reflexivity; lia.
Qed.

Lemma Zdigits2_bounds (p : positive) :
  2 ^ (Zdigits2 (Zpos p) - 1) <= Zpos p < 2 ^ Zdigits2 (Zpos p).
Proof.
  rewrite Zdigits2_log2. replace (Z.log2 (Zpos p) + 1 - 1) with (Z.log2 (Zpos p)) by lia.
  replace (Z.log2 (Zpos p) + 1) with (Z.succ (Z.log2 (Zpos p))) by lia.
  apply Z.log2_spec. lia.
Qed.

Lemma Zdigits2_unique (m k : Z) :
  2 ^ (k - 1) <= m < 2 ^ k -> 0 < k -> Zdigits2 m = k.
Proof.
  intros H Hk. assert (0 < m) by (pose proof (Z.pow_pos_nonneg 2 (k - 1)); lia).
  destruct m as [|p|p]; try lia.
  rewrite Zdigits2_log2. 
  assert (Z.log2 (Zpos p) = k - 1); [|lia].
  apply Z.log2_unique; [lia|]. replace (Z.succ (k - 1)) with k by lia. exact H.
Qed.

Lemma div_eucl_div_mod (a b : Z) : Z.div_eucl a b = (a / b, a mod b).
Proof. unfold Z.div, Z.modulo. destruct (Z.div_eucl a b). reflexivity. Qed.

(** The quotient and remainder that [SFdiv] rounds, for an int of at most
    53 bits over 1000: the int is first shifted to 63 bits. *)
Lemma div_core (m : positive) :
  Zpos m < 2 ^ 53 ->
  let L := 63 - Zdigits2 (Zpos m) in
  SFdiv_core_binary 53 1024 (Zpos m) 0 1000 0 =
  ((Zpos m * 2 ^ L) / 1000, - L, new_location 1000 ((Zpos m * 2 ^ L) mod 1000)).
Proof.
  intros Hm L. pose proof (Zdigits2_bounds m) as Hd.
  assert (Hd1 : 1 <= Zdigits2 (Zpos m)) by (simpl; lia).
  assert (Hd53 : Zdigits2 (Zpos m) <= 53).
  { destruct (Z.le_gt_cases (Zdigits2 (Zpos m)) 53) as [|Hgt]; [assumption|].
    assert (2 ^ 53 <= 2 ^ (Zdigits2 (Zpos m) - 1)) by (apply Z.pow_le_mono_r; lia). lia. }
  unfold SFdiv_core_binary.
  change (Zdigits2 1000) with 10.
  unfold fexp, emin.
  rewrite Z.max_l by lia. rewrite Z.min_l by lia.
  replace (0 - 0 - (Zdigits2 (Zpos m) + 0 - (10 + 0) - 53)) with L by (unfold L; lia).
  replace (Zdigits2 (Zpos m) + 0 - (10 + 0) - 53) with (- L) by (unfold L; lia).
  assert (HL : 0 < L) by (unfold L; lia).
  destruct L as [|pl|pl] eqn:HLe; try lia.
  rewrite Z.shiftl_mul_pow2 by lia.
  rewrite div_eucl_div_mod. reflexivity.
Qed.

Lemma pow2_52 : 2 ^ 52 = 4503599627370496. Proof. reflexivity. Qed.
Lemma pow2_53 : 2 ^ 53 = 9007199254740992. Proof. reflexivity. Qed.
Lemma pow2_54 : 2 ^ 54 = 18014398509481984. Proof. reflexivity. Qed.

Lemma shr_fexp_53 (m e : Z) (l : location) :
  2 ^ 52 <= m < 2 ^ 53 -> -1021 <= e ->
  shr_fexp 53 1024 m e l = (shr_record_of_loc m l, e).
Proof.
  intros Hm He. unfold shr_fexp.
  rewrite (Zdigits2_unique m 53) by (change (53 - 1) with 52; lia).
  unfold fexp, emin. rewrite Z.max_l by lia.
  replace (53 + e - 53 - e) with 0 by lia. reflexivity.
Qed.

Lemma shr_fexp_54 (m e : Z) (l : location) :
  2 ^ 53 <= m < 2 ^ 54 -> -1022 <= e ->
  shr_fexp 53 1024 m e l = (shr_1 (shr_record_of_loc m l), e + 1).
Proof.
  intros Hm He. unfold shr_fexp.
  rewrite (Zdigits2_unique m 54) by (change (54 - 1) with 53; lia).
  unfold fexp, emin. rewrite Z.max_l by lia.
  replace (54 + e - 53 - e) with 1 by lia. reflexivity.
Qed.

Lemma shr_1_m (mrs : shr_record) :
  0 <= shr_m mrs -> shr_m (shr_1 mrs) = shr_m mrs / 2.
Proof.
  destruct mrs as [m r s]. simpl. intros Hm.
  destruct m as [|[p|p|]|p]; try lia; cbn [shr_1 shr_m].
  - reflexivity.
  - apply Z.div_unique with 1; lia.
  - apply Z.div_unique with 0; lia.
  - reflexivity.
Qed.

Lemma shr_1_r (mrs : shr_record) :
  0 <= shr_m mrs -> shr_r (shr_1 mrs) = Z.odd (shr_m mrs).
Proof.
  destruct mrs as [m r s]. simpl. intros Hm.
  destruct m as [|[p|p|]|p]; try lia; reflexivity.
Qed.

Lemma shr_m_of_loc (m : Z) (l : location) : shr_m (shr_record_of_loc m l) = m.
Proof. destruct l as [|[]]; reflexivity. Qed.

Lemma round_rec (mrs : shr_record) :
  let m' := round_nearest_even (shr_m mrs) (loc_of_shr_record mrs) in
  m' = shr_m mrs \/ (m' = shr_m mrs + 1 /\ shr_r mrs = true).
Proof.
  destruct mrs as [m [] []]; simpl; try destruct (Z.even m); auto.
Qed.

Lemma binary_round_aux_tail (mx e : Z) (l : location) :
  binary_round_aux 53 1024 false mx e l =
  round_tail (round_nearest_even (shr_m (fst (shr_fexp 53 1024 mx e l)))
                                 (loc_of_shr_record (fst (shr_fexp 53 1024 mx e l))))
             (snd (shr_fexp 53 1024 mx e l)).
Proof.
  unfold binary_round_aux, round_tail.
  destruct (shr_fexp 53 1024 mx e l) as [mrs' e']. reflexivity.
Qed.

Lemma round_tail_floor (mx e : Z) :
  2 ^ 52 <= mx <= 2 ^ 53 -> -1021 <= e <= -2 ->
  exists mf ef, round_tail mx e = S754_finite false mf ef /\ ef < 0 /\
                Zpos mf / 2 ^ (- ef) = mx / 2 ^ (- e).
Proof.
  intros Hm He. unfold round_tail.
  destruct (Z.eq_dec mx (2 ^ 53)) as [->|Hne].
  - rewrite shr_fexp_54 by (rewrite ?pow2_53, ?pow2_54; lia).
    cbv beta iota. rewrite shr_1_m by (simpl; lia). simpl shr_m.
    change (2 ^ 53 / 2) with (Zpos 4503599627370496).
    cbv beta iota.
    replace (e + 1 <=? 1024 - 53) with true by (symmetry; apply Z.leb_le; lia).
    eexists _, _. split; [reflexivity|]. split; [lia|].
    replace (- e) with (1 + (- (e + 1))) by lia.
    rewrite Z.pow_add_r by lia. rewrite <- Z.div_div by lia. reflexivity.
  - rewrite shr_fexp_53 by lia. cbv beta iota. simpl shr_m.
    destruct mx as [|p|p]; try (rewrite pow2_52 in Hm; lia).
    replace (e <=? 1024 - 53) with true by (symmetry; apply Z.leb_le; lia).
    eexists _, _. split; [reflexivity|]. split; [lia|]. reflexivity.
Qed.

Lemma round_aux_floor (q L : Z) (l : location) :
  2 ^ 52 <= q < 2 ^ 54 -> 10 <= L <= 62 ->
  exists mf ef,
    binary_round_aux 53 1024 false q (- L) l = S754_finite false mf ef /\ ef < 0 /\
    (Zpos mf / 2 ^ (- ef) = q / 2 ^ L \/ Zpos mf / 2 ^ (- ef) = (q + 1) / 2 ^ L).
Proof.
  intros Hq HL. rewrite binary_round_aux_tail.
  rewrite pow2_52, pow2_54 in Hq.
  destruct (Z.lt_ge_cases q (2 ^ 53)) as [Hlt|Hge]; rewrite pow2_53 in *.
  - rewrite shr_fexp_53 by (rewrite ?pow2_52, ?pow2_53; lia).
    cbn [fst snd].
    pose proof (round_rec (shr_record_of_loc q l)) as Hr. cbv zeta in Hr.
    rewrite shr_m_of_loc in *.
    set (m' := round_nearest_even q (loc_of_shr_record (shr_record_of_loc q l))) in *.
    destruct (round_tail_floor m' (- L)) as (mf & ef & Ht & Hef & Hv).
    { rewrite pow2_52, pow2_53. destruct Hr as [->|[-> _]]; lia. }
    { lia. }
    exists mf, ef. split; [assumption|]. split; [assumption|].
    rewrite Hv. replace (- - L) with L by lia.
    destruct Hr as [->|[-> _]]; auto.
  - rewrite shr_fexp_54 by (rewrite ?pow2_53, ?pow2_54; lia).
    cbn [fst snd].
    pose proof (round_rec (shr_1 (shr_record_of_loc q l))) as Hr. cbv zeta in Hr.
    rewrite shr_1_r, shr_1_m, shr_m_of_loc in Hr by (rewrite shr_m_of_loc; lia).
    rewrite shr_1_m, shr_m_of_loc by (rewrite shr_m_of_loc; lia).
    set (m' := round_nearest_even (q / 2)
                 (loc_of_shr_record (shr_1 (shr_record_of_loc q l)))) in *.
    assert (Hq2 : 4503599627370496 <= q / 2 < 9007199254740992).
    { split; [apply Z.div_le_lower_bound | apply Z.div_lt_upper_bound]; lia. }
    destruct (round_tail_floor m' (- L + 1)) as (mf & ef & Ht & Hef & Hv).
    { rewrite pow2_52, pow2_53. destruct Hr as [->|[-> _]]; lia. }
    { lia. }
    exists mf, ef. split; [assumption|]. split; [assumption|].
    rewrite Hv. replace (- (- L + 1)) with (L - 1) by lia.
    assert (Hpow : 2 ^ L = 2 * 2 ^ (L - 1)).
    { replace L with (1 + (L - 1)) at 1 by lia. rewrite Z.pow_add_r by lia. reflexivity. }
    assert (Hp : 0 < 2 ^ (L - 1)) by (apply Z.pow_pos_nonneg; lia).
    destruct Hr as [->|[-> Hodd]].
    + left. rewrite Hpow, Z.div_div by lia. reflexivity.
    + right. rewrite Hpow, <- Z.div_div by lia. f_equal.
      rewrite Z.odd_spec in Hodd. destruct Hodd as [k ->].
      replace (2 * k + 1 + 1) with ((k + 1) * 2) by lia.
      rewrite Z.div_mul by lia.
      replace (2 * k + 1) with (1 + k * 2) by lia. rewrite Z.div_add by lia.
      reflexivity.
Qed.

Lemma floor_div_1000 (ts L : Z) :
  0 <= ts -> 10 <= L ->
  (ts * 2 ^ L / 1000) / 2 ^ L = ts / 1000 /\
  (ts * 2 ^ L / 1000 + 1) / 2 ^ L = ts / 1000.
Proof.
  intros Hts HL.
  assert (HP : 1024 <= 2 ^ L).
  { change 1024 with (2 ^ 10). apply Z.pow_le_mono_r; lia. }
  set (P := 2 ^ L) in *.
  assert (H1 : ts * P / 1000 / P = ts / 1000).
  { rewrite Z.div_div by lia. rewrite Z.div_mul_cancel_r by lia. reflexivity. }
  split; [exact H1|].
  set (q := ts * P / 1000) in *.
  pose proof (Z.div_mod (ts * P) 1000 ltac:(lia)) as HN. fold q in HN.
  pose proof (Z.mod_pos_bound (ts * P) 1000 ltac:(lia)) as Hr.
  pose proof (Z.div_mod ts 1000 ltac:(lia)) as Hts'.
  pose proof (Z.mod_pos_bound ts 1000 ltac:(lia)) as HR.
  set (Q := ts / 1000) in *. set (R := ts mod 1000) in *. set (r := (ts * P) mod 1000) in *.
  symmetry. apply Z.div_unique with (q + 1 - Q * P); [|lia].
  left. split.
  - pose proof (Z.mul_div_le q P ltac:(lia)). rewrite H1 in H. lia.
  - assert (R * P <= 999 * P) by (apply Z.mul_le_mono_nonneg_r; lia).
    assert (ts * P = 1000 * (Q * P) + R * P) by (rewrite Hts' at 1; ring).
    lia.
Qed.

(** [C10] For a nonnegative [ts] below 2^53, [get_timestamp] returns the
    decimal string of [ts] divided by 1000, rounded towards zero: the
    binary64 quotient never reaches the next integer. *)
Theorem get_timestamp_floor (ts : Z) :
  0 <= ts < 2 ^ 53 →
  etl.get_timestamp (VLong ts) = Ok (VString (Py.str_int (ts / 1000))).
Proof.
  intros [Hts Hlt]. unfold etl.get_timestamp. cbn [Py.int bind mbind result_bind].
  destruct ts as [|m|m]; [reflexivity| |lia].
  unfold Py.int_truediv, Py.prec, Py.emax. change (Z.pos m <? 0) with false.
  unfold SFdiv. rewrite (div_core m Hlt). cbv zeta. cbn [xorb].
  pose proof (Zdigits2_bounds m) as Hd.
  assert (Hd1 : 1 <= Zdigits2 (Zpos m)) by (simpl; lia).
  assert (Hd53 : Zdigits2 (Zpos m) <= 53).
  { destruct (Z.le_gt_cases (Zdigits2 (Zpos m)) 53) as [|Hgt]; [assumption|].
    assert (2 ^ 53 <= 2 ^ (Zdigits2 (Zpos m) - 1)) by (apply Z.pow_le_mono_r; lia). lia. }
  set (L := 63 - Zdigits2 (Zpos m)) in *.
  assert (HN : 2 ^ 62 <= Zpos m * 2 ^ L < 2 ^ 63).
  { assert (E62 : 2 ^ 62 = 2 ^ (Zdigits2 (Zpos m) - 1) * 2 ^ L).
    { rewrite <- Z.pow_add_r by (unfold L; lia). f_equal. unfold L. lia. }
    assert (E63 : 2 ^ 63 = 2 ^ Zdigits2 (Zpos m) * 2 ^ L).
    { rewrite <- Z.pow_add_r by (unfold L; lia). f_equal. unfold L. lia. }
    assert (0 < 2 ^ L) by (apply Z.pow_pos_nonneg; unfold L; lia).
    rewrite E62, E63.
    split; [apply Z.mul_le_mono_nonneg_r | apply Z.mul_lt_mono_pos_r]; lia. }
  assert (Hq : 2 ^ 52 <= Zpos m * 2 ^ L / 1000 < 2 ^ 54).
  { change (2 ^ 62) with 4611686018427387904 in HN.
    change (2 ^ 63) with 9223372036854775808 in HN.
    rewrite pow2_52, pow2_54.
    split; [apply Z.div_le_lower_bound | apply Z.div_lt_upper_bound]; lia. }
  destruct (round_aux_floor _ L (new_location 1000 ((Zpos m * 2 ^ L) mod 1000)) Hq)
    as (mf & ef & -> & Hef & Hv); [unfold L; lia|].
  cbn [bind mbind result_bind Py.int_of_float cond_Zopp].
  replace (0 <=? ef) with false by (symmetry; apply Z.leb_gt; lia).
  destruct (floor_div_1000 (Zpos m) L) as [H1 H2]; [lia | unfold L; lia |].
  do 3 f_equal. destruct Hv as [-> | ->]; assumption.
Qed.

Lemma get_timestamp_floor_witness :
  0 <= 1541990258796 < 2 ^ 53 ∧
  etl.get_timestamp (VLong 1541990258796) = Ok (VString "1541990258").
Proof.
  split; [split; [lia | reflexivity]|].
  apply (get_timestamp_floor 1541990258796). split; [lia | reflexivity].
Defined.

(** * The course of a run

    [main] replayed step by step: its actions and its result are those of
    [main_plan] on the two data sets of the world it starts from. *)

Lemma read_json_run (path : string) (w : World) :
  spark.read_json path w =
  (run [ReadJson path] w,
   match storage w !! path with
   | Some t => Ok (data t)
   | None => Err (missing_path path)
   end).
Proof. unfold spark.read_json. destruct (storage w !! path); reflexivity. Qed.

Lemma write_parquet_run (df : DataFrame) (by_cols : list string) (path : string)
    (w : World) (ps : list nat) :
  traverse (resolve (columns df)) by_cols = Ok ps →
  spark.write_parquet df by_cols path Overwrite w =
  (run [write_action path by_cols df] w, Ok tt).
Proof. intros H. unfold spark.write_parquet. rewrite H. reflexivity. Qed.

(** The partition columns of the three partitioned tables are columns of
    theirs, so the writes of [main] never fail on them. *)
Lemma songs_table_partition_cols (df t : DataFrame) :
  etl.songs_table df = Ok t →
  traverse (resolve (columns t)) ["year"; "artist_id"] = Ok [3; 2]%nat.
Proof.
  unfold etl.songs_table. intros H. inv_Ok H. rename a into p.
  pose proof (λ key i Hm, getitem_key_resolves _ _ _ key i Hm Ha) as Hkey.
  pose proof (Hkey "song_id" 0%nat eq_refl) as H0.
  pose proof (Hkey "year" 3%nat eq_refl) as H3.
  pose proof (Hkey "artist_id" 2%nat eq_refl) as H2.
  destruct (dropDuplicates_one _ _ _ _ H0 H) as (Hc & _).
  rewrite Hc. rewrite !traverse_cons, H3. simpl. rewrite H2. reflexivity.
Qed.

Lemma time_table_columns (df t : DataFrame) :
  etl.time_table df = Ok t → columns t = time_columns.
Proof.
  unfold etl.time_table. intros H. inv_Ok H. rename a into p.
  destruct (time_select_Ok _ _ Ha) as (i & _ & Hcols & _).
  assert (Hi : resolve (columns p) "start_time" = Ok 0%nat) by by rewrite Hcols.
  destruct (dropDuplicates_one _ _ _ _ Hi H) as (Hc & _). congruence.
Qed.

Lemma songplays_table_columns (j t : DataFrame) :
  etl.songplays_table j = Ok t → columns t = songplays_columns.
Proof. intros H. apply songplays_table_Ok in H as (p & H). tauto. Qed.

Lemma storage_run_inputs (acts : list Action) (w : World) (path : string) :
  last_write path acts = None →
  storage (run acts w) !! path = storage w !! path.
Proof. intros H. by rewrite run_storage, H. Qed.

Lemma process_song_data_run (w : World) :
  etl.process_song_data "s3a://udacity-dend/" "s3a://gharibudacity/" w =
  (run (song_stage (storage w !! song_data_path)).1 w,
   (song_stage (storage w !! song_data_path)).2).
Proof.
  unfold etl.process_song_data, and_then. rewrite read_json_run.
  change ("s3a://udacity-dend/" +:+ "song_data/A/A/*/*.json") with song_data_path.
  unfold song_stage.
  destruct (storage w !! song_data_path) as [song|]; [|reflexivity].
  unfold lift. destruct (etl.songs_table (data song)) as [songs|e] eqn:Hsongs;
    [|reflexivity].
  rewrite (write_parquet_run _ _ _ _ _ (songs_table_partition_cols _ _ Hsongs)).
  destruct (etl.artists_table (data song)) as [artists|e]; reflexivity.
Qed.

Lemma process_log_data_run (utcoffset : Z → Z) (w : World) :
  etl.process_log_data utcoffset "s3a://udacity-dend/" "s3a://gharibudacity/" w =
  (run (log_stage utcoffset (storage w !! log_data_path)
          (storage w !! song_data_path)).1 w,
   (log_stage utcoffset (storage w !! log_data_path)
      (storage w !! song_data_path)).2).
Proof.
  unfold etl.process_log_data, and_then. rewrite read_json_run.
  change ("s3a://udacity-dend/" +:+ "log_data/*/*/*.json") with log_data_path.
  change ("s3a://udacity-dend/" +:+ "song_data/A/A/*/*.json") with song_data_path.
  unfold log_stage.
  destruct (storage w !! log_data_path) as [log|]; [|reflexivity].
  unfold lift, users_of, time_of, songplays_of, event_frame, songplays.
  destruct (etl.next_song (data log)) as [df|e]; [|reflexivity].
  cbn [bind mbind result_bind].
  destruct (etl.users_table df) as [users|e]; [|reflexivity].
  rewrite (write_parquet_run _ _ _ _ []) by reflexivity.
  destruct (etl.with_timestamp df) as [df1|e]; [|reflexivity].
  cbn [bind mbind result_bind].
  destruct (etl.with_datetime utcoffset df1) as [df2|e]; [|reflexivity].
  cbn [bind mbind result_bind].
  destruct (etl.time_table df2) as [time|e] eqn:Htime; [|reflexivity].
  rewrite (write_parquet_run _ _ _ _ [5; 4]%nat)
    by (by rewrite (time_table_columns _ _ Htime)).
  rewrite read_json_run.
  rewrite !storage_run_inputs by reflexivity.
  destruct (storage w !! song_data_path) as [song|]; [|reflexivity].
  destruct (etl.join_songs df2 (data song)) as [j|e]; [|reflexivity].
  cbn [bind mbind result_bind].
  destruct (etl.songplays_table j) as [sp|e] eqn:Hsp; [|reflexivity].
  rewrite (write_parquet_run _ _ _ _ [8; 9]%nat)
    by (by rewrite (songplays_table_columns _ _ Hsp)).
  reflexivity.
Qed.

Lemma song_stage_last_write (song : option Table) (path : string) :
  path ≠ songs_path → path ≠ artists_path →
  last_write path (song_stage song).1 = None.
Proof.
  intros H1 H2. unfold song_stage.
  destruct song as [song|]; [|reflexivity].
  destruct (etl.songs_table _); [|reflexivity].
  destruct (etl.artists_table _); simpl; repeat destruct (decide _); congruence.
Qed.

Lemma main_run (utcoffset : Z → Z) (w : World) :
  etl.main utcoffset w =
  (run (main_plan utcoffset (storage w !! song_data_path)
          (storage w !! log_data_path)).1 w,
   (main_plan utcoffset (storage w !! song_data_path)
      (storage w !! log_data_path)).2).
Proof.
  unfold etl.main, and_then, etl.create_spark_session, spark.getOrCreate.
  rewrite process_song_data_run. unfold main_plan.
  change (storage (record (GetOrCreateSession "org.apache.hadoop:hadoop-aws:2.7.0") w))
    with (storage w).
  destruct (song_stage (storage w !! song_data_path)) as [acts [[]|e]] eqn:Hs;
    [|reflexivity].
  simpl. rewrite process_log_data_run.
  assert (Ha : acts = (song_stage (storage w !! song_data_path)).1) by by rewrite Hs.
  rewrite !storage_run_inputs by (rewrite Ha; by apply song_stage_last_write).
  change (record (GetOrCreateSession "org.apache.hadoop:hadoop-aws:2.7.0") w)
    with (run [session_action] w).
  by rewrite <- !run_app.
Qed.

(** A table is under its path after the replay of a literal action list. *)
Ltac stored := unfold table_at; rewrite run_storage; reflexivity.

(** Membership in a literal list. *)
Ltac listed :=
  repeat first [apply list_elem_of_here | apply list_elem_of_further].

(** ** What a run stores *)

(** [X1] When [main] returns normally, both data sets were there, each of
    the five tables could be computed from them, and the store holds each
    table under its path: songs split by year and artist_id, artists and
    users unsplit, time and songplays split by year and month. *)
Theorem main_stores_tables (utcoffset : Z → Z) (w : World) :
  (etl.main utcoffset w).2 = Ok tt →
  tables_of_inputs utcoffset w (etl.main utcoffset w).1.
Proof.
  rewrite main_run. cbn [fst snd]. unfold main_plan, song_stage, log_stage.
  destruct (storage w !! song_data_path) as [song|] eqn:Hsong; [|discriminate].
  destruct (etl.songs_table (data song)) as [songs|] eqn:Hsongs; [|discriminate].
  destruct (etl.artists_table (data song)) as [artists|] eqn:Hartists; [|discriminate].
  destruct (storage w !! log_data_path) as [log|] eqn:Hlog; [|discriminate].
  destruct (users_of (data log)) as [users|] eqn:Husers; [|discriminate].
  destruct (time_of utcoffset (data log)) as [time|] eqn:Htime; [|discriminate].
  destruct (songplays_of utcoffset (data log) (data song)) as [sp|] eqn:Hsp;
    [|discriminate].
  intros _. exists song, log, songs, artists, users, time, sp.
  cbn [fst snd]. repeat (split; [first [assumption | reflexivity | stored]|]). stored.
Qed.

Lemma main_stores_tables_witness :
  (etl.main Scenario.utc Store.world).2 = Ok tt ∧
  tables_of_inputs Scenario.utc Store.world (etl.main Scenario.utc Store.world).1.
Proof.
  assert (H : (etl.main Scenario.utc Store.world).2 = Ok tt) by (vm_compute; reflexivity).
  split; [exact H | exact (main_stores_tables Scenario.utc Store.world H)].
Defined.

(** [X2] Nothing is rolled back.  A table is in the store as soon as it
    has been computed, whatever happens later in the run: the songs table
    when it can be computed from the song data, then the artists table,
    then the users table of the log, then the time table; and when the
    songplays table can be computed as well, the run ends normally. *)
Theorem tables_written_as_computed (utcoffset : Z → Z) (w : World)
    (song : Table) (songs : DataFrame) :
  storage w !! song_data_path = Some song →
  etl.songs_table (data song) = Ok songs →
  let out := etl.main utcoffset w in
  table_at out.1 songs_path ["year"; "artist_id"] songs ∧
  ∀ artists, etl.artists_table (data song) = Ok artists →
    table_at out.1 artists_path [] artists ∧
    ∀ log users, storage w !! log_data_path = Some log →
      users_of (data log) = Ok users →
      table_at out.1 users_path [] users ∧
      ∀ time, time_of utcoffset (data log) = Ok time →
        table_at out.1 time_path ["year"; "month"] time ∧
        ∀ sp, songplays_of utcoffset (data log) (data song) = Ok sp →
          table_at out.1 songplays_path ["year"; "month"] sp ∧ out.2 = Ok tt.
Proof.
  intros Hsong Hsongs. cbn zeta. rewrite main_run. cbn [fst snd].
  unfold main_plan, song_stage, log_stage. rewrite Hsong, Hsongs.
  split.
  { destruct (etl.artists_table (data song)); [|stored].
    destruct (storage w !! log_data_path) as [log|]; [|stored].
    destruct (users_of (data log)); [|stored].
    destruct (time_of utcoffset (data log)); [|stored].
    destruct (songplays_of utcoffset (data log) (data song)); stored. }
  intros artists ->. split.
  { destruct (storage w !! log_data_path) as [log|]; [|stored].
    destruct (users_of (data log)); [|stored].
    destruct (time_of utcoffset (data log)); [|stored].
    destruct (songplays_of utcoffset (data log) (data song)); stored. }
  intros log users -> ->. split.
  { destruct (time_of utcoffset (data log)); [|stored].
    destruct (songplays_of utcoffset (data log) (data song)); stored. }
  intros time ->. split.
  { destruct (songplays_of utcoffset (data log) (data song)); stored. }
  intros sp ->. split; [stored | reflexivity].
Qed.

(** With the log as the event records spell it the run fails, and the
    songs table is in the store all the same. *)
Lemma tables_written_as_computed_witness :
  (∃ e, (etl.main Scenario.utc Standard.world).2 = Err e) ∧
  ∃ song songs,
    storage Standard.world !! song_data_path = Some song ∧
    etl.songs_table (data song) = Ok songs ∧
    table_at (etl.main Scenario.utc Standard.world).1 songs_path
      ["year"; "artist_id"] songs.
Proof.
  split; [eexists; vm_compute; reflexivity|]. eexists _, _.
  assert (H1 : storage Standard.world !! song_data_path
               = Some {| partition_cols := []; data := Store.song_df |})
    by (vm_compute; reflexivity).
  assert (H2 : etl.songs_table (data {| partition_cols := []; data := Store.song_df |})
               = Ok (data Store.songs_written))
    by (vm_compute; reflexivity).
  split; [exact H1|]. split; [exact H2|].
  exact (proj1 (tables_written_as_computed Scenario.utc Standard.world _ _ H1 H2)).
Defined.

(** ** What a run never does *)

(** The select of the songplays table needs a column [ssessionId] in the
    log or in the song data. *)
Lemma songplays_of_needs_ssessionId (utcoffset : Z → Z) (log song_df sp : DataFrame) :
  songplays_of utcoffset log song_df = Ok sp →
  matches (columns log) "ssessionId" ≠ [] ∨ matches (columns song_df) "ssessionId" ≠ [].
Proof.
  unfold songplays_of, songplays, etl.join_songs.
  intros (df & Hdf & H)%bind_Ok.
  apply bind_Ok in H as (j & Hj & H).
  apply bind_Ok in Hj as (title & _ & Hj).
  apply bind_Ok in Hj as (song & _ & [= <-]).
  apply event_frame_columns in Hdf.
  apply songplays_table_needs_ssessionId in H as [i Hi%resolve_Ok].
  unfold DF.join in Hi. cbn [columns] in Hi.
  unfold matches in Hi. rewrite matches_from_app in Hi.
  rewrite (matches_from_shift (0 + _)) in Hi.
  fold (matches (columns df) "ssessionId") in Hi.
  rewrite Hdf, event_frame_matches in Hi by reflexivity.
  destruct (matches (columns log) "ssessionId") as [|k ks]; [|by left].
  right. intros Hs. rewrite Hs in Hi. discriminate.
Qed.

Lemma last_write_app (path : string) (acts1 acts2 : list Action) :
  last_write path acts1 = None → last_write path acts2 = None →
  last_write path (acts1 ++ acts2) = None.
Proof.
  intros H1 H2. induction acts1 as [|a acts1 IH]; simpl in *; [assumption|].
  destruct (last_write path acts1); [discriminate|]. by rewrite IH.
Qed.

Lemma log_stage_without_songplays (utcoffset : Z → Z) (log song : option Table) :
  (∀ l s sp, log = Some l → song = Some s →
     songplays_of utcoffset (data l) (data s) ≠ Ok sp) →
  (∃ e, (log_stage utcoffset log song).2 = Err e) ∧
  last_write songplays_path (log_stage utcoffset log song).1 = None.
Proof.
  intros Hno. unfold log_stage.
  destruct log as [l|]; [|eauto].
  destruct (users_of (data l)); [|eauto].
  destruct (time_of utcoffset (data l)); [|eauto].
  destruct song as [s|]; [|eauto].
  destruct (songplays_of utcoffset (data l) (data s)) as [sp|e] eqn:Hsp; [|eauto].
  by destruct (Hno l s sp).
Qed.

(** [X3] When neither data set has a column named [ssessionId], in any
    letter case, [main] never ends normally and never writes the songplays
    table: the path of the table holds after the run what it held before.
    The event records have [sessionId], so this is every run on them. *)
Theorem songplays_never_written (utcoffset : Z → Z) (w : World) :
  lacks_column (storage w !! log_data_path) "ssessionId" →
  lacks_column (storage w !! song_data_path) "ssessionId" →
  (∃ e, (etl.main utcoffset w).2 = Err e) ∧
  storage (etl.main utcoffset w).1 !! songplays_path = storage w !! songplays_path.
Proof.
  intros Hlog Hsong. rewrite main_run. cbn [fst snd].
  destruct (log_stage_without_songplays utcoffset
              (storage w !! log_data_path) (storage w !! song_data_path))
    as [[e He] Hlw].
  { intros l s sp Hl Hs Hsp.
    destruct (songplays_of_needs_ssessionId _ _ _ _ Hsp) as [H|H];
      [by apply H, Hlog | by apply H, Hsong]. }
  pose proof (song_stage_last_write (storage w !! song_data_path) songplays_path)
    as Hsw.
  unfold main_plan.
  destruct (song_stage (storage w !! song_data_path)) as [acts [[]|e']];
    cbn [fst snd] in *.
  - split; [eauto|]. apply storage_run_inputs.
    change (session_action :: acts ++ ?l) with (([session_action] ++ acts) ++ l).
    apply last_write_app; [|assumption].
    apply last_write_app; [reflexivity|]. by apply Hsw.
  - split; [eauto|]. apply storage_run_inputs. simpl. by rewrite Hsw.
Qed.

Lemma songplays_never_written_witness :
  lacks_column (storage Standard.world !! log_data_path) "ssessionId" ∧
  lacks_column (storage Standard.world !! song_data_path) "ssessionId" ∧
  (∃ e, (etl.main Scenario.utc Standard.world).2 = Err e) ∧
  storage (etl.main Scenario.utc Standard.world).1 !! songplays_path
    = storage Standard.world !! songplays_path.
Proof.
  assert (H1 : lacks_column (storage Standard.world !! log_data_path) "ssessionId").
  { intros t Ht. vm_compute in Ht. injection Ht as <-. reflexivity. }
  assert (H2 : lacks_column (storage Standard.world !! song_data_path) "ssessionId").
  { intros t Ht. vm_compute in Ht. injection Ht as <-. reflexivity. }
  split; [exact H1|]. split; [exact H2|].
  exact (songplays_never_written Scenario.utc Standard.world H1 H2).
Defined.

Lemma script_action_frame (utcoffset : Z → Z) (acts : list Action) (w : World) :
  Forall (script_action utcoffset) acts →
  (∀ path, path ∉ output_paths → last_write path acts = None) ∧
  (∀ key, key ∉ ["AWS_ACCESS_KEY_ID"; "AWS_SECRET_ACCESS_KEY"] →
     environ (run acts w) !! key = environ w !! key).
Proof.
  intros H. revert w. induction H as [|a acts Ha _ IH]; intros w.
  - split; reflexivity.
  - split.
    + intros path Hp. simpl. rewrite (proj1 (IH w) path Hp).
      destruct Ha as [| | |a Ha]; [reflexivity..|].
      destruct Ha; try reflexivity; simpl;
        (destruct (decide _) as [<-|]; [|reflexivity]);
        exfalso; apply Hp; unfold output_paths; listed.
    + intros key Hk. simpl. rewrite (proj2 (IH _) key Hk).
      destruct Ha as [|v|v|a Ha]; simpl; [reflexivity| | |by destruct Ha];
        apply lookup_insert_ne; intros <-; apply Hk; listed.
Qed.

(** [X4] Whatever the world and however the run ends, the script changes
    no local file, nothing in the store outside its five output paths (its
    two inputs among the rest), and no environment variable but the two
    credentials; and it only adds to the history of actions. *)
Theorem script_touches_only_outputs (utcoffset : Z → Z) (w : World) :
  only_outputs_touched w (etl.script utcoffset w).1.
Proof.
  destruct (script_Det utcoffset w w (same_inputs_refl w))
    as (acts & -> & _ & _ & HP & _).
  destruct (script_action_frame utcoffset acts w HP) as [Hs He].
  split; [apply run_files|]. split; [|split].
  - intros path Hp. apply storage_run_inputs. by apply Hs.
  - exact He.
  - rewrite run_trace. by apply prefix_app_r.
Qed.

(** ** Inputs that are missing or cannot be converted *)

(** [X5] Without the song data [main] stops at its first read: the
    session and the read are its only actions, nothing is stored, and the
    error names the path.  Without the log, however the song stage goes,
    the run ends in an error and none of the users, time and songplays
    tables is written. *)
Theorem missing_data_set (utcoffset : Z → Z) (w : World) :
  (storage w !! song_data_path = None →
   etl.main utcoffset w =
     (run [session_action; ReadJson song_data_path] w,
      Err (missing_path song_data_path))) ∧
  (storage w !! log_data_path = None →
   (∃ e, (etl.main utcoffset w).2 = Err e) ∧
   ∀ path, path ∈ [users_path; time_path; songplays_path] →
     storage (etl.main utcoffset w).1 !! path = storage w !! path).
Proof.
  split.
  - intros H. rewrite main_run, H. reflexivity.
  - intros H. rewrite main_run, H. cbn [fst snd]. unfold main_plan, song_stage.
    assert (Hp : ∀ path, path ∈ [users_path; time_path; songplays_path] →
              path ≠ songs_path ∧ path ≠ artists_path).
    { intros path Hin.
      repeat (apply elem_of_cons in Hin as [->|Hin]; [by split|]). inversion Hin. }
    destruct (storage w !! song_data_path) as [song|].
    + destruct (etl.songs_table (data song)) as [songs|e].
      * destruct (etl.artists_table (data song)) as [artists|e];
          (split; [eauto|]); intros path [H1 H2]%Hp;
          apply storage_run_inputs; simpl; repeat destruct (decide _); congruence.
      * split; [eauto|]. intros path _. by apply storage_run_inputs.
    + split; [eauto|]. intros path _. by apply storage_run_inputs.
Qed.

(** A play event whose [ts] the udf cannot convert leaves no time table. *)
Lemma time_of_needs_every_ts (utcoffset : Z → Z) (log : DataFrame) (page ts : nat)
    (e : Row) (err : Error) :
  well_formed log →
  DF.attr log "page" = Ok page → DF.attr log "ts" = Ok ts →
  e ∈ collect log → cell e page = VString "NextSong" →
  etl.get_datetime utcoffset (cell e ts) = Err err →
  ∃ err', time_of utcoffset log = Err err'.
Proof.
  intros Hwf Hpage Hts He Hp Herr.
  destruct (time_of utcoffset log) as [t|err'] eqn:Ht; [|eauto].
  destruct (time_of_rows _ _ _ Hwf Ht) as (page' & ts' & Hpage' & Hts' & _ & _ & Hall).
  assert (page' = page) as -> by congruence. assert (ts' = ts) as -> by congruence.
  destruct (Hall e He Hp) as (r & _ & Hr). congruence.
Qed.

(** [X6] One play event is enough to fail the run: when the udf of line
    87 raises on the [ts] of a single event whose page is NextSong (a
    null, say, on which [int] raises TypeError), [main] ends in an error
    and the songplays table is not written.  (What the overwrite of line
    101, in the course of which the error comes up, leaves under the path
    of the time table is not stated.) *)
Theorem unconvertible_ts_fails_run (utcoffset : Z → Z) (w : World) (log : Table)
    (page ts : nat) (e : Row) (err : Error) :
  storage w !! log_data_path = Some log →
  well_formed (data log) →
  DF.attr (data log) "page" = Ok page → DF.attr (data log) "ts" = Ok ts →
  e ∈ collect (data log) → cell e page = VString "NextSong" →
  etl.get_datetime utcoffset (cell e ts) = Err err →
  (∃ err', (etl.main utcoffset w).2 = Err err') ∧
  storage (etl.main utcoffset w).1 !! songplays_path = storage w !! songplays_path.
Proof.
  intros Hlog Hwf Hpage Hts He Hp Herr.
  destruct (time_of_needs_every_ts _ _ _ _ _ _ Hwf Hpage Hts He Hp Herr) as [err' Ht].
  rewrite main_run, Hlog. cbn [fst snd]. unfold main_plan, song_stage, log_stage.
  rewrite Ht.
  destruct (storage w !! song_data_path) as [song|];
    [|split; [eauto|]; by apply storage_run_inputs].
  destruct (etl.songs_table (data song)) as [songs|];
    [|split; [eauto|]; by apply storage_run_inputs].
  destruct (etl.artists_table (data song)) as [artists|];
    [|split; [eauto|]; by apply storage_run_inputs].
  destruct (users_of (data log)) as [users|];
    (split; [eauto|]; by apply storage_run_inputs).
Qed.

Lemma unconvertible_ts_fails_run_witness :
  (∃ err', (etl.main Scenario.utc Standard.no_ts_world).2 = Err err') ∧
  storage (etl.main Scenario.utc Standard.no_ts_world).1 !! songplays_path
    = storage Standard.no_ts_world !! songplays_path.
Proof.
  apply (unconvertible_ts_fails_run Scenario.utc Standard.no_ts_world Standard.no_ts_log
           0%nat 6%nat Standard.no_ts_event Py.TypeError).
  - vm_compute. reflexivity.
  - intros r Hr. apply list_elem_of_In in Hr. vm_compute in Hr.
    destruct Hr as [<-|[<-|[]]]; reflexivity.
  - vm_compute. reflexivity.
  - vm_compute. reflexivity.
  - apply list_elem_of_In. vm_compute. auto.
  - reflexivity.
  - reflexivity.
Defined.

(** ** The order of the actions *)

(** [X7] A run of [main] that ends normally takes nine actions, in this
    order: the session; the read of the song data and the writes of songs
    and artists; the read of the log and the writes of users and time; a
    second read of the song data and the write of songplays. *)
Theorem main_success_actions (utcoffset : Z → Z) (w : World) :
  (etl.main utcoffset w).2 = Ok tt →
  ∃ songs artists users time sp,
    actions_of (etl.main utcoffset) w = actions_of_success songs artists users time sp.
Proof.
  intros H. rewrite main_run in H. cbn [snd] in H.
  rewrite (actions_of_run _ _ _ (f_equal fst (main_run utcoffset w))).
  unfold main_plan, song_stage, log_stage in *.
  destruct (storage w !! song_data_path) as [song|]; [|discriminate].
  destruct (etl.songs_table (data song)) as [songs|]; [|discriminate].
  destruct (etl.artists_table (data song)) as [artists|]; [|discriminate].
  destruct (storage w !! log_data_path) as [log|]; [|discriminate].
  destruct (users_of (data log)) as [users|]; [|discriminate].
  destruct (time_of utcoffset (data log)) as [time|]; [|discriminate].
  destruct (songplays_of utcoffset (data log) (data song)) as [sp|]; [|discriminate].
  by exists songs, artists, users, time, sp.
Qed.

Lemma main_success_actions_witness :
  (etl.main Scenario.utc Store.world).2 = Ok tt ∧
  ∃ songs artists users time sp,
    actions_of (etl.main Scenario.utc) Store.world
      = actions_of_success songs artists users time sp.
Proof.
  assert (H : (etl.main Scenario.utc Store.world).2 = Ok tt) by (vm_compute; reflexivity).
  split; [exact H | exact (main_success_actions Scenario.utc Store.world H)].
Defined.

(** ** A configuration file that lacks a credential *)

Lemma getitem_KEYS_value (d : gmap string string) (s : gmap string (gmap string string))
    (opts : gmap string string) (name : string) :
  s !! "KEYS" = Some opts →
  configparser.getitem {| configparser._defaults := d; configparser._sections := s |}
    "KEYS" name =
  match option_value d opts name with
  | Some v => Ok v
  | None => Err (KeyError name)
  end.
Proof.
  intros Hs. unfold configparser.getitem, configparser.has_option,
    configparser.has_section, option_value.
  cbn [configparser._defaults configparser._sections].
  rewrite Hs. rewrite bool_decide_eq_false_2 by discriminate.
  rewrite bool_decide_eq_true_2 by done.
  destruct (decide ("KEYS" = configparser.default_section)) as [?|_]; [discriminate|].
  change (default ∅ (Some opts)) with opts. cbn [negb andb].
  destruct (opts !! lower name) as [v|]; destruct (d !! lower name) as [v'|];
    rewrite ?(bool_decide_eq_true_2 (is_Some (Some _))) by done;
    rewrite ?(bool_decide_eq_false_2 (is_Some None)) by (by intros [? ?]);
    reflexivity.
Qed.

(** [X8] What the script does when [dl.cfg] lacks what line 12 asks
    for.  No [dl.cfg], or one without a [KEYS] section: KeyError KEYS.  A
    [KEYS] section without the key id, in the section or in [DEFAULT]:
    KeyError AWS_ACCESS_KEY_ID.  A file the parser rejects: the error of
    the parser.  In each case the read of the file is the only action of
    the run: nothing is put in the environment, and [main] does not
    start. *)
Theorem config_errors (utcoffset : Z → Z) (w : World) : config_outcome utcoffset w.
Proof.
  unfold config_outcome, etl.script, etl.load_config, and_then, configparser.read, lift.
  destruct (files w !! "dl.cfg") as [[|d s]|]; [eauto| |reflexivity].
  destruct (s !! "KEYS") as [opts|] eqn:Hs.
  - rewrite !(getitem_KEYS_value _ _ _ _ Hs).
    destruct (option_value d opts "AWS_ACCESS_KEY_ID") as [key_id|]; [exact I|].
    reflexivity.
  - unfold configparser.getitem, configparser.has_section.
    cbn [configparser._sections]. rewrite Hs. reflexivity.
Qed.

(** * The tables as projections *)

Lemma project_dedup_rows (df t : DataFrame) (names : list string) (key : string) :
  matches names key = [0%nat] →
  (let* p := DF.getitem df names in DF.dropDuplicates p [key]) = Ok t →
  one_row_per_key df t names.
Proof.
  intros Hm H. apply bind_Ok in H as (p & Hp & H).
  pose proof (getitem_key_resolves _ _ _ _ _ Hm Hp) as H0.
  destruct (getitem_Ok _ _ _ Hp) as (ps & Hps & _ & Hpp).
  destruct (dropDuplicates_one _ _ _ _ H0 H) as (_ & Hnd & Hsub & Hall).
  assert (Hc : collect p = project ps <$> collect df).
  { unfold collect. rewrite Hpp. apply collect_map. }
  exists ps. split; [assumption|]. split; [assumption|]. split.
  - intros r Hr%Hsub. rewrite Hc in Hr.
    apply list_elem_of_fmap in Hr as (e & -> & He). eauto.
  - intros e He. apply Hall. rewrite Hc. by apply list_elem_of_fmap_2.
Qed.

(** [X9] The songs, artists and users tables hold exactly one row for
    each key of the frame they are cut from: every row of a table is a row
    of the frame cut down to the five columns of the table, no key occurs
    twice, and no key of the frame is lost.  (Which of the rows of a key
    is kept is left open.) *)
Theorem keyed_tables_cover (df t : DataFrame) :
  (etl.songs_table df = Ok t → one_row_per_key df t songs_names) ∧
  (etl.artists_table df = Ok t → one_row_per_key df t artists_names) ∧
  (etl.users_table df = Ok t → one_row_per_key df t users_names).
Proof. split; [|split]; by apply project_dedup_rows. Qed.

(** ** When process_song_data succeeds *)

Lemma col_total (schema : list string) (name : string) (i : nat) :
  resolve schema name = Ok i → ∃ b, col name schema = Ok b.
Proof. intros H. unfold col. rewrite H. simpl. eauto. Qed.

Lemma getitem_total (df : DataFrame) (names : list string) :
  Forall (has_column df) names → ∃ t, DF.getitem df names = Ok t.
Proof.
  intros H. unfold DF.getitem, DF.select.
  assert (Hbs : ∃ bs, traverse (λ c : Column, c (columns df)) (col <$> names) = Ok bs).
  { induction H as [|name names [i Hi] _ [bs IH]].
    - by exists [].
    - destruct (col_total _ _ _ Hi) as [b Hb]. exists (b :: bs).
      rewrite fmap_cons, traverse_cons, Hb. simpl. rewrite IH. reflexivity. }
  destruct Hbs as [bs ->]. simpl. eauto.
Qed.

Lemma project_dedup_Ok_iff (df : DataFrame) (names : list string) (key : string)
    (i : nat) :
  matches names key = [i] →
  (∃ t, (let* p := DF.getitem df names in DF.dropDuplicates p [key]) = Ok t) ↔
  Forall (has_column df) names.
Proof.
  intros Hm. split.
  - intros (t & (p & Hp & _)%bind_Ok).
    destruct (getitem_Ok _ _ _ Hp) as (ps & Hps & _).
    clear -Hps. induction Hps; constructor; [by eexists | assumption].
  - intros [p Hp]%getitem_total. rewrite Hp. cbn [bind mbind result_bind].
    pose proof (getitem_key_resolves _ _ _ _ _ Hm Hp) as Hk.
    unfold DF.dropDuplicates. rewrite (subset_positions_one _ _ _ Hk).
    simpl. eauto.
Qed.

(** Takes a [Forall] over a literal list apart. *)
Ltac split_Forall :=
  repeat match goal with
  | H : Forall _ (_ :: _) |- _ => apply Forall_cons in H as [? H]
  end.

(** [X11] [process_song_data] ends normally exactly when there is song
    data under its path and each of the nine names it selects denotes one
    column of the data, letter case apart; the writes themselves cannot
    fail, whatever the output root. *)
Theorem process_song_data_succeeds (input_data output_data : string) (w : World) :
  (etl.process_song_data input_data output_data w).2 = Ok tt ↔
  ∃ song, storage w !! (input_data +:+ "song_data/A/A/*/*.json") = Some song ∧
          Forall (has_column (data song)) catalog_names.
Proof.
  assert (Hsongs : ∀ df, (∃ t, etl.songs_table df = Ok t) ↔
                          Forall (has_column df) songs_names)
    by (intros df; apply (project_dedup_Ok_iff df songs_names "song_id" 0%nat eq_refl)).
  assert (Hartists : ∀ df, (∃ t, etl.artists_table df = Ok t) ↔
                            Forall (has_column df) artists_names)
    by (intros df; apply (project_dedup_Ok_iff df artists_names "artist_id" 0%nat eq_refl)).
  unfold etl.process_song_data, and_then. rewrite read_json_run.
  destruct (storage w !! (input_data +:+ "song_data/A/A/*/*.json")) as [song|];
    [|split; [discriminate | by intros (? & ? & _)]].
  unfold lift.
  destruct (etl.songs_table (data song)) as [songs|e] eqn:Hs.
  - rewrite (write_parquet_run _ _ _ _ _ (songs_table_partition_cols _ _ Hs)).
    destruct (etl.artists_table (data song)) as [artists|e] eqn:Ha.
    + rewrite (write_parquet_run _ _ _ _ []) by reflexivity.
      split; [intros _ | reflexivity]. exists song. split; [reflexivity|].
      assert (H1 : Forall (has_column (data song)) songs_names)
        by (apply Hsongs; eauto).
      assert (H2 : Forall (has_column (data song)) artists_names)
        by (apply Hartists; eauto).
      unfold catalog_names. unfold songs_names in H1. unfold artists_names in H2.
      split_Forall. repeat constructor; assumption.
    + split; [discriminate|]. intros (song' & [= <-] & H). exfalso.
      assert (H2 : Forall (has_column (data song)) artists_names).
      { unfold catalog_names in H. unfold artists_names.
        split_Forall. repeat constructor; assumption. }
      apply Hartists in H2 as [t Ht]. congruence.
  - split; [discriminate|]. intros (song' & [= <-] & H). exfalso.
    assert (H1 : Forall (has_column (data song)) songs_names).
    { unfold catalog_names in H. unfold songs_names.
      split_Forall. repeat constructor; assumption. }
    apply Hsongs in H1 as [t Ht]. congruence.
Qed.

(** ** The output root *)

Lemma get_app_end (s : string) (c : ascii) :
  String.get (String.length s) (s +:+ String c "") = Some c.
Proof. induction s as [|a s IH]; [reflexivity | exact IH]. Qed.

Lemma length_app_string (s t : string) :
  String.length (s +:+ t) = (String.length s + String.length t)%nat.
Proof.
  induction s as [|a s IH]; [reflexivity|].
  change (S (String.length (s +:+ t)) = S (String.length s + String.length t)).
  by rewrite IH.
Qed.

Lemma ends_with_slash_app (s : string) : os.ends_with_slash (s +:+ "/") = true.
Proof.
  unfold os.ends_with_slash. rewrite length_app_string. simpl.
  replace (String.length s + 1 - 1)%nat with (String.length s) by lia.
  by rewrite get_app_end.
Qed.

Lemma app_assoc_string (a b c : string) : (a +:+ b) +:+ c = a +:+ (b +:+ c).
Proof.
  induction a as [|x a IH]; [reflexivity|].
  change (String x ((a +:+ b) +:+ c) = String x (a +:+ (b +:+ c))).
  by rewrite IH.
Qed.

Lemma path_join_slash (a b : string) :
  a ≠ "" → os.ends_with_slash a = false →
  os.path_join (a +:+ "/") b = os.path_join a b.
Proof.
  intros Ha Hs. unfold os.path_join. destruct (F.char_at b 0 "/"); [reflexivity|].
  rewrite ends_with_slash_app, Hs, orb_true_r.
  destruct a as [|x a]; [done|]. cbn [String.eqb orb].
  apply app_assoc_string.
Qed.

(** [X12] The output root may be given with or without its final slash:
    the paths are built by [os.path.join], so both stages do the same with
    either.  (The input root is glued to the patterns as it is, so there
    the slash is needed.) *)
Theorem output_root_trailing_slash (utcoffset : Z → Z) (input_data output_data : string) :
  output_data ≠ "" → os.ends_with_slash output_data = false →
  etl.process_song_data input_data (output_data +:+ "/")
    = etl.process_song_data input_data output_data ∧
  etl.process_log_data utcoffset input_data (output_data +:+ "/")
    = etl.process_log_data utcoffset input_data output_data.
Proof.
  intros H1 H2. unfold etl.process_song_data, etl.process_log_data.
  by rewrite !(path_join_slash _ _ H1 H2).
Qed.

Lemma output_root_trailing_slash_witness :
  etl.process_song_data "s3a://udacity-dend/" ("s3a://gharibudacity" +:+ "/")
    = etl.process_song_data "s3a://udacity-dend/" "s3a://gharibudacity" ∧
  etl.process_log_data Scenario.utc "s3a://udacity-dend/" ("s3a://gharibudacity" +:+ "/")
    = etl.process_log_data Scenario.utc "s3a://udacity-dend/" "s3a://gharibudacity".
Proof.
  apply (output_root_trailing_slash Scenario.utc "s3a://udacity-dend/"
           "s3a://gharibudacity"); [discriminate | reflexivity].
Defined.

(** * Two runs *)

(** ** Every path is written once *)

(** A path written once in a run holds, after the run, the table written
    there. *)
Lemma last_write_written (path : string) (t : Table) (acts : list Action) :
  NoDup (written_paths acts) → WriteParquet path t ∈ acts →
  last_write path acts = Some t.
Proof.
  induction acts as [|a acts IH]; intros Hnd Hin; [by apply elem_of_nil in Hin|].
  apply elem_of_cons in Hin as [<-|Hin].
  - simpl in *. apply NoDup_cons in Hnd as [Hnot _].
    destruct (last_write path acts) as [t'|] eqn:Hl.
    + exfalso. apply Hnot. clear -Hl.
      induction acts as [|a acts IH]; [discriminate|]. simpl in Hl.
      destruct (last_write path acts) as [t''|].
      * destruct a; simpl; try apply elem_of_cons; auto.
      * destruct a as [| | | |p t0]; try discriminate.
        destruct (decide (p = path)) as [->|]; [|discriminate].
        simpl. apply elem_of_cons. auto.
    + by rewrite decide_True.
  - simpl. rewrite IH; [reflexivity| |assumption].
    destruct a; simpl in Hnd; try assumption. by apply NoDup_cons in Hnd as [_ ?].
Qed.

Lemma main_plan_writes_once (utcoffset : Z → Z) (song log : option Table) :
  NoDup (written_paths (main_plan utcoffset song log).1).
Proof.
  unfold main_plan, song_stage, log_stage.
  destruct song as [song|]; [|apply NoDup_nil_2].
  destruct (etl.songs_table (data song)) as [songs|]; [|apply NoDup_nil_2].
  destruct (etl.artists_table (data song)) as [artists|];
    [|by apply (bool_decide_unpack _)].
  destruct log as [log|]; [|by apply (bool_decide_unpack _)].
  destruct (users_of (data log)) as [users|]; [|by apply (bool_decide_unpack _)].
  destruct (time_of utcoffset (data log)) as [time|]; [|by apply (bool_decide_unpack _)].
  destruct (songplays_of utcoffset (data log) (data song)) as [sp|];
    by apply (bool_decide_unpack _).
Qed.

(** The script replayed: the read of the configuration and at most two
    assignments, then, with both credentials, the plan of [main]. *)
Lemma script_run (utcoffset : Z → Z) (w : World) :
  ∃ cfg, written_paths cfg = [] ∧
    ((∃ e, etl.script utcoffset w = (run cfg w, Err e)) ∨
     etl.script utcoffset w =
       (run (cfg ++ (main_plan utcoffset (storage w !! song_data_path)
                       (storage w !! log_data_path)).1) w,
        (main_plan utcoffset (storage w !! song_data_path)
           (storage w !! log_data_path)).2)).
Proof.
  pose proof (load_config_spec w) as H. unfold etl.script, and_then.
  destruct (credential w "AWS_ACCESS_KEY_ID") as [key_id|];
    [destruct (credential w "AWS_SECRET_ACCESS_KEY") as [secret|]|].
  - eexists. split; [|right; rewrite H, main_run].
    2: { rewrite !storage_run_inputs by reflexivity. by rewrite <- run_app. }
    reflexivity.
  - destruct H as [e H]. eexists. split; [|left; exists e; by rewrite H]. reflexivity.
  - destruct H as [e H]. eexists. split; [|left; exists e; by rewrite H]. reflexivity.
Qed.

Lemma written_paths_app (acts1 acts2 : list Action) :
  written_paths (acts1 ++ acts2) = written_paths acts1 ++ written_paths acts2.
Proof. apply omap_app. Qed.

Lemma script_writes_once (utcoffset : Z → Z) (w : World) :
  NoDup (written_paths (actions_of (etl.script utcoffset) w)).
Proof.
  destruct (script_run utcoffset w) as (cfg & Hcfg & [[e H]|H]).
  - rewrite (actions_of_run _ _ cfg) by by rewrite H. rewrite Hcfg. apply NoDup_nil_2.
  - rewrite (actions_of_run _ _ _ (f_equal fst H)).
    rewrite written_paths_app, Hcfg. apply main_plan_writes_once.
Qed.

(** A normal end of the script leaves the five tables of the inputs. *)
Lemma script_stores_tables (utcoffset : Z → Z) (w : World) :
  (etl.script utcoffset w).2 = Ok tt →
  tables_of_inputs utcoffset w (etl.script utcoffset w).1.
Proof.
  destruct (script_run utcoffset w) as (cfg & Hcfg & [[e H]|H]); rewrite H;
    [discriminate|].
  cbn [fst snd]. unfold main_plan, song_stage, log_stage.
  destruct (storage w !! song_data_path) as [song|] eqn:Hsong; [|discriminate].
  destruct (etl.songs_table (data song)) as [songs|] eqn:Hsongs; [|discriminate].
  destruct (etl.artists_table (data song)) as [artists|] eqn:Hartists; [|discriminate].
  destruct (storage w !! log_data_path) as [log|] eqn:Hlog; [|discriminate].
  destruct (users_of (data log)) as [users|] eqn:Husers; [|discriminate].
  destruct (time_of utcoffset (data log)) as [time|] eqn:Htime; [|discriminate].
  destruct (songplays_of utcoffset (data log) (data song)) as [sp|] eqn:Hsp;
    [|discriminate].
  intros _. exists song, log, songs, artists, users, time, sp.
  cbn [fst snd].
  repeat (split; [first [assumption | reflexivity
                        | unfold table_at; rewrite run_app, run_storage; reflexivity]|]).
  unfold table_at; rewrite run_app, run_storage; reflexivity.
Qed.

Lemma tables_of_same_inputs (utcoffset : Z → Z) (w wa w' : World) :
  same_inputs w wa → tables_of_inputs utcoffset wa w' → tables_of_inputs utcoffset w w'.
Proof.
  intros (_ & Hs & Hl) (song & log & songs & artists & users & time & sp & H1 & H2 & H).
  exists song, log, songs, artists, users, time, sp.
  rewrite Hs, Hl. auto.
Qed.

(** ** The choices of the engine

    Which row of a key dropDuplicates keeps, and the order of the rows,
    are the engine's to choose.  When no two rows of a key differ, the
    choice shows in the order of the rows only. *)

Lemma one_row_per_key_rows (df t t' : DataFrame) (names : list string) :
  key_determines_row df names →
  one_row_per_key df t names → one_row_per_key df t' names →
  collect t ≡ₚ collect t'.
Proof.
  intros Hk (ps & Hps & Hnd & Hfrom & Hall) (ps' & Hps' & Hnd' & Hfrom' & Hall').
  assert (ps' = ps) as ->.
  { clear -Hps Hps'. revert ps' Hps'.
    induction Hps as [|name i names ps Hi _ IH]; intros ps' H; inversion H; subst;
      [reflexivity|]. f_equal; [congruence | by apply IH]. }
  assert (Hsub : ∀ t1 t2,
    (∀ r, r ∈ collect t1 → ∃ e, e ∈ collect df ∧ r = project ps e) →
    (∀ r, r ∈ collect t2 → ∃ e, e ∈ collect df ∧ r = project ps e) →
    (∀ e, e ∈ collect df → ∃ r, r ∈ collect t2 ∧ cell r 0 = cell (project ps e) 0) →
    ∀ r, r ∈ collect t1 → r ∈ collect t2).
  { intros t1 t2 H1 H2 H3 r (e & He & ->)%H1.
    destruct (H3 e He) as (r' & Hr' & Hkey).
    destruct (H2 r' Hr') as (e' & He' & ->).
    by rewrite <- (Hk ps Hps e' e He' He Hkey). }
  apply NoDup_Permutation.
  - eapply NoDup_fmap_1. exact Hnd.
  - eapply NoDup_fmap_1. exact Hnd'.
  - intros r. split; eauto.
Qed.

Lemma rows_fixed_of (df t : DataFrame) (names : list string) :
  one_row_per_key df t names → rows_fixed df t names.
Proof.
  intros H. split; [assumption|]. intros Hk t' H'. by eapply one_row_per_key_rows.
Qed.

Lemma time_outcome_rows (utcoffset : Z → Z) (log t t' : DataFrame) :
  time_outcome utcoffset log t → time_outcome utcoffset log t' →
  collect t ≡ₚ collect t'.
Proof.
  intros (page & ts & Hp & Hts & Hnd & Hfrom & Hall)
         (page' & ts' & Hp' & Hts' & Hnd' & Hfrom' & Hall').
  assert (page' = page) as -> by congruence. assert (ts' = ts) as -> by congruence.
  assert (Hsub : ∀ t1 t2,
    (∀ r, r ∈ collect t1 →
       ∃ e, e ∈ collect log ∧ cell e page = VString "NextSong" ∧
            etl.get_datetime utcoffset (cell e ts) = Ok (cell r 0) ∧
            r = time_row (cell r 0)) →
    (∀ r, r ∈ collect t2 →
       ∃ e, e ∈ collect log ∧ cell e page = VString "NextSong" ∧
            etl.get_datetime utcoffset (cell e ts) = Ok (cell r 0) ∧
            r = time_row (cell r 0)) →
    (∀ e, e ∈ collect log → cell e page = VString "NextSong" →
       ∃ r, r ∈ collect t2 ∧ etl.get_datetime utcoffset (cell e ts) = Ok (cell r 0)) →
    ∀ r, r ∈ collect t1 → r ∈ collect t2).
  { intros t1 t2 H1 H2 H3 r Hr.
    destruct (H1 r Hr) as (e & He & Hn & Hd & Hrow).
    destruct (H3 e He Hn) as (r' & Hr' & Hd').
    destruct (H2 r' Hr') as (_ & _ & _ & _ & Hrow').
    assert (cell r' 0 = cell r 0) as Heq by congruence.
    rewrite Hrow, <- Heq, <- Hrow'. assumption. }
  apply NoDup_Permutation.
  - eapply NoDup_fmap_1. exact Hnd.
  - eapply NoDup_fmap_1. exact Hnd'.
  - intros r. split; eauto.
Qed.

Lemma time_of_outcome (utcoffset : Z → Z) (log t : DataFrame) :
  well_formed log → time_of utcoffset log = Ok t → time_outcome utcoffset log t.
Proof.
  intros Hwf H.
  destruct (time_of_rows _ _ _ Hwf H) as (page & ts & Hp & Hts & Hc & Hfrom & Hall).
  exists page, ts. split; [assumption|]. split; [assumption|].
  split; [|split; assumption].
  unfold time_of in H. apply bind_Ok in H as (df & _ & H).
  destruct (time_table_unique _ _ H) as (i & Hi & Hnd).
  rewrite Hc in Hi. by injection Hi as <-.
Qed.

(** [C6] Two runs of the script in one time zone, the second on the world
    the first run left.  The first run leaves its inputs alone; from any
    world with these inputs a run takes the same actions and ends alike,
    and each path it writes then holds the table just written, whatever
    it held before; so the second run leaves the store as the first run
    left it, and after a normal end the five tables are those computed
    from the inputs.  This is equality of the tables of the store, where
    the engine resolves its choices alike in both runs; apart from those
    choices, the rows of songs, artists and users are fixed whenever no
    two rows of a key differ, and those of the time table always. *)
Theorem rerun_same_tables (utcoffset : Z → Z) (w : World) :
  rerun_contract utcoffset w.
Proof.
  unfold rerun_contract. cbv zeta.
  assert (Hdet : ∀ wa, same_inputs w wa →
    actions_of (etl.script utcoffset) wa = actions_of (etl.script utcoffset) w ∧
    (etl.script utcoffset wa).2 = (etl.script utcoffset w).2 ∧
    (etl.script utcoffset wa).1 = run (actions_of (etl.script utcoffset) w) wa ∧
    same_inputs w (etl.script utcoffset w).1).
  { intros wa Hwa.
    destruct (script_Det utcoffset w wa Hwa) as (acts & Hrun & Hrun' & Hres & HP & _).
    rewrite (actions_of_run _ _ _ Hrun), (actions_of_run _ _ _ Hrun').
    split; [reflexivity|]. split; [by symmetry|]. split; [assumption|].
    rewrite Hrun. by eapply script_keeps_inputs. }
  destruct (Hdet w (same_inputs_refl w)) as (_ & _ & Hfirst & Hsame).
  destruct (Hdet _ Hsame) as (_ & Hres2 & Hsecond & _).
  split; [assumption|]. split; [|split; [|split; [|split; [|split]]]].
  - intros wa Hwa. destruct (Hdet wa Hwa) as (Hacts & Hres & Hrun & _).
    split; [assumption|]. split; [assumption|]. intros path t Hin.
    rewrite Hrun, run_storage.
    by rewrite (last_write_written _ _ _ (script_writes_once utcoffset w) Hin).
  - rewrite Hsecond, Hfirst. apply run_twice_storage.
  - assumption.
  - intros Hok. split; [by apply script_stores_tables|].
    eapply tables_of_same_inputs; [exact Hsame|].
    apply script_stores_tables. by rewrite Hres2.
  - intros song songs artists _. split; intros H; apply rows_fixed_of; revert H;
      by apply project_dedup_rows.
  - intros log kept users time _. split.
    + intros _ H. apply rows_fixed_of. revert H. by apply project_dedup_rows.
    + intros Hwf H. pose proof (time_of_outcome _ _ _ Hwf H) as Ht.
      split; [assumption|]. intros t' Ht'. by eapply time_outcome_rows.
Qed.

(** [C6] Without the proviso of one time zone the claim fails: after a
    first run in UTC, a second run five hours west of Greenwich, on the
    same inputs, leaves another time table. *)
Lemma rerun_in_another_time_zone :
  let first := etl.script Scenario.utc Store.world in
  let second := etl.script Zones.eastern first.1 in
  first.2 = Ok tt ∧ second.2 = Ok tt ∧ same_inputs Store.world first.1 ∧
  (∃ t, storage first.1 !! time_path = Some t ∧
        collect (data t) = [time_row (VString "2018-11-12 02:37:38.796000")]) ∧
  (∃ t, storage second.1 !! time_path = Some t ∧
        collect (data t) = [time_row (VString "2018-11-11 21:37:38.796000")]).
Proof.
  cbv zeta. split; [vm_compute; reflexivity|]. split; [vm_compute; reflexivity|].
  split; [repeat split; vm_compute; reflexivity|].
  split; eexists; (split; [vm_compute; reflexivity|]); vm_compute; reflexivity.
Qed.

(** Nor are the rows fixed when two rows of a key differ: of a user whose
    level changed, either row may be the one that is kept. *)
Lemma conflict_events (e : Row) :
  e ∈ collect Conflict.events ↔ e = Conflict.free ∨ e = Conflict.paid.
Proof.
  change (collect Conflict.events) with [Conflict.free; Conflict.paid].
  rewrite !elem_of_cons, elem_of_nil. tauto.
Qed.

Lemma conflict_positions (ps : list nat) :
  Forall2 (λ name i, resolve (columns Conflict.events) name = Ok i) users_names ps ↔
  ps = [0; 1; 2; 3; 4]%nat.
Proof.
  split.
  - intros H. unfold users_names in H. inv_Forall2 H.
    vm_compute in Hb, Hb0, Hb1, Hb2, Hb3. congruence.
  - intros ->. repeat constructor.
Qed.

Lemma conflict_kept (r : Row) :
  r = Conflict.free ∨ r = Conflict.paid →
  one_row_per_key Conflict.events (Conflict.kept r) users_names.
Proof.
  intros Hr. exists [0; 1; 2; 3; 4]%nat. split; [by apply conflict_positions|].
  change (collect (Conflict.kept r)) with [r].
  split; [apply NoDup_singleton|]. split.
  - intros r' ->%list_elem_of_singleton.
    exists r. split; [by apply conflict_events|]. by destruct Hr as [-> | ->].
  - intros e [-> | ->]%conflict_events; exists r;
      (split; [by apply list_elem_of_singleton|]); by destruct Hr as [-> | ->].
Qed.

Example conflicting_rows_two_tables :
  one_row_per_key Conflict.events (Conflict.kept Conflict.free) users_names ∧
  one_row_per_key Conflict.events (Conflict.kept Conflict.paid) users_names ∧
  ¬ collect (Conflict.kept Conflict.free) ≡ₚ collect (Conflict.kept Conflict.paid) ∧
  ¬ key_determines_row Conflict.events users_names.
Proof.
  split; [apply conflict_kept; auto|]. split; [apply conflict_kept; auto|]. split.
  - change (¬ [Conflict.free] ≡ₚ [Conflict.paid]).
    intros H%Permutation_singleton_l. discriminate.
  - intros H.
    specialize (H [0; 1; 2; 3; 4]%nat (proj2 (conflict_positions _) eq_refl)
                  Conflict.free Conflict.paid).
    discriminate H; [apply conflict_events; auto..|reflexivity].
Qed.

(** * The udfs on other inputs *)

(** ** The second-epoch udf on either side of the epoch *)

(** The sign of a rounded number is the sign it is given. *)
Lemma binary_round_aux_opp (mx e : Z) (l : location) :
  binary_round_aux 53 1024 true mx e l = SFopp (binary_round_aux 53 1024 false mx e l).
Proof.
  unfold binary_round_aux.
  destruct (shr_fexp 53 1024 mx e l) as [mrs' e'].
  destruct (shr_fexp 53 1024 _ e' loc_Exact) as [mrs'' e''].
  destruct (shr_m mrs'') as [|m|m]; [reflexivity| |reflexivity].
  by destruct (e'' <=? 1024 - 53).
Qed.

(** An int of at most 53 bits over 1000, as a float: its integral part is
    the integer quotient. *)
Lemma truediv_1000 (s : bool) (m : positive) :
  Zpos m < 2 ^ 53 →
  ∃ mf ef,
    SFdiv 53 1024 (S754_finite s m 0) (S754_finite false 1000 0) = S754_finite s mf ef ∧
    ef < 0 ∧ Zpos mf / 2 ^ (- ef) = Zpos m / 1000.
Proof.
  intros Hlt. unfold SFdiv. rewrite (div_core m Hlt). cbv zeta.
  pose proof (Zdigits2_bounds m) as Hd.
  assert (Hd1 : 1 <= Zdigits2 (Zpos m)) by (simpl; lia).
  assert (Hd53 : Zdigits2 (Zpos m) <= 53).
  { destruct (Z.le_gt_cases (Zdigits2 (Zpos m)) 53) as [|Hgt]; [assumption|].
    assert (2 ^ 53 <= 2 ^ (Zdigits2 (Zpos m) - 1)) by (apply Z.pow_le_mono_r; lia).
    lia. }
  set (L := 63 - Zdigits2 (Zpos m)) in *.
  assert (HL : 10 <= L <= 62) by (unfold L; lia).
  assert (HN : 2 ^ 62 <= Zpos m * 2 ^ L < 2 ^ 63).
  { assert (E62 : 2 ^ 62 = 2 ^ (Zdigits2 (Zpos m) - 1) * 2 ^ L).
    { rewrite <- Z.pow_add_r by lia. f_equal. unfold L. lia. }
    assert (E63 : 2 ^ 63 = 2 ^ Zdigits2 (Zpos m) * 2 ^ L).
    { rewrite <- Z.pow_add_r by lia. f_equal. unfold L. lia. }
    assert (0 < 2 ^ L) by (apply Z.pow_pos_nonneg; lia).
    rewrite E62, E63.
    split; [apply Z.mul_le_mono_nonneg_r | apply Z.mul_lt_mono_pos_r]; lia. }
  assert (Hq : 2 ^ 52 <= Zpos m * 2 ^ L / 1000 < 2 ^ 54).
  { change (2 ^ 62) with 4611686018427387904 in HN.
    change (2 ^ 63) with 9223372036854775808 in HN.
    rewrite pow2_52, pow2_54.
    split; [apply Z.div_le_lower_bound | apply Z.div_lt_upper_bound]; lia. }
  destruct (round_aux_floor _ L (new_location 1000 ((Zpos m * 2 ^ L) mod 1000)) Hq HL)
    as (mf & ef & Hr & Hef & Hv).
  destruct (floor_div_1000 (Zpos m) L) as [H1 H2]; [lia..|].
  exists mf, ef. split; [|split; [assumption|]].
  - destruct s; cbn [xorb]; [rewrite binary_round_aux_opp|]; rewrite Hr; reflexivity.
  - destruct Hv as [-> | ->]; assumption.
Qed.

(** [X13] On either side of the epoch: for a [ts] of at most 53 bits,
    negative or not, [get_timestamp] returns the decimal string of the
    seconds rounded towards zero, so a [ts] before the epoch gets a second
    later than the floor: -1 ms prints as 0, -1500 ms as -1. *)
Theorem get_timestamp_towards_zero (ts : Z) :
  - 2 ^ 53 < ts < 2 ^ 53 →
  etl.get_timestamp (VLong ts) = Ok (VString (Py.str_int (Z.quot ts 1000))).
Proof.
  intros [Hlo Hhi]. unfold etl.get_timestamp. cbn [Py.int bind mbind result_bind].
  destruct ts as [|m|m]; [reflexivity| |].
  - unfold Py.int_truediv, Py.prec, Py.emax. change (Z.pos m <? 0) with false.
    destruct (truediv_1000 false m Hhi) as (mf & ef & -> & Hef & Hv).
    cbn [bind mbind result_bind Py.int_of_float cond_Zopp].
    replace (0 <=? ef) with false by (symmetry; apply Z.leb_gt; lia).
    rewrite Hv, Z.quot_div_nonneg by lia. reflexivity.
  - unfold Py.int_truediv, Py.prec, Py.emax. change (Z.neg m <? 0) with true.
    destruct (truediv_1000 true m) as (mf & ef & -> & Hef & Hv); [lia|].
    cbn [bind mbind result_bind Py.int_of_float cond_Zopp].
    replace (0 <=? ef) with false by (symmetry; apply Z.leb_gt; lia).
    rewrite Hv. change (Z.neg m) with (- Z.pos m).
    rewrite Z.quot_opp_l by lia. rewrite Z.quot_div_nonneg by lia. reflexivity.
Qed.

Lemma get_timestamp_towards_zero_witness :
  etl.get_timestamp (VLong (-1)) = Ok (VString "0") ∧
  etl.get_timestamp (VLong (-1500)) = Ok (VString "-1").
Proof.
  split.
  - apply (get_timestamp_towards_zero (-1)). split; reflexivity.
  - apply (get_timestamp_towards_zero (-1500)). split; reflexivity.
Defined.

(** ** Decimal strings *)

Lemma app_nil_string (s : string) : s +:+ "" = s.
Proof.
  induction s as [|c s IH]; [reflexivity|].
  change (String c (s +:+ "") = String c s). by rewrite IH.
Qed.

Lemma digits_value_app (s t : string) (acc : Z) :
  F.digits_value (s +:+ t) acc = F.digits_value s acc ≫= F.digits_value t.
Proof.
  revert acc. induction s as [|c s IH]; intros acc; [reflexivity|].
  change (String c s +:+ t) with (String c (s +:+ t)). cbn [F.digits_value].
  destruct (Py.digit_of c) as [d|]; [apply IH | reflexivity].
Qed.

Lemma digit_of_char (x : N) :
  (x < 10)%N → Py.digit_of (pretty_N_char x) = Some (Z.of_N x).
Proof.
  intros H.
  assert (x = 0 ∨ x = 1 ∨ x = 2 ∨ x = 3 ∨ x = 4 ∨ x = 5 ∨ x = 6 ∨ x = 7 ∨ x = 8 ∨ x = 9)%N
    as Hx by lia.
  repeat (destruct Hx as [->|Hx]; [reflexivity|]). by subst x.
Qed.

(** The digits [pretty] puts before a string: they are the number, most
    significant first, with no leading zero. *)
Lemma pretty_N_go_digits (x : N) (s : string) :
  ∃ p, pretty_N_go x s = p +:+ s ∧
       (∀ acc, F.digits_value p acc
               = Some (acc * 10 ^ Z.of_nat (String.length p) + Z.of_N x)) ∧
       (x = 0%N → p = "") ∧
       ((0 < x)%N → 10 ^ (Z.of_nat (String.length p) - 1) <= Z.of_N x ∧
                    (1 <= String.length p)%nat).
Proof.
  revert s. induction (N.lt_wf_0 x) as [x _ IH]. intros s.
  destruct (decide (x = 0%N)) as [->|Hx].
  - exists "". split; [reflexivity|]. split; [|split; [done | lia]].
    intros acc. simpl. f_equal. lia.
  - assert (H0 : (0 < x)%N) by lia.
    rewrite (pretty_N_go_step x s H0).
    destruct (IH (x `div` 10)%N (N.div_lt x 10 H0 eq_refl)
                 (String (pretty_N_char (x `mod` 10)) s))
      as (p & Hp & Hv & Hz & Hpos).
    exists (p +:+ String (pretty_N_char (x `mod` 10)) "").
    assert (Hlen : Z.of_nat (String.length (p +:+ String (pretty_N_char (x `mod` 10)) ""))
                   = Z.of_nat (String.length p) + 1).
    { rewrite length_app_string. simpl. lia. }
    assert (Hmod : (x `mod` 10 < 10)%N) by (apply N.mod_lt; lia).
    assert (Hdiv : Z.of_N x = 10 * Z.of_N (x `div` 10) + Z.of_N (x `mod` 10)).
    { rewrite (N.div_mod x 10) at 1 by lia. lia. }
    split; [|split; [|split]].
    + rewrite Hp, app_assoc_string. reflexivity.
    + intros acc. rewrite digits_value_app, Hv. cbn [mbind option_bind F.digits_value].
      rewrite (digit_of_char _ Hmod). f_equal. rewrite Hlen.
      rewrite Z.pow_add_r by lia. change (10 ^ 1) with 10. rewrite Hdiv. ring.
    + lia.
    + intros _. rewrite Hlen. split; [|rewrite length_app_string; simpl; lia].
      replace (Z.of_nat (String.length p) + 1 - 1) with (Z.of_nat (String.length p)) by lia.
      destruct (decide (x `div` 10 = 0)%N) as [Hq|Hq].
      * rewrite (Hz Hq). simpl. lia.
      * destruct Hpos as [Hpos Hl]; [lia|].
        replace (Z.of_nat (String.length p)) with (1 + (Z.of_nat (String.length p) - 1))
          by lia.
        rewrite Z.pow_add_r by lia. change (10 ^ 1) with 10.
        set (P := 10 ^ (Z.of_nat (String.length p) - 1)) in *. clearbody P.
        assert (0 <= Z.of_N (x `mod` 10)) by apply N2Z.is_nonneg.
        rewrite Hdiv. clear -Hpos H. lia.
Qed.

(** [pretty] of a natural number: its digits, their count, their value. *)
Lemma pretty_digits (z : Z) :
  0 <= z →
  F.digits_value (pretty z) 0 = Some z ∧
  (1 <= String.length (pretty z))%nat ∧
  ∀ k, (1 <= k)%nat → z < 10 ^ Z.of_nat k → (String.length (pretty z) <= k)%nat.
Proof.
  intros Hz. destruct z as [|m|m]; [|clear Hz|lia].
  - split; [reflexivity|]. split; [simpl; lia|]. intros k Hk _. simpl. lia.
  - change (pretty (Z.pos m)) with (pretty_N_go (N.pos m) "").
    destruct (pretty_N_go_digits (N.pos m) "") as (p & -> & Hv & _ & Hpos).
    rewrite app_nil_string. destruct Hpos as [Hlow Hlen]; [lia|].
    split; [rewrite Hv; f_equal; lia|]. split; [assumption|].
    intros k Hk Hlt. change (Z.of_N (N.pos m)) with (Z.pos m) in Hlow.
    destruct (Nat.le_gt_cases (String.length p) k) as [|Hgt]; [assumption|].
    assert (10 ^ Z.of_nat k <= 10 ^ (Z.of_nat (String.length p) - 1))
      by (apply Z.pow_le_mono_r; lia).
    lia.
Qed.

(** ** [int] of a decimal string *)

Lemma digit_not_blank (c : ascii) (d : Z) :
  Py.digit_of c = Some d →
  Py.is_space c = false ∧ c ≠ "-"%char ∧ c ≠ "+"%char.
Proof.
  destruct c as [[|] [|] [|] [|] [|] [|] [|] [|]]; intros H;
    first [discriminate H | by repeat split].
Qed.

Lemma parse_digits_value (s : string) (acc : Z) (b : bool) (v : Z) :
  F.digits_value s acc = Some v → s ≠ "" ∨ b = true →
  Py.parse_digits s acc b = Some v.
Proof.
  revert acc b. induction s as [|c s IH]; intros acc b H Hb.
  - destruct Hb as [Hb| ->]; [done | exact H].
  - cbn [F.digits_value Py.parse_digits] in *.
    destruct (Py.digit_of c) as [d|]; [|discriminate]. apply IH; auto.
Qed.

Lemma rstrip_digits (s : string) (acc v : Z) :
  F.digits_value s acc = Some v → Py.rstrip s = s.
Proof.
  revert acc. induction s as [|c s IH]; intros acc H; [reflexivity|].
  cbn [F.digits_value] in H. destruct (Py.digit_of c) as [d|] eqn:Hd; [|discriminate].
  cbn [Py.rstrip]. rewrite (IH _ H).
  destruct s; [|reflexivity]. by destruct (digit_not_blank _ _ Hd) as (-> & _).
Qed.

Lemma rstrip_cons (a : ascii) (t : string) :
  Py.rstrip t = t → t ≠ "" → Py.rstrip (String a t) = String a t.
Proof. intros H Hne. cbn [Py.rstrip]. rewrite H. by destruct t. Qed.

(** The string of a positive number, with or without a minus sign, as
    [int] reads it. *)
Lemma int_of_digits (s : string) (v : Z) (neg : bool) :
  F.digits_value s 0 = Some v → s ≠ "" →
  Py.int_of_str ((if neg then "-" else "") +:+ s) = Ok (cond_Zopp neg v).
Proof.
  intros Hv Hne. pose proof (rstrip_digits _ _ _ Hv) as Hr.
  pose proof (parse_digits_value _ _ false _ Hv (or_introl Hne)) as Hparse.
  unfold Py.int_of_str. destruct neg.
  - replace (Py.lstrip ("-" +:+ s)) with (String "-" s) by reflexivity.
    rewrite (rstrip_cons _ _ Hr Hne). cbv beta iota zeta. by rewrite Hparse.
  - change ("" +:+ s) with s.
    destruct s as [|c s]; [done|].
    cbn [F.digits_value] in Hv.
    destruct (Py.digit_of c) as [d|] eqn:Hd; [|discriminate].
    destruct (digit_not_blank _ _ Hd) as (Hsp & Hm & Hp).
    cbn [Py.lstrip]. rewrite Hsp, Hr.
    destruct c as [[|] [|] [|] [|] [|] [|] [|] [|]]; try done; by rewrite Hparse.
Qed.

Lemma int_of_str_int (z : Z) : Py.int_of_str (Py.str_int z) = Ok z.
Proof.
  unfold Py.str_int. destruct z as [|m|m]; [reflexivity| |].
  - destruct (pretty_digits (Z.pos m)) as (Hv & Hlen & _); [lia|].
    apply (int_of_digits _ _ false Hv). intros Hnil. rewrite Hnil in Hlen. simpl in Hlen. lia.
  - destruct (pretty_digits (Z.pos m)) as (Hv & Hlen & _); [lia|].
    change (pretty (Z.neg m)) with ("-" +:+ pretty (Z.pos m)).
    apply (int_of_digits _ _ true Hv). intros Hnil. rewrite Hnil in Hlen. simpl in Hlen. lia.
Qed.

(** [X14] A [ts] that arrives as its decimal string, as it does when
    the log data spell it in quotes, is converted as the number itself by
    both udfs: [int] reads back what [str] prints. *)
Theorem ts_as_decimal_string (utcoffset : Z → Z) (ts : Z) :
  etl.get_timestamp (VString (Py.str_int ts)) = etl.get_timestamp (VLong ts) ∧
  etl.get_datetime utcoffset (VString (Py.str_int ts))
    = etl.get_datetime utcoffset (VLong ts).
Proof.
  unfold etl.get_timestamp, etl.get_datetime. cbn [Py.int].
  by rewrite int_of_str_int.
Qed.
